(** * GOES-16 in the classroom: the notebook's numerical core

    A shallow embedding of the arithmetic cells of
    [GOES16_satellite_in_classroom.ipynb] and of the library routines they
    call, followed by the properties of the radiance conversions, of the
    Gaussian smoothing and of the isentropic interpolation, and by further
    properties of the cells around them: the catalogue address, the
    subsetting of the analysis, the conversion to knots and the arrays
    handed to the plotting calls.

    Arithmetic.  A NumPy float is read in two ways.  In the first
    ([NumPy.float]) it is one of: NaN, a signed infinity, the negative
    zero, or a real number ([Fin 0] is the positive zero).  The special
    values follow IEEE 754 as NumPy exposes it (division by zero gives an
    infinity, the logarithm of a negative number gives NaN, NaN
    propagates), and a finite result is the exact real number: rounding,
    overflow and underflow are not part of this reading.  What is stated
    over it is what they leave alone: the expression a cell evaluates,
    which cells are NaN, that a value is not negative, that an order is
    not reversed, shapes and units.  In the second ([Binary64]) a float is
    a binary64 number of the kernel with the IEEE 754 operations, rounding
    included; it carries the reflectance cell, whose two operations are
    both IEEE ones, and the radiances at which rounding decides: where the
    round trip through the Planck function is lost and where two
    brightness temperatures tie.

    Library model.  The routines the cells call are transcribed from the
    libraries: [scipy.ndimage.gaussian_filter] (separable correlation with
    the normalised Gaussian kernel, edge mode [reflect], every axis),
    [scipy.optimize.fixed_point] (Steffensen's method), Pint's unit
    conversion, and [metpy.calc.isentropic_interpolation] with
    [find_bounding_indices] and [interpolate_1d], read column by column. *)

From Stdlib Require Import Reals Lra Lia List Bool ZArith QArith Qreals Qround.
From Stdlib Require Ascii String DecimalString DecimalNat Floats.
Import ListNotations.
Local Open Scope R_scope.

(** ** NumPy floats *)

Module NumPy.

Inductive float : Type :=
| NaN
| Inf (neg : bool)
| NZero
| Fin (r : R).

Definition Reqb (a b : R) : bool := if Req_dec_T a b then true else false.
Definition Rltb (a b : R) : bool := if Rlt_dec a b then true else false.
Definition Rleb (a b : R) : bool := if Rle_dec a b then true else false.

(** Sign bit, zero test and real value of a float. *)
Definition sign (x : float) : bool :=
  match x with
  | NaN => false
  | Inf s => s
  | NZero => true
  | Fin r => Rltb r 0
  end.

Definition is_zero (x : float) : bool :=
  match x with
  | NZero => true
  | Fin r => Reqb r 0
  | _ => false
  end.

Definition is_nan (x : float) : bool :=
  match x with NaN => true | _ => false end.

Definition is_finite (x : float) : bool :=
  match x with NZero | Fin _ => true | _ => false end.

Definition val (x : float) : R :=
  match x with Fin r => r | _ => 0 end.

Definition zero (neg : bool) : float := if neg then NZero else Fin 0.

(** A product or quotient of exact value [r] whose sign bit is [neg]. *)
Definition signed (neg : bool) (r : R) : float :=
  if Reqb r 0 then zero neg else Fin r.

Definition fneg (x : float) : float :=
  match x with
  | NaN => NaN
  | Inf s => Inf (negb s)
  | NZero => Fin 0
  | Fin r => if Reqb r 0 then NZero else Fin (- r)
  end.

Definition fadd (x y : float) : float :=
  match x, y with
  | NaN, _ | _, NaN => NaN
  | Inf s, Inf t => if Bool.eqb s t then Inf s else NaN
  | Inf s, _ => Inf s
  | _, Inf t => Inf t
  | NZero, NZero => NZero
  | _, _ => Fin (val x + val y)
  end.

Definition fsub (x y : float) : float := fadd x (fneg y).

Definition fmul (x y : float) : float :=
  match x, y with
  | NaN, _ | _, NaN => NaN
  | Inf s, _ => if is_zero y then NaN else Inf (xorb s (sign y))
  | _, Inf t => if is_zero x then NaN else Inf (xorb (sign x) t)
  | _, _ => signed (xorb (sign x) (sign y)) (val x * val y)
  end.

(** Array division: a zero divisor gives an infinity (or NaN for 0/0), it
    does not raise. *)
Definition fdiv (x y : float) : float :=
  match x, y with
  | NaN, _ | _, NaN => NaN
  | Inf _, Inf _ => NaN
  | Inf s, _ => Inf (xorb s (sign y))
  | _, Inf t => zero (xorb (sign x) t)
  | _, _ =>
      if is_zero y then
        if is_zero x then NaN else Inf (xorb (sign x) (sign y))
      else signed (xorb (sign x) (sign y)) (val x / val y)
  end.

(** [np.log] *)
Definition flog (x : float) : float :=
  match x with
  | NaN => NaN
  | Inf s => if s then NaN else Inf false
  | NZero => Inf true
  | Fin r => if Reqb r 0 then Inf true
             else if Rltb r 0 then NaN
             else Fin (ln r)
  end.

(** [np.exp] *)
Definition fexp (x : float) : float :=
  match x with
  | NaN => NaN
  | Inf s => if s then Fin 0 else Inf false
  | NZero => Fin 1
  | Fin r => Fin (exp r)
  end.

(** [np.sqrt] *)
Definition fsqrt (x : float) : float :=
  match x with
  | NaN => NaN
  | Inf s => if s then NaN else Inf false
  | NZero => NZero
  | Fin r => if Rltb r 0 then NaN else Fin (sqrt r)
  end.

(** [x ** n] for an integer exponent [n]. *)
Definition fpow (x : float) (n : nat) : float :=
  match n with
  | O => Fin 1
  | _ =>
      match x with
      | NaN => NaN
      | Inf s => Inf (s && Nat.odd n)
      | NZero => if Nat.odd n then NZero else Fin 0
      | Fin r => Fin (r ^ n)
      end
  end.

(** The comparison [x < y]: false as soon as one side is NaN; the two zeros
    are equal. *)
Definition flt (x y : float) : Prop :=
  match x, y with
  | NaN, _ | _, NaN => False
  | Inf true, Inf true => False
  | Inf true, _ => True
  | _, Inf true => False
  | Inf false, _ => False
  | _, Inf false => True
  | _, _ => val x < val y
  end.

(** Boolean comparisons [x <= y], [x < y], [x == y] and [np.abs]. *)
Definition fleb (x y : float) : bool :=
  match x, y with
  | NaN, _ | _, NaN => false
  | Inf true, _ => true
  | _, Inf false => true
  | Inf false, _ => false
  | _, Inf true => false
  | _, _ => Rleb (val x) (val y)
  end.

Definition fltb (x y : float) : bool :=
  match x, y with
  | NaN, _ | _, NaN => false
  | Inf true, Inf true => false
  | Inf true, _ => true
  | _, Inf true => false
  | Inf false, _ => false
  | _, Inf false => true
  | _, _ => Rltb (val x) (val y)
  end.

Definition feqb (x y : float) : bool :=
  match x, y with
  | NaN, _ | _, NaN => false
  | Inf s, Inf t => Bool.eqb s t
  | Inf _, _ | _, Inf _ => false
  | _, _ => Reqb (val x) (val y)
  end.

Definition fabs (x : float) : float :=
  match x with
  | NaN => NaN
  | Inf _ => Inf false
  | NZero => Fin 0
  | Fin r => Fin (Rabs r)
  end.

(** [x ** y] for a real exponent [y > 0] that is not an integer. *)
Definition fpowr (x : float) (y : R) : float :=
  match x with
  | NaN => NaN
  | Inf _ => Inf false
  | NZero => Fin 0
  | Fin r => if Reqb r 0 then Fin 0
             else if Rltb r 0 then NaN
             else Fin (Rpower r y)
  end.

(** [np.max] of a flattened array: NaN as soon as one element is NaN;
    [None] stands for the error raised on an empty array. *)
Definition fmax (x y : float) : float :=
  match x, y with
  | NaN, _ | _, NaN => NaN
  | _, _ => if fltb x y then y else x
  end.

Definition max (l : list float) : option float :=
  match l with
  | [] => None
  | x :: l' => Some (fold_left fmax l' x)
  end.

(** The order of [np.sort] and [np.argsort]: numerical, NaN last. *)
Definition sort_le (x y : float) : bool :=
  if is_nan y then true else fleb x y.

Definition sort_lt (x y : float) : bool :=
  if is_nan y then negb (is_nan x) else fltb x y.

Fixpoint insert_by (key : nat -> float) (i : nat) (l : list nat) : list nat :=
  match l with
  | [] => [i]
  | j :: l' => if sort_le (key i) (key j) then i :: l
               else j :: insert_by key i l'
  end.

(** [np.argsort]: the indices that sort [a] (NumPy fixes no order between
    equal keys; here they keep theirs). *)
Definition argsort (a : list float) : list nat :=
  fold_right (insert_by (fun i => nth i a NaN)) [] (seq 0 (length a)).

(** An array in ascending order. *)
Definition ascending (a : list float) : Prop :=
  forall i j : nat, (i < j < length a)%nat ->
                    fleb (nth i a NaN) (nth j a NaN) = true.

(** [a[idx]] for a list of indices. *)
Definition take {A : Type} (d : A) (a : list A) (idx : list nat) : list A :=
  map (fun i => nth i a d) idx.

(** [np.searchsorted(a, v)] on a sorted [a]: the number of elements that
    sort strictly before [v]. *)
Definition searchsorted (a : list float) (v : float) : nat :=
  length (filter (fun e => sort_lt e v) a).

(** [a[i]] with Python's reading of the index [-1]. *)
Definition nth_wrap {A : Type} (d : A) (a : list A) (i : Z) : A :=
  nth (Z.to_nat (if (i <? 0)%Z then (Z.of_nat (length a) + i)%Z else i)) a d.

(** [finval x r]: the float [x] is finite and its value is [r]. *)
Definition finval (x : float) (r : R) : Prop :=
  is_finite x = true /\ val x = r.

(** Two-dimensional arrays, and the broadcasting of a scalar against them. *)
Definition array2 : Type := list (list float).

Definition map2d (f : float -> float) (a : array2) : array2 :=
  map (map f) a.


Definition cell {A : Type} (a : list (list A)) (i j : nat) : option A :=
  match nth_error a i with
  | Some row => nth_error row j
  | None => None
  end.

Definition scalar_div (c : float) (a : array2) : array2 :=
  map2d (fun v => fdiv c v) a.
Definition div_scalar (a : array2) (c : float) : array2 :=
  map2d (fun v => fdiv v c) a.
Definition add_scalar (a : array2) (c : float) : array2 :=
  map2d (fun v => fadd v c) a.
Definition sub_scalar (a : array2) (c : float) : array2 :=
  map2d (fun v => fsub v c) a.
Definition scalar_mul (c : float) (a : array2) : array2 :=
  map2d (fun v => fmul c v) a.
Definition mul_scalar (a : array2) (c : float) : array2 :=
  map2d (fun v => fmul v c) a.
Definition log (a : array2) : array2 := map2d flog a.
Definition sqrt (a : array2) : array2 := map2d fsqrt a.
Definition pow (a : array2) (n : nat) : array2 := map2d (fun v => fpow v n) a.

(** Three-dimensional arrays [a[k][i][j]], their vertical columns
    [a[:, i, j]], and the array whose columns are given. *)
Definition array3 : Type := list (list (list float)).

Definition cell3 {A : Type} (a : list (list (list A))) (k i j : nat)
  : option A :=
  match nth_error a k with
  | Some lvl => cell lvl i j
  | None => None
  end.

Definition map3d (f : float -> float) (a : array3) : array3 :=
  map (map2d f) a.

Definition columns {A : Type} (d : A) (a : list (list (list A)))
  : list (list (list A)) :=
  match a with
  | [] => []
  | l0 :: _ =>
      map (fun i =>
             map (fun j => map (fun lvl => nth j (nth i lvl []) d) a)
                 (seq 0 (length (nth i l0 []))))
          (seq 0 (length l0))
  end.

Definition from_columns {A : Type} (d : A) (m : nat)
  (g : list (list (list A))) : list (list (list A)) :=
  map (fun l => map (map (fun prof => nth l prof d)) g) (seq 0 m).

Definition transpose {A : Type} (d : A) (a : list (list A)) : list (list A) :=
  match a with
  | [] => []
  | r0 :: _ => map (fun j => map (fun r => nth j r d) a) (seq 0 (length r0))
  end.

(** [a[start:stop]] *)
Definition slice {A : Type} (start stop : nat) (a : list A) : list A :=
  firstn (stop - start) (skipn start a).

End NumPy.

(** ** The radiance cells of the notebook *)

Module Notebook.
Import NumPy.

(** What the cells read from an opened channel file [ds]. *)
Record Dataset : Type := {
  Rad : array2;
  planck_fk1 : float;
  planck_fk2 : float;
  planck_bc1 : float;
  planck_bc2 : float;
  kappa0 : float
}.

(** [T = fk2 / (np.log((fk1 / ir_rad) + 1))] *)
Definition T (fk1 fk2 : float) (ir_rad : array2) : array2 :=
  scalar_div fk2 (NumPy.log (add_scalar (scalar_div fk1 ir_rad) (Fin 1))).

(** [ir_BT = bc2*T + bc1] *)
Definition ir_BT (ds : Dataset) : array2 :=
  let ir_rad := Rad ds in
  let fk1 := planck_fk1 ds in
  let fk2 := planck_fk2 ds in
  let bc1 := planck_bc1 ds in
  let bc2 := planck_bc2 ds in
  add_scalar (scalar_mul bc2 (T fk1 fk2 ir_rad)) bc1.

(** [wv_BT = (fk2 / (np.log((fk1/wv_rad)+1)) - bc1)/bc2] *)
Definition wv_BT (ds : Dataset) : array2 :=
  let wv_rad := Rad ds in
  let fk1 := planck_fk1 ds in
  let fk2 := planck_fk2 ds in
  let bc1 := planck_bc1 ds in
  let bc2 := planck_bc2 ds in
  div_scalar
    (sub_scalar
       (scalar_div fk2
          (NumPy.log (add_scalar (scalar_div fk1 wv_rad) (Fin 1))))
       bc1)
    bc2.

(** [sb_constant = 5.67e-8] *)
Definition sb_constant : float := Fin (567 / 10000000000).

(** [E = sb_constant*wv_BT**4] *)
Definition E (wv_BT : array2) : array2 :=
  scalar_mul sb_constant (pow wv_BT 4).

(** [vis = np.sqrt(ds.Rad*ds.kappa0)] *)
Definition vis (ds : Dataset) : array2 :=
  NumPy.sqrt (mul_scalar (Rad ds) (kappa0 ds)).

(** The value of one cell of [ir_BT] and of [wv_BT], from the radiance [L]
    of the cell. *)
Definition ir_BT_cell (fk1 fk2 bc1 bc2 L : float) : float :=
  fadd (fmul bc2 (fdiv fk2 (flog (fadd (fdiv fk1 L) (Fin 1))))) bc1.

Definition wv_BT_cell (fk1 fk2 bc1 bc2 L : float) : float :=
  fdiv (fsub (fdiv fk2 (flog (fadd (fdiv fk1 L) (Fin 1)))) bc1) bc2.

End Notebook.

(** ** The Planck function of the notebook's text

    The second definition of the round trip: the notebook states Planck's
    function as [L = fk1 / (e^(fk2/T) - 1)], and the scale and offset
    correction [BT = bc2*T + bc1] is undone by [T = (BT - bc1)/bc2]. *)

Module PlanckFunction.
Import NumPy.

Definition effective_temperature (bc1 bc2 BT : float) : float :=
  fdiv (fsub BT bc1) bc2.

Definition planck_radiance (fk1 fk2 T : float) : float :=
  fdiv fk1 (fsub (fexp (fdiv fk2 T)) (Fin 1)).

Definition radiance_of_BT (fk1 fk2 bc1 bc2 BT : float) : float :=
  planck_radiance fk1 fk2 (effective_temperature bc1 bc2 BT).

End PlanckFunction.

(** ** The conversion cells in binary64

    The same cell expressions over the kernel's binary64 floats, whose sum,
    difference, product, quotient and square root are the IEEE 754
    operations, rounding, overflow and underflow included.  [np.log] and
    [np.exp] are the platform's libm: they are parameters of the cells, and
    only the special values that C99 (Annex F) fixes are ever assumed of
    them. *)

Module Binary64.
Import Floats.
Local Open Scope float_scope.

Section Libm.
Variables log exp : PrimFloat.float -> PrimFloat.float.

(** [T = fk2 / (np.log((fk1 / ir_rad) + 1))] and [ir_BT = bc2*T + bc1] on
    one cell. *)
Definition T (fk1 fk2 L : PrimFloat.float) : PrimFloat.float :=
  fk2 / log (fk1 / L + 1).

Definition ir_BT_cell (fk1 fk2 bc1 bc2 L : PrimFloat.float)
  : PrimFloat.float :=
  bc2 * T fk1 fk2 L + bc1.

(** [T = (BT - bc1)/bc2] and [L = fk1 / (exp(fk2/T) - 1)] *)
Definition radiance_of_BT (fk1 fk2 bc1 bc2 BT : PrimFloat.float)
  : PrimFloat.float :=
  fk1 / (exp (fk2 / ((BT - bc1) / bc2)) - 1).

End Libm.

(** [vis = np.sqrt(ds.Rad*ds.kappa0)]: the product of the radiance field
    with the scalar [kappa0] and NumPy's square root, both elementwise and
    both IEEE operations, so nothing here is a parameter. *)
Definition vis_cell (L kappa0 : PrimFloat.float) : PrimFloat.float :=
  sqrt (L * kappa0).

Definition vis (Rad : list (list PrimFloat.float)) (kappa0 : PrimFloat.float)
  : list (list PrimFloat.float) :=
  map (map (fun x => sqrt x)) (map (map (fun L => L * kappa0)) Rad).

End Binary64.

(** ** SciPy: [ndimage.gaussian_filter] and [optimize.fixed_point] *)

Module SciPy.
Import NumPy.

(** Index into a line of length [n] extended by [mode='reflect']:
    [d c b a | a b c d | d c b a]. *)
Definition reflect (n : nat) (i : Z) : nat :=
  let m := (i mod (2 * Z.of_nat n))%Z in
  Z.to_nat (if (m <? Z.of_nat n)%Z then m else (2 * Z.of_nat n - 1 - m)%Z).

Definition fsum (l : list float) : float := fold_left fadd l (Fin 0).

(** [correlate1d(input, weights, mode='reflect', origin=0)] on one line:
    [output[i] = sum_j weights[j] * input[i + j - len(weights)//2]]. *)
Definition correlate1d (input weights : list float) : list float :=
  let n := length input in
  let size1 := (length weights / 2)%nat in
  map (fun i =>
         fsum (map (fun j =>
                      fmul (nth j weights NaN)
                           (nth (reflect n (Z.of_nat i + Z.of_nat j - Z.of_nat size1))
                                input NaN))
                   (seq 0 (length weights))))
      (seq 0 n).

(** [_gaussian_kernel1d(sigma, 0, radius)]:
    [phi_x = exp(-0.5 / sigma2 * x ** 2)] for [x = -radius .. radius],
    divided by its sum. *)
Definition phi (sigma : Q) (x : Z) : R :=
  exp (- (1 / 2) / Q2R (sigma * sigma) * IZR (x ^ 2)).

Definition arange (radius : nat) : list Z :=
  map (fun k => (Z.of_nat k - Z.of_nat radius)%Z) (seq 0 (2 * radius + 1)).

Definition gaussian_kernel1d (sigma : Q) (radius : nat) : list float :=
  let phi_x := map (phi sigma) (arange radius) in
  let total := fold_right Rplus 0 phi_x in
  map (fun p => Fin (p / total)) phi_x.

(** [lw = int(truncate * sd + 0.5)] with [truncate = 4.0]. *)
Definition lw (sigma : Q) : nat := Z.to_nat (Qfloor (4 * sigma + (1 # 2))).

(** [gaussian_filter1d] on one line: the reversed kernel is correlated. *)
Definition gaussian_filter1d (sigma : Q) (input : list float) : list float :=
  correlate1d input (rev (gaussian_kernel1d sigma (lw sigma))).

(** A line filter applied to every line along axis 0, 1 or 2. *)
Definition along_axis0 (f : list float -> list float) (a : array3) : array3 :=
  from_columns NaN (length a) (map (map f) (columns NaN a)).

Definition along_axis1 (f : list float -> list float) (a : array3) : array3 :=
  map (fun lvl => transpose NaN (map f (transpose NaN lvl))) a.

Definition along_axis2 (f : list float -> list float) (a : array3) : array3 :=
  map (map f) a.

(** [gaussian_filter(input, sigma)] on a three-dimensional array and a
    scalar [sigma]: the same [sigma] is used on every axis, and the axes
    are filtered one after the other, axis 0 first. *)
Definition gaussian_filter (input : array3) (sigma : Q) : array3 :=
  if Qlt_le_dec (1 # 1000000000000000) sigma then
    along_axis2 (gaussian_filter1d sigma)
      (along_axis1 (gaussian_filter1d sigma)
         (along_axis0 (gaussian_filter1d sigma) input))
  else input.

(** The same routine on a two-dimensional array. *)
Definition gaussian_filter_2d (input : array2) (sigma : Q) : array2 :=
  if Qlt_le_dec (1 # 1000000000000000) sigma then
    map (gaussian_filter1d sigma)
      (transpose NaN (map (gaussian_filter1d sigma) (transpose NaN input)))
  else input.

(** [optimize.fixed_point(func, x0, xtol=xtol, maxiter=maxiter)] with the
    default method ['del2']; [None] stands for the [RuntimeError] raised
    when the iteration has not converged. *)
Fixpoint map2 {A B C : Type} (f : A -> B -> C) (l1 : list A) (l2 : list B)
  : list C :=
  match l1, l2 with
  | x :: l1', y :: l2' => f x y :: map2 f l1' l2'
  | _, _ => []
  end.

Definition del2 (p0 p1 d : float) : float :=
  fsub p0 (fdiv (fmul (fsub p1 p0) (fsub p1 p0)) d).

Definition relerr (actual desired : float) : float :=
  fdiv (fsub actual desired) desired.

Fixpoint fixed_point_helper (func : list float -> list float)
  (p0 : list float) (xtol : float) (maxiter : nat) : option (list float) :=
  match maxiter with
  | O => None
  | S maxiter' =>
      let p1 := func p0 in
      let p2 := func p1 in
      let d := map2 fadd (map2 fsub p2 (map (fmul (Fin 2)) p1)) p0 in
      let p :=
        map2 (fun d '(p0, (p1, p2)) =>
                if negb (feqb d (Fin 0)) then del2 p0 p1 d else p2)
             d (combine p0 (combine p1 p2)) in
      let err :=
        map2 (fun p p0 => if negb (feqb p0 (Fin 0)) then relerr p p0 else p)
             p p0 in
      if forallb (fun e => fltb (fabs e) xtol) err then Some p
      else fixed_point_helper func p xtol maxiter'
  end.

Definition fixed_point (func : list float -> list float) (x0 : list float)
  (xtol : float) (maxiter : nat) : option (list float) :=
  fixed_point_helper func x0 xtol maxiter.

End SciPy.

(** ** Pint: quantities and unit conversion *)

Module Pint.
Import NumPy.

Inductive Unit : Type :=
| pascal | hectopascal | kelvin | meter_per_second | knot.

Inductive Dimension : Type := Pressure | Temperature | Speed.

Definition dimensionality (u : Unit) : Dimension :=
  match u with
  | pascal | hectopascal => Pressure
  | kelvin => Temperature
  | meter_per_second | knot => Speed
  end.

(** The size of one unit in the base unit of its dimension
    (1 hPa = 100 Pa, 1 kt = 1852/3600 m/s). *)
Definition root_factor (u : Unit) : R :=
  match u with
  | pascal => 1
  | hectopascal => 100
  | kelvin => 1
  | meter_per_second => 1
  | knot => 1852 / 3600
  end.

Definition Unit_eqb (u v : Unit) : bool :=
  match u, v with
  | pascal, pascal | hectopascal, hectopascal | kelvin, kelvin
  | meter_per_second, meter_per_second | knot, knot => true
  | _, _ => false
  end.

Definition Dimension_eqb (d e : Dimension) : bool :=
  match d, e with
  | Pressure, Pressure | Temperature, Temperature | Speed, Speed => true
  | _, _ => false
  end.

Record Quantity (A : Type) : Type := {
  magnitude : A;
  units : Unit
}.
Arguments magnitude {A} _.
Arguments units {A} _.

(** The factor of [registry.convert(value, src, dst)] between two distinct
    units of one dimension; [None] stands for [DimensionalityError]. *)
Definition factor (src dst : Unit) : option R :=
  if Dimension_eqb (dimensionality src) (dimensionality dst) then
    Some (root_factor src / root_factor dst)
  else None.

(** [q.to(dst)], for an array type [A] with its elementwise map: the same
    magnitudes when [q] is already in [dst], the magnitudes times the
    conversion factor otherwise. *)
Definition to {A : Type} (amap : (float -> float) -> A -> A)
  (q : Quantity A) (dst : Unit) : option (Quantity A) :=
  if Unit_eqb (units q) dst then
    Some {| magnitude := magnitude q; units := dst |}
  else
    match factor (units q) dst with
    | Some k =>
        Some {| magnitude := amap (fun v => fmul v (Fin k)) (magnitude q);
                units := dst |}
    | None => None
    end.

End Pint.

(** ** MetPy: [calc.isentropic_interpolation] *)

Module MetPy.
Import NumPy SciPy Pint.

Inductive exn : Type :=
| ValueError | RuntimeError | IndexError | DimensionalityError.

Inductive result (A : Type) : Type :=
| Ok (a : A)
| Raise (e : exn).
Arguments Ok {A} a.
Arguments Raise {A} e.

(** [mpconsts.kappa] (Poisson exponent of dry air) and the magnitude of
    [mpconsts.P0] in hPa. *)
Definition kappa : R := 2 / 7.
Definition P0 : R := 1000.

(** [exner_function] and [potential_temperature] on magnitudes in hPa and K:
    [temperature / (pressure / P0) ** kappa]. *)
Definition exner_function (pressure : float) : float :=
  fpowr (fdiv pressure (Fin P0)) kappa.

Definition potential_temperature (pressure temperature : float) : float :=
  fdiv temperature (exner_function pressure).

(** [_isen_iter]: one Newton step for the logarithm of the pressure. *)
Definition isen_iter (ka pok : float) (iter_log_p isentlevs_nd a b : float)
  : float :=
  let exner := fmul pok (fexp (fmul (fneg ka) iter_log_p)) in
  let t := fadd (fmul a iter_log_p) b in
  let f := fsub isentlevs_nd (fmul t exner) in
  let fp := fmul exner (fsub (fmul ka t) a) in
  fsub iter_log_p (fdiv f fp).

(** [np.isclose(a, b)] with [rtol = 1e-5] and [atol = 1e-8], and
    [_less_or_close]. *)
Definition isclose (a b : float) : bool :=
  match a, b with
  | NaN, _ | _, NaN => false
  | Inf s, Inf t => Bool.eqb s t
  | Inf _, _ | _, Inf _ => false
  | _, _ => Rleb (Rabs (val a - val b))
                 (1 / 100000000 + 1 / 100000 * Rabs (val b))
  end.

Definition less_or_close (a value : float) : bool :=
  fltb a value || isclose a value.

(** [find_bounding_indices] on one column of two points or more and one
    value, searching from below: whether [arr <= value] flips along the
    column, and the index just above the first flip ([0] when there is
    none).  On a shorter column the library takes [np.argmax] over an empty
    axis and raises [ValueError]; [isentropic_interpolation] stops such
    input before the search, so the routine is only ever read on columns
    of two points or more, and nothing is stated of its value on
    others. *)
Fixpoint switches (b : list bool) : list bool :=
  match b with
  | x :: ((y :: _) as b') => xorb x y :: switches b'
  | _ => []
  end.

Fixpoint argmax (sw : list bool) : nat :=
  match sw with
  | [] => 0
  | true :: _ => 0
  | false :: sw' => if existsb (fun x => x) sw' then S (argmax sw') else 0
  end.

Definition find_bounding_index (arr : list float) (value : float)
  : nat * bool :=
  let sw := switches (map (fun t => fleb t value) arr) in
  let good_search := existsb (fun x => x) sw in
  let index := (argmax sw + 1)%nat in
  (if good_search then index else 0%nat, good_search).

(** What the routine knows of one output cell before the iteration. *)
Record Cell : Type := {
  good : bool;
  first_guess : float;
  isentlev : float;
  coef_a : float;
  coef_b : float
}.

Definition column_cell (log_p tmpk pres_theta : list float)
  (level isentlevel : float) : Cell :=
  let '(index, good_search) := find_bounding_index pres_theta level in
  let above := Z.of_nat index in
  let below := (Z.of_nat index - 1)%Z in
  let a := fdiv (fsub (nth_wrap NaN tmpk above) (nth_wrap NaN tmpk below))
                (fsub (nth_wrap NaN log_p above) (nth_wrap NaN log_p below)) in
  let b := fsub (nth_wrap NaN tmpk above) (fmul a (nth_wrap NaN log_p above)) in
  {| good := good_search && negb (is_nan a);
     first_guess :=
       fmul (Fin (1 / 2))
            (fadd (nth_wrap NaN log_p above) (nth_wrap NaN log_p below));
     isentlev := isentlevel;
     coef_a := a;
     coef_b := b |}.

(** [interpolate_1d(x, xp, var, axis=0)] on one column: linear
    interpolation in [xp], NaN outside its range.  The library first sorts
    its targets and flips the result back when they came in descending
    order; [isentropic_interpolation] is its only caller here and passes
    [isentlevels], already sorted ascending, so the targets [x] are taken
    in the order given and the routine is not to be read on other
    targets. *)
Definition interpolate_column (x xp var : list float) : list float :=
  let sort_args := argsort xp in
  let xp := take NaN xp sort_args in
  let var := take NaN var sort_args in
  let n := length xp in
  map (fun x_l =>
         let minv := searchsorted xp x_l in
         let minv2 := if (minv =? n)%nat then (n - 1)%nat
                      else if (minv =? 0)%nat then 1%nat else minv in
         let above := Z.of_nat minv2 in
         let below := (Z.of_nat minv2 - 1)%Z in
         let var_interp :=
           fadd (nth_wrap NaN var below)
                (fmul (fsub (nth_wrap NaN var above) (nth_wrap NaN var below))
                      (fdiv (fsub x_l (nth_wrap NaN xp below))
                            (fsub (nth_wrap NaN xp above)
                                  (nth_wrap NaN xp below)))) in
         if (minv =? n)%nat || fltb x_l (nth_wrap NaN xp below) then NaN
         else var_interp)
      x.

(** A stateful map: the state is threaded from left to right. *)
Fixpoint map_accum {S A B : Type} (f : S -> A -> S * B) (s : S) (l : list A)
  : S * list B :=
  match l with
  | [] => (s, [])
  | x :: l' =>
      let '(s1, y) := f s x in
      let '(s2, ys) := map_accum f s1 l' in
      (s2, y :: ys)
  end.

(** [isentprs[good] = np.exp(log_p_solved)] followed by the masking of the
    cells that are not good or lie beyond the largest pressure. *)
Definition fill_cell (pmax : float) (solved : list float) (c : Cell)
  : list float * float :=
  if good c then
    match solved with
    | s :: solved' =>
        let p := fexp s in
        (solved', if less_or_close p pmax then p else NaN)
    | [] => ([], NaN)
    end
  else (solved, NaN).

Definition fill (pmax : float) (solved : list float)
  (cells : list (list (list Cell))) : array3 :=
  snd (map_accum (map_accum (map_accum (fill_cell pmax))) solved cells).

(** [np.broadcast_to(pressure[:, None, None], temperature.shape)] along the
    vertical axis. *)
Definition broadcast_levels (pressure : list float) (nlev : nat)
  : option (list float) :=
  if (length pressure =? nlev)%nat then Some pressure
  else match pressure with
       | [p] => Some (repeat p nlev)
       | _ => None
       end.

(** The potential temperature of every column: [pres_theta] seen column by
    column. *)
Definition theta_columns (levs : list float)
  (tmpk_cols : list (list (list float))) : list (list (list float)) :=
  map (map (fun col => map2 potential_temperature levs col)) tmpk_cols.

Definition no_cell : Cell :=
  {| good := false; first_guess := NaN; isentlev := NaN;
     coef_a := NaN; coef_b := NaN |}.

(** The bounding indices, interpolation constants and first guesses of all
    output cells, as an array [cells[l][i][j]]. *)
Definition isentropic_cells (log_p levels isentlevels : list float)
  (tmpk_cols theta_cols : list (list (list float)))
  : list (list (list Cell)) :=
  from_columns no_cell (length levels)
    (map2 (map2 (fun tcol thcol =>
                   map2 (column_cell log_p tcol thcol) levels isentlevels))
          tmpk_cols theta_cols).

(** The fixed-point iteration on the good cells, gathered in C order. *)
Definition solve (cells : list (list (list Cell))) : option (list float) :=
  let good_cells := filter good (concat (concat cells)) in
  let ka := Fin kappa in
  let pok := fpowr (Fin P0) kappa in
  let func := fun iter_log_p =>
    map2 (fun p c => isen_iter ka pok p (isentlev c) (coef_a c) (coef_b c))
         iter_log_p good_cells in
  fixed_point func (map first_guess good_cells) (Fin (1 / 1000000)) 50.

(** [interpolate_1d] applied to one more field ([arr[sorter]]). *)
Definition interpolate_arg (isentlevels : list float) (sorter : list nat)
  (theta_cols : list (list (list float))) (arr : Quantity array3)
  : Quantity array3 :=
  let var_cols := columns NaN (take [] (magnitude arr) sorter) in
  {| magnitude :=
       from_columns NaN (length isentlevels)
         (map2 (map2 (interpolate_column isentlevels)) theta_cols var_cols);
     units := units arr |}.

(** [arr[sorter]] needs [arr] to be at least as large as [temperature] in
    every dimension. *)
Definition covers_rows (ra rt : list (list float)) : bool :=
  (length rt <=? length ra)%nat
  && forallb (fun '(x, y) => (length y <=? length x)%nat) (combine ra rt).

Definition covers (a t : array3) : bool :=
  (length t <=? length a)%nat
  && forallb (fun '(la, lt) => covers_rows la lt) (combine a t).

(** The first steps of the routine: units converted to hPa and K, the
    level axis broadcast against the temperature, the levels sorted by
    decreasing pressure, and the potential temperature of every point
    ([theta_cols] is [pres_theta] seen column by column). *)
Record Sorted : Type := {
  pres_hPa : list float;
  sorter : list nat;
  levs : list float;
  tmpk_cols : list (list (list float));
  theta_cols : list (list (list float))
}.

Definition sort_input (pressure : Quantity (list float))
  (temperature : Quantity array3) : option Sorted :=
  match to (@map float float) pressure hectopascal,
        to map3d temperature kelvin with
  | Some pressure, Some temperature =>
      match broadcast_levels (magnitude pressure)
              (length (magnitude temperature)) with
      | Some pres =>
          let sorter := rev (argsort pres) in
          let levs := take NaN pres sorter in
          let tmpk := take [] (magnitude temperature) sorter in
          let tmpk_cols := columns NaN tmpk in
          Some {| pres_hPa := pres; sorter := sorter; levs := levs;
                  tmpk_cols := tmpk_cols;
                  theta_cols := theta_columns levs tmpk_cols |}
      | None => None
      end
  | _, _ => None
  end.

(** [isentropic_interpolation(levels, pressure, temperature, *args)] with
    the defaults [vertical_dim=0], [max_iters=50], [eps=1e-6],
    [bottom_up_search=True]; [levels] are magnitudes in K.  The result
    lists the pressure of the isentropic surfaces, in hPa, and then the
    interpolated [args]. *)
Definition isentropic_interpolation (levels : list float)
  (pressure : Quantity (list float)) (temperature : Quantity array3)
  (args : list (Quantity array3)) : result (list (Quantity array3)) :=
  match sort_input pressure temperature with
  | None => Raise ValueError
  | Some s =>
      let isentlevels := take NaN levels (argsort levels) in
      (* Raise error if input theta level is larger than pres_theta max *)
      match max (concat (concat (theta_cols s))), max levels,
            max (pres_hPa s) with
      | Some theta_max, Some level_max, Some pmax =>
          if fltb theta_max level_max then Raise ValueError
          else if (length (levs s) <? 2)%nat then Raise ValueError
          else
          let log_p := map flog (levs s) in
          let cells :=
            isentropic_cells log_p levels isentlevels
              (tmpk_cols s) (theta_cols s) in
          (* iterative interpolation *)
          match solve cells with
          | None => Raise RuntimeError
          | Some log_p_solved =>
              let isentprs := fill pmax log_p_solved cells in
              (* do an interpolation for each additional argument *)
              if forallb (fun a => covers (magnitude a) (magnitude temperature))
                         args
              then
                Ok ({| magnitude := isentprs; units := hectopascal |}
                      :: map (interpolate_arg isentlevels (sorter s)
                                (theta_cols s))
                             args)
              else Raise IndexError
          end
      | _, _, _ => Raise ValueError
      end
  end.

(** A target lies outside a potential-temperature profile: below every
    value or above every value. *)
Definition outside (profile : list float) (target : float) : Prop :=
  (forall t, In t profile -> flt target t) \/
  (forall t, In t profile -> flt t target).

End MetPy.

(** ** The overlay cells of the notebook *)

Module Overlay.
Import NumPy SciPy Pint MetPy.

(** What the cells read from the opened GFS analysis [ds]; the
    four-dimensional fields are lists of time steps. *)
Record GFS : Type := {
  lat : list float;
  lon : list float;
  isobaric : list float;
  Temperature_isobaric : list array3;
  u_component_of_wind_isobaric : list array3;
  v_component_of_wind_isobaric : list array3
}.

(** [data[0,:,lat_slice,lon_slice]] with [lon_slice = slice(400,601)] and
    [lat_slice = slice(10,160)]; [None] stands for the [IndexError] of an
    empty time axis. *)
Definition subset (data : list array3) : option array3 :=
  match data with
  | [] => None
  | t0 :: _ => Some (map (fun lvl => map (slice 400 601) (slice 10 160 lvl)) t0)
  end.

Record Fields : Type := {
  slons : list float;
  slats : list float;
  pres : Quantity (list float);
  tmpk : Quantity array3;
  uwnd : Quantity array3;
  vwnd : Quantity array3
}.

(** The cell that subsets and smooths the analysis:
    [tmpk = gaussian_filter(..., sigma=1.0) * units.K], and the same for
    the two wind components in m/s; [pres] is the level axis in Pa. *)
Definition cell34 (ds : GFS) : option Fields :=
  match subset (Temperature_isobaric ds),
        subset (u_component_of_wind_isobaric ds),
        subset (v_component_of_wind_isobaric ds) with
  | Some t, Some u, Some v =>
      Some {| slons := slice 400 601 (lon ds);
              slats := slice 10 160 (lat ds);
              pres := {| magnitude := isobaric ds; units := pascal |};
              tmpk := {| magnitude := gaussian_filter t 1; units := kelvin |};
              uwnd := {| magnitude := gaussian_filter u 1;
                         units := meter_per_second |};
              vwnd := {| magnitude := gaussian_filter v 1;
                         units := meter_per_second |} |}
  | _, _, _ => None
  end.

(** [list(range(280,331,2)) * units.K] *)
Definition isentlevs : list float :=
  map (fun k => Fin (IZR (280 + 2 * Z.of_nat k))) (seq 0 26).

(** Quantities are objects: the store holds them, names and list elements
    hold references to them. *)
Definition heap : Type := list (Quantity array3).

Fixpoint update {A : Type} (l : list A) (n : nat) (x : A) : list A :=
  match l, n with
  | [], _ => []
  | _ :: l', O => x :: l'
  | y :: l', S n' => y :: update l' n' x
  end.

(** [q.ito(dst)]: the object referenced by [r] is converted in place. *)
Definition ito (h : heap) (r : nat) (dst : Unit) : result heap :=
  match nth_error h r with
  | Some q =>
      match to map3d q dst with
      | Some q' => Ok (update h r q')
      | None => Raise DimensionalityError
      end
  | None => Raise IndexError
  end.

Record State : Type := {
  objects : heap;
  isent_anal : list nat;
  isentprs : nat;
  isentu : nat;
  isentv : nat
}.

(** The cell that interpolates to the isentropic levels:
    [isent_anal = mpcalc.isentropic_interpolation(isentlevs, pres, tmpk,
    uwnd, vwnd)], [isentprs, isentu, isentv = isent_anal],
    [isentu.ito('kt')], [isentv.ito('kt')]. *)
Definition cell35 (f : Fields) : result State :=
  match isentropic_interpolation isentlevs (pres f) (tmpk f)
          [uwnd f; vwnd f] with
  | Raise e => Raise e
  | Ok ret =>
      let h := ret in
      match seq 0 (length ret) with
      | [r0; r1; r2] =>
          match ito h r1 knot with
          | Raise e => Raise e
          | Ok h1 =>
              match ito h1 r2 knot with
              | Raise e => Raise e
              | Ok h2 =>
                  Ok {| objects := h2; isent_anal := [r0; r1; r2];
                        isentprs := r0; isentu := r1; isentv := r2 |}
              end
          end
      | _ => Raise ValueError
      end
  end.

(** What the plotting cell reads through a name. *)
Definition deref (st : State) (r : nat) : option (Quantity array3) :=
  nth_error (objects st) r.

(** The magnitudes of a field in m/s once converted to knots. *)
Definition to_knots (m : array3) : array3 :=
  map3d (fun v => fmul v (Fin (1 / (1852 / 3600)))) m.

End Overlay.

(** ** Array shapes *)

Module Shape.

(** [a.shape == (I, J)] and [a.shape == (K, I, J)] for arrays held as
    nested lists. *)
Definition has_shape2 {A : Type} (I J : nat) (g : list (list A)) : bool :=
  (length g =? I)%nat && forallb (fun r => (length r =? J)%nat) g.

Definition has_shape3 {A : Type} (K I J : nat) (a : list (list (list A)))
  : bool :=
  (length a =? K)%nat && forallb (has_shape2 I J) a.

End Shape.

(** ** Value ranges *)

Module Range.
Import NumPy.

(** A finite value between [lo] and [hi], and an array all of whose cells
    are such values. *)
Definition within (lo hi : R) (x : float) : Prop :=
  is_finite x = true /\ lo <= val x <= hi.

Definition all_within (lo hi : R) (a : array3) : Prop :=
  forall lvl, In lvl a -> forall row, In row lvl -> forall x, In x row ->
    within lo hi x.

End Range.

(** ** The cell that draws the overlay *)

Module Plotting.
Import NumPy Pint MetPy Overlay.

(** [a[::step]] for a positive [step]: the first element and then every
    [step]-th one. *)
Fixpoint every_from {A : Type} (step skip : nat) (a : list A) : list A :=
  match a with
  | [] => []
  | x :: a' =>
      match skip with
      | O => x :: every_from step (step - 1) a'
      | S skip' => every_from step skip' a'
      end
  end.

Definition every {A : Type} (step : nat) (a : list A) : list A :=
  every_from step 0 a.

(** [l.index(x)]; [None] stands for the [ValueError] of a missing value. *)
Fixpoint index (l : list float) (x : float) : option nat :=
  match l with
  | [] => None
  | y :: l' => if feqb y x then Some 0%nat else option_map S (index l' x)
  end.

(** [ilev = list(isentlevs.m).index(310)] *)
Definition ilev : option nat := index isentlevs (Fin 310).

(** What the cell hands to [contour], to [barbs] and to the title:
    [contour(slons, slats, isentprs[ilev], ...)],
    [barbs(slons[::5], slats[::5], isentu[ilev,::5,::5].m,
    isentv[ilev,::5,::5].m, ...)] and [isentlevs[ilev].m]. *)
Record Layers : Type := {
  contour_x : list float;
  contour_y : list float;
  contour_z : array2;
  barbs_x : list float;
  barbs_y : list float;
  barbs_u : array2;
  barbs_v : array2;
  title_level : float
}.

Definition cell36 (f : Fields) (st : State) : result Layers :=
  match ilev with
  | None => Raise ValueError
  | Some ilev =>
      match deref st (isentprs st), deref st (isentu st),
            deref st (isentv st) with
      | Some prs, Some u, Some v =>
          match nth_error (magnitude prs) ilev, nth_error (magnitude u) ilev,
                nth_error (magnitude v) ilev, nth_error isentlevs ilev with
          | Some z, Some ul, Some vl, Some level =>
              Ok {| contour_x := slons f;
                    contour_y := slats f;
                    contour_z := z;
                    barbs_x := every 5 (slons f);
                    barbs_y := every 5 (slats f);
                    barbs_u := every 5 (map (every 5) ul);
                    barbs_v := every 5 (map (every 5) vl);
                    title_level := level |}
          | _, _, _, _ => Raise IndexError
          end
      | _, _, _ => Raise IndexError
      end
  end.

End Plotting.

(** ** The catalogue of the satellite files *)

Module Catalog.
Import Ascii String DecimalString.
Local Open Scope string_scope.

(** ['{:02d}'.format(n)] for a number that is not negative: its decimal
    digits, padded with a zero on the left to two characters. *)
Definition format_02d (n : nat) : string :=
  let s := NilZero.string_of_uint (Nat.to_uint n) in
  if (String.length s <? 2)%nat then String "0"%char s else s.

(** [catalog_url] for [channel] *)
Definition catalog_url (channel : nat) : string :=
  "http://thredds-test.unidata.ucar.edu/thredds/catalog/satellite/goes16/GRB16/ABI/CONUS/Channel"
  ++ format_02d channel ++ "/current/".

(** The number a directory name ends with. *)
Definition channel_of (digits : string) : option nat :=
  option_map Nat.of_uint (NilZero.uint_of_string digits).

End Catalog.

(** ** The level axis given in the other order *)

Module LevelOrder.
Import Pint.

(** [q[::-1]]: a quantity with its first axis reversed. *)
Definition reversed {A : Type} (q : Quantity (list A)) : Quantity (list A) :=
  {| magnitude := rev (magnitude q); units := units q |}.

End LevelOrder.

(** ** xarray: [DataArray.min] *)

Module Xarray.
Import NumPy.

(** [fmin] of two floats that are not NaN. *)
Definition fmin (x y : float) : float := if fltb y x then y else x.

(** [np.nanmin] of a flattened array: the smallest element that is not
    NaN, NaN when every element is NaN; [None] stands for the error raised
    on an empty array. *)
Definition nanmin (l : list float) : option float :=
  match l with
  | [] => None
  | _ =>
      match filter (fun v => negb (is_nan v)) l with
      | [] => Some NaN
      | x :: l' => Some (fold_left fmin l' x)
      end
  end.

(** [a.min()] on a two-dimensional float [DataArray]: missing values are
    skipped. *)
Definition min (a : array2) : option float := nanmin (concat a).

End Xarray.

(** ** Sample inputs *)

Module Samples.
Import NumPy Notebook.

(** Constants [fk1 = 2.0], [fk2 = 3700], [bc1 = 0.5], [bc2 = 0.99] and a
    one-row radiance field holding [5.0] and [0.0]. *)
Definition ds0 : Dataset := {|
  Rad := [[Fin 5; Fin 0]];
  planck_fk1 := Fin 2;
  planck_fk2 := Fin 3700;
  planck_bc1 := Fin (1 / 2);
  planck_bc2 := Fin (99 / 100);
  kappa0 := Fin (1 / 500)
|}.

(** The same constants with the radiances [5.0] and [6.0]. *)
Definition ds1 : Dataset := {|
  Rad := [[Fin 5; Fin 6]];
  planck_fk1 := Fin 2;
  planck_fk2 := Fin 3700;
  planck_bc1 := Fin (1 / 2);
  planck_bc2 := Fin (99 / 100);
  kappa0 := Fin (1 / 500)
|}.

(** The radiance [5.0] with the scale [bc2 = 1] and the offset [bc1 = 0],
    that is without correction. *)
Definition ds2 : Dataset := {|
  Rad := [[Fin 5]];
  planck_fk1 := Fin 2;
  planck_fk2 := Fin 3700;
  planck_bc1 := Fin 0;
  planck_bc2 := Fin 1;
  kappa0 := Fin (1 / 500)
|}.

(** Two raw five-level fields on a one-by-one grid: they agree on every
    level but the second one. *)
Definition field_a : array3 :=
  [[[Fin 300]]; [[Fin 300]]; [[Fin 300]]; [[Fin 300]]; [[Fin 300]]].
Definition field_b : array3 :=
  [[[Fin 300]]; [[Fin 310]]; [[Fin 300]]; [[Fin 300]]; [[Fin 300]]].

(** Two analyses after subsetting and smoothing, each with two levels over
    one grid point: the levels 1000 hPa and 500 hPa, and the levels 100 hPa
    and 50 hPa. *)
Definition troposphere : Overlay.Fields := {|
  Overlay.slons := [Fin 270];
  Overlay.slats := [Fin 40];
  Overlay.pres :=
    {| Pint.magnitude := [Fin 100000; Fin 50000]; Pint.units := Pint.pascal |};
  Overlay.tmpk :=
    {| Pint.magnitude := [[[Fin 288]]; [[Fin 252]]]; Pint.units := Pint.kelvin |};
  Overlay.uwnd :=
    {| Pint.magnitude := [[[Fin 5]]; [[Fin 20]]];
       Pint.units := Pint.meter_per_second |};
  Overlay.vwnd :=
    {| Pint.magnitude := [[[Fin 1]]; [[Fin 5]]];
       Pint.units := Pint.meter_per_second |}
|}.

Definition stratosphere : Overlay.Fields := {|
  Overlay.slons := [Fin 270];
  Overlay.slats := [Fin 40];
  Overlay.pres :=
    {| Pint.magnitude := [Fin 10000; Fin 5000]; Pint.units := Pint.pascal |};
  Overlay.tmpk :=
    {| Pint.magnitude := [[[Fin 210]]; [[Fin 215]]]; Pint.units := Pint.kelvin |};
  Overlay.uwnd :=
    {| Pint.magnitude := [[[Fin 20]]; [[Fin 15]]];
       Pint.units := Pint.meter_per_second |};
  Overlay.vwnd :=
    {| Pint.magnitude := [[[Fin 5]]; [[Fin 2]]];
       Pint.units := Pint.meter_per_second |}
|}.

End Samples.

(** An analysis with one time step and one level on a grid of 160 by 601
    points. *)
Module Analyses.
Import NumPy Overlay.

Definition level0 : list (list float) := repeat (repeat (Fin 250) 601) 160.

Definition gfs0 : GFS := {|
  lat := map (fun k => Fin (IZR (Z.of_nat k))) (seq 0 160);
  lon := map (fun k => Fin (IZR (Z.of_nat k))) (seq 0 601);
  isobaric := [Fin 50000];
  Temperature_isobaric := [[level0]];
  u_component_of_wind_isobaric := [[level0]];
  v_component_of_wind_isobaric := [[level0]]
|}.

(** The analysis [stratosphere] of the samples with its level axis in
    ascending pressure: 50 hPa first, then 100 hPa. *)
Definition stratosphere_up : Fields := {|
  slons := [Fin 270];
  slats := [Fin 40];
  pres :=
    {| Pint.magnitude := [Fin 5000; Fin 10000]; Pint.units := Pint.pascal |};
  tmpk :=
    {| Pint.magnitude := [[[Fin 215]]; [[Fin 210]]]; Pint.units := Pint.kelvin |};
  uwnd :=
    {| Pint.magnitude := [[[Fin 15]]; [[Fin 20]]];
       Pint.units := Pint.meter_per_second |};
  vwnd :=
    {| Pint.magnitude := [[[Fin 2]]; [[Fin 5]]];
       Pint.units := Pint.meter_per_second |}
|}.

End Analyses.

(** * Properties *)

(** ** Facts about the float model *)

Section FloatFacts.
Import NumPy.

Lemma Reqb_true (a b : R) : a = b -> Reqb a b = true.
Proof. intros H. unfold Reqb. destruct (Req_dec_T a b); [reflexivity | contradiction]. Qed.

Lemma Reqb_false (a b : R) : a <> b -> Reqb a b = false.
Proof. intros H. unfold Reqb. destruct (Req_dec_T a b); [contradiction | reflexivity]. Qed.

Lemma Rltb_true (a b : R) : a < b -> Rltb a b = true.
Proof. intros H. unfold Rltb. destruct (Rlt_dec a b); [reflexivity | contradiction]. Qed.

Lemma Rltb_false (a b : R) : ~ a < b -> Rltb a b = false.
Proof. intros H. unfold Rltb. destruct (Rlt_dec a b); [contradiction | reflexivity]. Qed.

Lemma Rleb_true (a b : R) : a <= b -> Rleb a b = true.
Proof. intros H. unfold Rleb. destruct (Rle_dec a b); [reflexivity | contradiction]. Qed.

Lemma Rleb_false (a b : R) : ~ a <= b -> Rleb a b = false.
Proof. intros H. unfold Rleb. destruct (Rle_dec a b); [contradiction | reflexivity]. Qed.

Lemma val_zero (s : bool) : val (zero s) = 0.
Proof. destruct s; reflexivity. Qed.

Lemma val_signed (s : bool) (r : R) : val (signed s r) = r.
Proof.
  unfold signed, Reqb. destruct (Req_dec_T r 0) as [-> | _].
  - apply val_zero.
  - reflexivity.
Qed.

Lemma signed_nonzero (s : bool) (r : R) : r <> 0 -> signed s r = Fin r.
Proof. intros H. unfold signed. now rewrite Reqb_false. Qed.

Lemma is_finite_zero (s : bool) : is_finite (zero s) = true.
Proof. destruct s; reflexivity. Qed.

Lemma is_finite_signed (s : bool) (r : R) : is_finite (signed s r) = true.
Proof. unfold signed. destruct (Reqb r 0); [apply is_finite_zero | reflexivity]. Qed.

Lemma fadd_finite_Fin (x : float) (b : R) :
  is_finite x = true -> fadd x (Fin b) = Fin (val x + b).
Proof. destruct x; simpl; intros H; try discriminate; reflexivity. Qed.

Lemma fmul_Fin_finite (a : R) (y : float) :
  is_finite y = true ->
  fmul (Fin a) y = signed (xorb (Rltb a 0) (sign y)) (a * val y).
Proof. destruct y; simpl; intros H; try discriminate; reflexivity. Qed.

Lemma fdiv_Fin_Fin (a b : R) :
  b <> 0 -> fdiv (Fin a) (Fin b) = signed (xorb (Rltb a 0) (Rltb b 0)) (a / b).
Proof. intros H. simpl. now rewrite (Reqb_false b 0 H). Qed.

Lemma flog_pos (r : R) : 0 < r -> flog (Fin r) = Fin (ln r).
Proof.
  intros H. simpl. rewrite Reqb_false by lra. now rewrite Rltb_false by lra.
Qed.


Lemma cell_map2d (f : float -> float) (a : array2) (i j : nat) :
  cell (map2d f a) i j = option_map f (cell a i j).
Proof.
  unfold cell, map2d. rewrite nth_error_map.
  destruct (nth_error a i) as [row |]; simpl; [| reflexivity].
  apply nth_error_map.
Qed.

End FloatFacts.

(** ** Logarithm facts used by the Planck inversion *)

Section PlanckReal.

Lemma ln_pos_gt1 (x : R) : 1 < x -> 0 < ln x.
Proof. intros H. rewrite <- ln_1. apply ln_increasing; lra. Qed.

Lemma planck_arg_gt1 (fk1 L : R) : 0 < fk1 -> 0 < L -> 1 < fk1 / L + 1.
Proof.
  intros Hf HL. assert (0 < fk1 / L) by (apply Rdiv_lt_0_compat; assumption). lra.
Qed.

Lemma planck_ln_pos (fk1 L : R) : 0 < fk1 -> 0 < L -> 0 < ln (fk1 / L + 1).
Proof. intros Hf HL. apply ln_pos_gt1, planck_arg_gt1; assumption. Qed.

End PlanckReal.

(** ** The infrared conversion, cell by cell *)

Section RadianceConverter.
Import NumPy Notebook.

Lemma Reqb_eq (a b : R) : Reqb a b = true -> a = b.
Proof. unfold Reqb. destruct (Req_dec_T a b); [trivial | discriminate]. Qed.

Lemma signed_false (r : R) : signed false r = Fin r.
Proof.
  unfold signed. destruct (Reqb r 0) eqn:E0; [| reflexivity].
  apply Reqb_eq in E0. now subst.
Qed.

Lemma fsub_Fin_Fin (a b : R) : fsub (Fin a) (Fin b) = Fin (a - b).
Proof.
  unfold fsub, fneg. destruct (Reqb b 0) eqn:E0; simpl; [| reflexivity].
  apply Reqb_eq in E0. f_equal. lra.
Qed.

Lemma fdiv_Fin_Fin_nz (a b : R) :
  a <> 0 -> b <> 0 -> fdiv (Fin a) (Fin b) = Fin (a / b).
Proof.
  intros Ha Hb. rewrite fdiv_Fin_Fin by assumption.
  apply signed_nonzero. unfold Rdiv. apply Rmult_integral_contrapositive.
  split; [assumption | now apply Rinv_neq_0_compat].
Qed.

(** The Planck inversion of a positive radiance is the real number
    [fk2 / ln (fk1/L + 1)] (possibly a signed zero when [fk2 = 0]). *)
Lemma T_cell_real (fk1 fk2 L : R) :
  0 < fk1 -> 0 < L ->
  let t := fdiv (Fin fk2) (flog (fadd (fdiv (Fin fk1) (Fin L)) (Fin 1))) in
  is_finite t = true /\ val t = fk2 / ln (fk1 / L + 1).
Proof.
  intros Hf HL t. unfold t.
  assert (Hq : 0 < fk1 / L) by (apply Rdiv_lt_0_compat; assumption).
  rewrite fdiv_Fin_Fin_nz by lra. simpl fadd.
  rewrite flog_pos by lra.
  pose proof (planck_ln_pos fk1 L Hf HL) as Hln.
  rewrite fdiv_Fin_Fin by lra.
  split; [apply is_finite_signed | apply val_signed].
Qed.

Lemma ir_BT_cell_real (fk1 fk2 bc1 bc2 L : R) :
  0 < fk1 -> 0 < L ->
  ir_BT_cell (Fin fk1) (Fin fk2) (Fin bc1) (Fin bc2) (Fin L)
  = Fin (bc2 * (fk2 / ln (fk1 / L + 1)) + bc1).
Proof.
  intros Hf HL. unfold ir_BT_cell.
  destruct (T_cell_real fk1 fk2 L Hf HL) as [Hfin Hval].
  rewrite fmul_Fin_finite by exact Hfin.
  rewrite fadd_finite_Fin by apply is_finite_signed.
  now rewrite val_signed, Hval.
Qed.

Lemma cell_ir_BT (ds : Dataset) (i j : nat) :
  cell (ir_BT ds) i j
  = option_map
      (ir_BT_cell (planck_fk1 ds) (planck_fk2 ds) (planck_bc1 ds) (planck_bc2 ds))
      (cell (Rad ds) i j).
Proof.
  unfold ir_BT, T, add_scalar, scalar_mul, scalar_div, NumPy.log.
  cbv zeta. rewrite !cell_map2d.
  destruct (cell (Rad ds) i j); reflexivity.
Qed.




(** *** Cells outside the domain of the logarithm *)

Lemma ir_BT_cell_zero (fk1 fk2 bc1 bc2 : R) :
  0 < fk1 -> 0 < fk2 -> 0 < bc2 ->
  ir_BT_cell (Fin fk1) (Fin fk2) (Fin bc1) (Fin bc2) (Fin 0) = Fin bc1.
Proof.
  intros H1 H2 H3. unfold ir_BT_cell. simpl fdiv at 2.
  rewrite (Reqb_true 0 0 eq_refl), (Reqb_false fk1 0) by lra.
  rewrite (Rltb_false fk1 0), (Rltb_false 0 0) by lra.
  simpl. rewrite (Rltb_false fk2 0), (Rltb_false bc2 0) by lra. simpl.
  rewrite fadd_finite_Fin by apply is_finite_signed.
  rewrite val_signed. f_equal. lra.
Qed.

Lemma planck_arg_sign (fk1 l : R) :
  l < 0 -> (fk1 / l + 1) * l = fk1 + l.
Proof. intros Hl. field. lra. Qed.

Lemma ir_BT_cell_negative (fk1 fk2 bc1 bc2 l : R) :
  0 < fk1 -> 0 < fk2 -> 0 < bc2 -> l < 0 ->
  is_nan (ir_BT_cell (Fin fk1) (Fin fk2) (Fin bc1) (Fin bc2) (Fin l)) = true
  <-> - fk1 < l.
Proof.
  intros H1 H2 H3 Hl. unfold ir_BT_cell.
  pose proof (planck_arg_sign fk1 l Hl) as Hq.
  rewrite fdiv_Fin_Fin_nz by lra. simpl fadd at 2.
  set (q := fk1 / l + 1) in *.
  destruct (Rtotal_order q 0) as [Hneg | [Hz | Hpos]].
  - simpl flog. rewrite Reqb_false, Rltb_true by lra. simpl.
    split; [intros _; nra | reflexivity].
  - simpl flog. rewrite Reqb_true by lra. simpl.
    rewrite (Rltb_false fk2 0), (Rltb_false bc2 0) by lra. simpl.
    unfold signed. rewrite Reqb_true by lra. simpl.
    split; [discriminate | intros Hc; nra].
  - rewrite flog_pos by lra.
    assert (Hq1 : q < 1).
    { unfold q. assert (fk1 / l < 0); [| lra].
      unfold Rdiv. apply Rmult_pos_neg; [lra |]. now apply Rinv_lt_0_compat. }
    assert (Hln : ln q < 0) by (rewrite <- ln_1; apply ln_increasing; lra).
    rewrite fdiv_Fin_Fin_nz by lra.
    rewrite fmul_Fin_finite by reflexivity.
    rewrite fadd_finite_Fin by apply is_finite_signed. simpl.
    split; [discriminate | intros Hc; nra].
Qed.

Lemma ir_BT_cell_nan_iff (fk1 fk2 bc1 bc2 : R) (L : float) :
  0 < fk1 -> 0 < fk2 -> 0 < bc2 ->
  is_nan (ir_BT_cell (Fin fk1) (Fin fk2) (Fin bc1) (Fin bc2) L) = true
  <-> (L = NaN \/ L = NZero \/ exists l, L = Fin l /\ - fk1 < l < 0).
Proof.
  intros H1 H2 H3. destruct L as [| s | | l].
  - split; [now left | reflexivity].
  - unfold ir_BT_cell. simpl fdiv at 2. rewrite (Rltb_false fk1 0) by lra.
    assert (E : fadd (zero (xorb false s)) (Fin 1) = Fin (0 + 1))
      by (destruct s; reflexivity).
    rewrite E, flog_pos by lra.
    replace (0 + 1) with 1 by lra. rewrite ln_1. simpl.
    rewrite (Reqb_true 0 0 eq_refl), (Reqb_false fk2 0) by lra.
    rewrite (Rltb_false fk2 0), (Rltb_false 0 0) by lra. simpl.
    rewrite (Reqb_false bc2 0), (Rltb_false bc2 0) by lra. simpl.
    split; [discriminate |].
    intros [Hc | [Hc | [l [Hc _]]]]; discriminate.
  - unfold ir_BT_cell. simpl fdiv at 2.
    rewrite (Reqb_false fk1 0), (Rltb_false fk1 0) by lra. simpl.
    split; [intros _; right; now left | reflexivity].
  - destruct (Rtotal_order l 0) as [Hneg | [Hz | Hpos]].
    + rewrite ir_BT_cell_negative by assumption.
      split.
      * intros Hl. right; right. exists l. split; [reflexivity | lra].
      * intros [Hc | [Hc | [l' [Hc Hl']]]]; try discriminate.
        injection Hc as ->. lra.
    + subst l. rewrite ir_BT_cell_zero by assumption. simpl.
      split; [discriminate |].
      intros [Hc | [Hc | [l' [Hc Hl']]]]; try discriminate.
      injection Hc as <-. lra.
    + rewrite ir_BT_cell_real by assumption. simpl.
      split; [discriminate |].
      intros [Hc | [Hc | [l' [Hc Hl']]]]; try discriminate.
      injection Hc as <-. lra.
Qed.

(** C2, as the code behaves.  With real constants [fk1, fk2, bc2 > 0], a
    cell of the brightness temperature is NaN exactly when its radiance is
    NaN, is the negative zero, or lies strictly between [-fk1] and [0] (the
    argument of the logarithm is negative there).  Every other cell is not
    NaN; in particular a radiance of exactly [0] gets [bc1]. *)
Theorem ir_BT_nan_cells (ds : Dataset) (i j : nat) (L : float)
  (fk1 fk2 bc1 bc2 : R)
  (HL : cell (Rad ds) i j = Some L)
  (E1 : planck_fk1 ds = Fin fk1) (E2 : planck_fk2 ds = Fin fk2)
  (E3 : planck_bc1 ds = Fin bc1) (E4 : planck_bc2 ds = Fin bc2)
  (H1 : 0 < fk1) (H2 : 0 < fk2) (H3 : 0 < bc2) :
  exists bt : float,
    cell (ir_BT ds) i j = Some bt /\
    (is_nan bt = true
     <-> (L = NaN \/ L = NZero \/ exists l, L = Fin l /\ - fk1 < l < 0)) /\
    (L = Fin 0 -> bt = Fin bc1).
Proof.
  exists (ir_BT_cell (Fin fk1) (Fin fk2) (Fin bc1) (Fin bc2) L).
  split; [| split].
  - rewrite cell_ir_BT, HL, E1, E2, E3, E4. reflexivity.
  - now apply ir_BT_cell_nan_iff.
  - intros ->. now apply ir_BT_cell_zero.
Qed.

Lemma ir_BT_nan_cells_witness :
  exists bt : float,
    cell (ir_BT Samples.ds0) 0 1 = Some bt /\
    (is_nan bt = true
     <-> (Fin 0 = NaN \/ Fin 0 = NZero
          \/ exists l, Fin 0 = Fin l /\ - 2 < l < 0)) /\
    (Fin 0 = Fin 0 -> bt = Fin (1 / 2)).
Proof.
  apply (ir_BT_nan_cells Samples.ds0 0 1 (Fin 0) 2 3700 (1 / 2) (99 / 100));
    try reflexivity; lra.
Defined.

(** C2, as the claim states it, fails: the cell of [ds0] whose radiance is
    exactly [0] is not marked undefined, it holds the finite value
    [bc1 = 0.5]. *)
Lemma ir_BT_zero_radiance_not_masked :
  cell (Rad Samples.ds0) 0 1 = Some (Fin 0) /\
  cell (ir_BT Samples.ds0) 0 1 = Some (Fin (1 / 2)) /\
  cell (ir_BT Samples.ds0) 0 1 <> Some NaN.
Proof.
  assert (E : cell (ir_BT Samples.ds0) 0 1 = Some (Fin (1 / 2))).
  { rewrite cell_ir_BT. simpl cell. simpl option_map.
    unfold Samples.ds0; simpl planck_fk1; simpl planck_fk2;
      simpl planck_bc1; simpl planck_bc2.
    rewrite ir_BT_cell_zero by lra. reflexivity. }
  split; [reflexivity |]. split; [exact E |].
  rewrite E. discriminate.
Qed.

(** *** Round trip through the Planck function *)




(** *** Monotonicity *)

Lemma ir_BT_cell_increasing (fk1 fk2 bc1 bc2 L1 L2 : R)
  (H1 : 0 < fk1) (H2 : 0 < fk2) (H3 : 0 < bc2)
  (HL1 : 0 < L1) (HL : L1 < L2) :
  flt (ir_BT_cell (Fin fk1) (Fin fk2) (Fin bc1) (Fin bc2) (Fin L1))
      (ir_BT_cell (Fin fk1) (Fin fk2) (Fin bc1) (Fin bc2) (Fin L2)).
Proof.
  rewrite !ir_BT_cell_real by lra. simpl.
  pose proof (planck_ln_pos fk1 L2 H1 ltac:(lra)) as Hln2.
  assert (Hq : fk1 / L2 + 1 < fk1 / L1 + 1).
  { apply Rplus_lt_compat_r. unfold Rdiv. apply Rmult_lt_compat_l; [assumption |].
    apply Rinv_lt_contravar; [apply Rmult_lt_0_compat; lra | assumption]. }
  assert (Hln : ln (fk1 / L2 + 1) < ln (fk1 / L1 + 1)).
  { apply ln_increasing; [| assumption].
    pose proof (planck_arg_gt1 fk1 L2 H1 ltac:(lra)). lra. }
  assert (Ht : fk2 / ln (fk1 / L1 + 1) < fk2 / ln (fk1 / L2 + 1)).
  { unfold Rdiv. apply Rmult_lt_compat_l; [assumption |].
    apply Rinv_lt_contravar; [apply Rmult_lt_0_compat; lra | assumption]. }
  apply Rplus_lt_compat_r. now apply Rmult_lt_compat_l.
Qed.

(** C5, as the code behaves.  With [fk1, fk2, bc2 > 0], of two cells with
    positive radiances [L1 <= L2] the second has a brightness temperature
    that is not smaller: the conversion is increasing in the weak sense.
    That the order is strict is not part of the statement: in binary64
    distinct radiances share a brightness temperature, as shown further
    down with the cells in binary64. *)
Theorem ir_BT_increasing (ds : Dataset) (i1 j1 i2 j2 : nat)
  (fk1 fk2 bc1 bc2 L1 L2 : R)
  (Hc1 : cell (Rad ds) i1 j1 = Some (Fin L1))
  (Hc2 : cell (Rad ds) i2 j2 = Some (Fin L2))
  (E1 : planck_fk1 ds = Fin fk1) (E2 : planck_fk2 ds = Fin fk2)
  (E3 : planck_bc1 ds = Fin bc1) (E4 : planck_bc2 ds = Fin bc2)
  (H1 : 0 < fk1) (H2 : 0 < fk2) (H3 : 0 < bc2)
  (HL1 : 0 < L1) (HL : L1 <= L2) :
  exists BT1 BT2 : float,
    cell (ir_BT ds) i1 j1 = Some BT1 /\
    cell (ir_BT ds) i2 j2 = Some BT2 /\
    fleb BT1 BT2 = true.
Proof.
  exists (ir_BT_cell (Fin fk1) (Fin fk2) (Fin bc1) (Fin bc2) (Fin L1)).
  exists (ir_BT_cell (Fin fk1) (Fin fk2) (Fin bc1) (Fin bc2) (Fin L2)).
  split; [| split].
  - rewrite cell_ir_BT, Hc1, E1, E2, E3, E4. reflexivity.
  - rewrite cell_ir_BT, Hc2, E1, E2, E3, E4. reflexivity.
  - destruct HL as [Hlt | ->].
    + pose proof (ir_BT_cell_increasing fk1 fk2 bc1 bc2 L1 L2
                    H1 H2 H3 HL1 Hlt) as Hs.
      rewrite !ir_BT_cell_real in * by lra. simpl in Hs. simpl.
      apply Rleb_true. lra.
    + rewrite !ir_BT_cell_real by lra. simpl. apply Rleb_true. lra.
Qed.

Lemma ir_BT_increasing_witness :
  exists BT1 BT2 : float,
    cell (ir_BT Samples.ds1) 0 0 = Some BT1 /\
    cell (ir_BT Samples.ds1) 0 1 = Some BT2 /\
    fleb BT1 BT2 = true.
Proof.
  apply (ir_BT_increasing Samples.ds1 0 0 0 1 2 3700 (1 / 2) (99 / 100) 5 6);
    try reflexivity; lra.
Defined.

(** *** The water-vapour variant *)

Lemma fsub_finite_Fin (x : float) (b : R) :
  is_finite x = true ->
  is_finite (fsub x (Fin b)) = true /\ val (fsub x (Fin b)) = val x - b.
Proof.
  intros Hx. unfold fsub, fneg.
  destruct (Reqb b 0) eqn:E0.
  - apply Reqb_eq in E0. subst b.
    destruct x; try discriminate; simpl; split; trivial; lra.
  - destruct x; try discriminate; simpl; split; trivial; lra.
Qed.

Lemma fdiv_finite_Fin (x : float) (b : R) :
  is_finite x = true -> b <> 0 ->
  fdiv x (Fin b) = signed (xorb (sign x) (Rltb b 0)) (val x / b).
Proof.
  intros Hx Hb. destruct x; try discriminate; simpl;
    now rewrite (Reqb_false b 0 Hb).
Qed.

Lemma wv_BT_cell_real (fk1 fk2 bc1 bc2 L : R) :
  0 < fk1 -> 0 < L -> bc2 <> 0 ->
  let w := wv_BT_cell (Fin fk1) (Fin fk2) (Fin bc1) (Fin bc2) (Fin L) in
  is_finite w = true /\ val w = (fk2 / ln (fk1 / L + 1) - bc1) / bc2.
Proof.
  intros Hf HL Hb w. unfold w, wv_BT_cell.
  destruct (T_cell_real fk1 fk2 L Hf HL) as [Hfin Hval].
  destruct (fsub_finite_Fin _ bc1 Hfin) as [Hfin' Hval'].
  rewrite fdiv_finite_Fin by assumption.
  split; [apply is_finite_signed |].
  now rewrite val_signed, Hval', Hval.
Qed.

Lemma cell_wv_BT (ds : Dataset) (i j : nat) :
  cell (wv_BT ds) i j
  = option_map
      (wv_BT_cell (planck_fk1 ds) (planck_fk2 ds) (planck_bc1 ds) (planck_bc2 ds))
      (cell (Rad ds) i j).
Proof.
  unfold wv_BT, div_scalar, sub_scalar, scalar_div, add_scalar, NumPy.log.
  cbv zeta. rewrite !cell_map2d.
  destruct (cell (Rad ds) i j); reflexivity.
Qed.

Lemma ln_7_5_bounds : 0 < ln (2 / 5 + 1) < 1.
Proof.
  split.
  - apply ln_pos_gt1. lra.
  - rewrite <- (ln_exp 1) at 2. apply ln_increasing; [lra |].
    pose proof (exp_ineq1 1 ltac:(lra)). lra.
Qed.

(** C7.  On the file [ds0] (radiance [5.0], [fk1 = 2.0], [fk2 = 3700],
    [bc1 = 0.5], [bc2 = 0.99]) the two variants do not agree: the infrared
    form gives [0.99*T + 0.5], the water-vapour form gives
    [(T - 0.5)/0.99], and the first is strictly smaller. *)
Theorem wv_BT_differs_from_ir_BT :
  exists a b : float,
    cell (ir_BT Samples.ds0) 0 0 = Some a /\
    cell (wv_BT Samples.ds0) 0 0 = Some b /\
    a = Fin (99 / 100 * (3700 / ln (2 / 5 + 1)) + 1 / 2) /\
    is_finite b = true /\
    val b = (3700 / ln (2 / 5 + 1) - 1 / 2) / (99 / 100) /\
    flt a b.
Proof.
  exists (ir_BT_cell (Fin 2) (Fin 3700) (Fin (1 / 2)) (Fin (99 / 100)) (Fin 5)).
  exists (wv_BT_cell (Fin 2) (Fin 3700) (Fin (1 / 2)) (Fin (99 / 100)) (Fin 5)).
  split; [rewrite cell_ir_BT; reflexivity |].
  split; [rewrite cell_wv_BT; reflexivity |].
  destruct (wv_BT_cell_real 2 3700 (1 / 2) (99 / 100) 5) as [Hfin Hval];
    try lra.
  rewrite ir_BT_cell_real by lra.
  split; [reflexivity |]. split; [exact Hfin |]. split; [exact Hval |].
  assert (Ht : 3700 < 3700 / ln (2 / 5 + 1)).
  { destruct ln_7_5_bounds as [Hp Hlt].
    apply Rmult_lt_reg_r with (ln (2 / 5 + 1)); [assumption |].
    unfold Rdiv. rewrite Rmult_assoc, Rinv_l by lra. lra. }
  destruct (wv_BT_cell (Fin 2) (Fin 3700) (Fin (1 / 2)) (Fin (99 / 100)) (Fin 5));
    try discriminate; simpl in *; lra.
Qed.

(** *** Reflectance *)

Lemma cell_vis (ds : Dataset) (i j : nat) :
  cell (vis ds) i j
  = option_map (fun L => fsqrt (fmul L (kappa0 ds))) (cell (Rad ds) i j).
Proof.
  unfold vis, NumPy.sqrt, mul_scalar. rewrite !cell_map2d.
  destruct (cell (Rad ds) i j); reflexivity.
Qed.

Lemma fsqrt_signed_nonneg (s : bool) (r : R) :
  0 <= r ->
  is_finite (fsqrt (signed s r)) = true /\
  val (fsqrt (signed s r)) = R_sqrt.sqrt r.
Proof.
  intros Hr. unfold signed. destruct (Reqb r 0) eqn:E0.
  - apply Reqb_eq in E0. subst r. rewrite sqrt_0.
    destruct s; simpl; [split; reflexivity |].
    rewrite Rltb_false by lra. simpl. split; [reflexivity | apply sqrt_0].
  - simpl. rewrite Rltb_false by lra. split; reflexivity.
Qed.

(** *** Emitted energy *)

Lemma cell_E (bt : array2) (i j : nat) :
  cell (E bt) i j
  = option_map (fun t => fmul sb_constant (fpow t 4)) (cell bt i j).
Proof.
  unfold E, scalar_mul, pow. rewrite !cell_map2d.
  destruct (cell bt i j); reflexivity.
Qed.

Lemma sb_constant_pos : 0 < 567 / 10000000000.
Proof. lra. Qed.

Lemma E_cell_finite (t : float) :
  is_finite t = true ->
  fmul sb_constant (fpow t 4) = Fin (567 / 10000000000 * val t ^ 4).
Proof.
  pose proof sb_constant_pos as Hs.
  intros Ht. unfold sb_constant. destruct t as [| s | | r]; try discriminate.
  - simpl fpow. rewrite fmul_Fin_finite by reflexivity. simpl.
    rewrite (Rltb_false _ 0), (Rltb_false 0 0) by lra. simpl.
    rewrite signed_false. f_equal. lra.
  - change (fpow (Fin r) 4) with (Fin (r ^ 4)).
    rewrite fmul_Fin_finite by reflexivity.
    assert (0 <= r ^ 4) by (replace (r ^ 4) with ((r ^ 2) ^ 2) by ring;
                            apply pow2_ge_0).
    change (sign (Fin (r ^ 4))) with (Rltb (r ^ 4) 0).
    rewrite (Rltb_false _ 0), (Rltb_false (r ^ 4) 0) by lra.
    change (val (Fin (r ^ 4))) with (r ^ 4). change (val (Fin r)) with r.
    apply signed_false.
Qed.

Lemma E_cell_nan (t : float) :
  is_nan (fmul sb_constant (fpow t 4)) = is_nan t.
Proof.
  pose proof sb_constant_pos as Hs.
  destruct t as [| s | | r].
  - reflexivity.
  - unfold sb_constant. simpl. now rewrite Reqb_false by lra.
  - now rewrite E_cell_finite.
  - now rewrite E_cell_finite.
Qed.

Lemma E_cell_not_negative (t : float) :
  ~ flt (fmul sb_constant (fpow t 4)) (Fin 0).
Proof.
  pose proof sb_constant_pos as Hs.
  destruct t as [| s | | r].
  - simpl. tauto.
  - unfold sb_constant. simpl. rewrite Reqb_false by lra.
    rewrite Bool.andb_false_r. rewrite (Rltb_false _ 0) by lra. simpl. tauto.
  - rewrite E_cell_finite by reflexivity. simpl. lra.
  - rewrite E_cell_finite by reflexivity. simpl.
    assert (0 <= r ^ 4) by (replace (r ^ 4) with ((r ^ 2) ^ 2) by ring;
                            apply pow2_ge_0).
    nra.
Qed.



End RadianceConverter.

(** ** The cells in binary64 *)

Section Binary64Cells.
Import Floats.
Local Open Scope float_scope.
#[local] Set Warnings "-inexact-float".

(** *** Rounding never invents a NaN or a sign *)

Lemma shr_1_nonneg (mrs : shr_record) :
  (0 <= shr_m mrs)%Z -> (0 <= shr_m (shr_1 mrs))%Z.
Proof.
  destruct mrs as [m r s]. simpl.
  destruct m as [| [p | p |] | p]; simpl; lia.
Qed.

Lemma iter_shr_1_nonneg (p : positive) (mrs : shr_record) :
  (0 <= shr_m mrs)%Z -> (0 <= shr_m (SpecFloat.iter_pos shr_1 p mrs))%Z.
Proof.
  revert mrs.
  induction p as [p IH | p IH |]; intros mrs H; simpl.
  - apply IH, IH, shr_1_nonneg, H.
  - apply IH, IH, H.
  - apply shr_1_nonneg, H.
Qed.

Lemma shr_fexp_nonneg (prec emax m e : Z) (l : location) :
  (0 <= m)%Z -> (0 <= shr_m (fst (shr_fexp prec emax m e l)))%Z.
Proof.
  intros H. unfold shr_fexp, shr.
  assert (H0 : (0 <= shr_m (shr_record_of_loc m l))%Z)
    by (destruct l as [| []]; exact H).
  destruct (fexp prec emax (Zdigits2 m + e) - e)%Z; simpl;
    [assumption | now apply iter_shr_1_nonneg | assumption].
Qed.

Lemma round_nearest_even_nonneg (m : Z) (l : location) :
  (0 <= m)%Z -> (0 <= round_nearest_even m l)%Z.
Proof.
  intros H. destruct l as [| []]; simpl; try assumption;
    try destruct (IntDef.Z.even m); lia.
Qed.

(** A rounded non-negative mantissa is a zero, a finite number or an
    infinity of the sign it was given. *)
Lemma binary_round_aux_cases (prec emax : Z) (s : bool) (m e : Z)
  (l : location) :
  (0 <= m)%Z ->
  binary_round_aux prec emax s m e l = S754_zero s \/
  binary_round_aux prec emax s m e l = S754_infinity s \/
  exists m' e', binary_round_aux prec emax s m e l = S754_finite s m' e'.
Proof.
  intros H. unfold binary_round_aux.
  pose proof (shr_fexp_nonneg prec emax m e l H) as H1.
  destruct (shr_fexp prec emax m e l) as [mrs' e']. simpl in H1.
  pose proof (shr_fexp_nonneg prec emax
                (round_nearest_even (shr_m mrs') (loc_of_shr_record mrs'))
                e' loc_Exact
                (round_nearest_even_nonneg _ _ H1)) as H2.
  destruct (shr_fexp prec emax _ e' loc_Exact) as [mrs'' e'']. simpl in H2.
  destruct (shr_m mrs'') as [| p | p]; [now left | | lia].
  destruct (e'' <=? emax - prec)%Z; right; [right | left]; eauto.
Qed.

Lemma sqrtrem_nonneg (m : Z) : (0 <= fst (IntDef.Z.sqrtrem m))%Z.
Proof.
  destruct m as [| p |]; simpl; try lia.
  destruct (PosDef.Pos.sqrtrem p) as [q [| r |]]; simpl; lia.
Qed.

(** The square root of a positive finite number, as the specification of
    the kernel's [sqrt] computes it. *)
Lemma SF64sqrt_positive (m : positive) (e : Z) :
  let r := SF64sqrt (S754_finite false m e) in
  r = S754_zero false \/ r = S754_infinity false \/
  exists m' e', r = S754_finite false m' e'.
Proof.
  unfold SF64sqrt, SFsqrt.
  destruct (SFsqrt_core_binary prec emax (Z.pos m) e) as [[mz ez] lz] eqn:E.
  apply binary_round_aux_cases.
  unfold SFsqrt_core_binary in E.
  match type of E with
  | (let (q, r) := IntDef.Z.sqrtrem ?a in _) = _ =>
      pose proof (sqrtrem_nonneg a) as Hq;
      destruct (IntDef.Z.sqrtrem a) as [q r]
  end.
  simpl in Hq. now inversion E; subst.
Qed.




(** [np.sqrt] never returns a number below zero. *)
Lemma sqrt_not_below_zero (x : PrimFloat.float) : (sqrt x <? 0) = false.
Proof.
  rewrite ltb_spec, sqrt_spec.
  change (Prim2SF 0) with (S754_zero false).
  destruct (Prim2SF x) as [s | s | | s m e].
  - reflexivity.
  - destruct s; reflexivity.
  - reflexivity.
  - destruct s; [reflexivity |].
    destruct (SF64sqrt_positive m e) as [E | [E | [m' [e' E]]]];
      rewrite E; reflexivity.
Qed.

Lemma cell_vis_binary64 (Rad : list (list PrimFloat.float))
  (kappa0 : PrimFloat.float) (i j : nat) :
  NumPy.cell (Binary64.vis Rad kappa0) i j
  = option_map (fun L => Binary64.vis_cell L kappa0) (NumPy.cell Rad i j).
Proof.
  unfold Binary64.vis, NumPy.cell. rewrite !nth_error_map.
  destruct (nth_error Rad i) as [row |]; simpl; [| reflexivity].
  rewrite !nth_error_map. destruct (nth_error row j); reflexivity.
Qed.


(** *** Reflectance *)



(** A product that is negative over the reals but too small for binary64
    is rounded to the negative zero, which is not below zero: the cell is
    the negative zero, not NaN. *)
Lemma vis_underflow :
  (-0x1p-600 * 0x1p-600 = -0) /\
  Binary64.vis_cell (-0x1p-600) 0x1p-600 = -0 /\
  PrimFloat.is_nan (Binary64.vis_cell (-0x1p-600) 0x1p-600) = false.
Proof. repeat split. Qed.

(** *** Round trip and order of the infrared conversion *)


Lemma SFltb_irrefl (x : spec_float) : SFltb x x = false.
Proof.
  unfold SFltb.
  destruct x as [s | s | | s m e]; simpl; try reflexivity.
  - destruct s; reflexivity.
  - rewrite Z.compare_refl.
    assert (E : PosDef.Pos.compare_cont Eq m m = Eq) by apply Pos.compare_refl.
    rewrite E. destruct s; reflexivity.
Qed.

(** C5, as the claim states it, fails in binary64.  The radiances
    [1e17 < 2e17] are both positive, and with [fk1 = 2] both sums
    [fk1/L + 1] are rounded to [1]: whatever the libm logarithm is, the two
    cells hold the same brightness temperature, and the first is not below
    the second. *)
Lemma ir_BT_ties_in_binary64 :
  (0 <? 1e17) = true /\ (1e17 <? 2e17) = true /\
  forall log : PrimFloat.float -> PrimFloat.float,
    Binary64.ir_BT_cell log 2 3700 0.5 0.99 1e17
    = Binary64.ir_BT_cell log 2 3700 0.5 0.99 2e17 /\
    (Binary64.ir_BT_cell log 2 3700 0.5 0.99 1e17
     <? Binary64.ir_BT_cell log 2 3700 0.5 0.99 2e17) = false.
Proof.
  split; [reflexivity | split; [reflexivity |]].
  intros log.
  assert (E : Binary64.ir_BT_cell log 2 3700 0.5 0.99 1e17
              = Binary64.ir_BT_cell log 2 3700 0.5 0.99 2e17)
    by (unfold Binary64.ir_BT_cell, Binary64.T; reflexivity).
  split; [exact E |].
  rewrite E, ltb_spec. apply SFltb_irrefl.
Qed.

End Binary64Cells.

(** ** Gaussian smoothing *)

Section Smoothing.
Import NumPy SciPy.

Lemma finval_Fin (r : R) : finval (Fin r) r.
Proof. split; reflexivity. Qed.

Lemma finval_fadd (x y : float) (a b : R) :
  finval x a -> finval y b -> finval (fadd x y) (a + b).
Proof.
  intros [Hx <-] [Hy <-].
  destruct x, y; simpl in *; try discriminate; split; trivial;
    unfold val; lra.
Qed.

Lemma finval_fmul (x y : float) (a b : R) :
  finval x a -> finval y b -> finval (fmul x y) (a * b).
Proof.
  intros [Hx <-] [Hy <-].
  destruct x, y; simpl in *; try discriminate;
    (split; [apply is_finite_signed | apply val_signed]).
Qed.

Lemma finval_eq (x : float) (a b : R) : finval x a -> a = b -> finval x b.
Proof. intros H <-. exact H. Qed.

Lemma reflect_1 (i : Z) : reflect 1 i = 0%nat.
Proof.
  unfold reflect. change (2 * Z.of_nat 1)%Z with 2%Z. change (Z.of_nat 1) with 1%Z.
  pose proof (Z.mod_pos_bound i 2 ltac:(lia)) as Hm.
  destruct (Z.ltb_spec (i mod 2) 1); lia.
Qed.

Lemma reflect_lt (n : nat) (i : Z) : (0 < n)%nat -> (reflect n i < n)%nat.
Proof.
  intros Hn. unfold reflect.
  pose proof (Z.mod_pos_bound i (2 * Z.of_nat n) ltac:(lia)) as Hm.
  destruct (Z.ltb_spec (i mod (2 * Z.of_nat n)) (Z.of_nat n)); lia.
Qed.

(** The kernel of the notebook's calls ([sigma = 1.0]): nine positive
    weights. *)
Lemma lw_1 : lw 1 = 4%nat.
Proof. reflexivity. Qed.

Lemma phi_pos (sigma : Q) (x : Z) : 0 < phi sigma x.
Proof. apply exp_pos. Qed.

Lemma weights_1 :
  exists c0 c1 c2 c3 c4 c5 c6 c7 c8 : R,
    (0 < c0 /\ 0 < c1 /\ 0 < c2 /\ 0 < c3 /\ 0 < c4 /\
     0 < c5 /\ 0 < c6 /\ 0 < c7 /\ 0 < c8) /\
    rev (gaussian_kernel1d 1 (lw 1))
    = [Fin c0; Fin c1; Fin c2; Fin c3; Fin c4; Fin c5; Fin c6; Fin c7; Fin c8].
Proof.
  rewrite lw_1. unfold gaussian_kernel1d.
  change (arange 4) with [-4; -3; -2; -1; 0; 1; 2; 3; 4]%Z.
  cbn [map fold_right rev app].
  set (total := phi 1 (-4) + _).
  assert (Ht : 0 < total).
  { unfold total.
    pose proof (phi_pos 1 (-4)). pose proof (phi_pos 1 (-3)).
    pose proof (phi_pos 1 (-2)). pose proof (phi_pos 1 (-1)).
    pose proof (phi_pos 1 0). pose proof (phi_pos 1 1).
    pose proof (phi_pos 1 2). pose proof (phi_pos 1 3).
    pose proof (phi_pos 1 4). lra. }
  do 9 eexists. split; [| reflexivity].
  repeat split; apply Rdiv_lt_0_compat; solve [apply phi_pos | exact Ht].
Qed.

Section OneByOne.
Variables (f : list float -> list float) (g : float -> float).
Hypothesis f_singleton : forall y, f [y] = [g y].

Lemma level0_of_column (x0 x1 x2 x3 x4 : float) :
  nth 0 (along_axis2 f (along_axis1 f (along_axis0 f
           [[[x0]]; [[x1]]; [[x2]]; [[x3]]; [[x4]]]))) []
  = [[g (g (nth 0 (f [x0; x1; x2; x3; x4]) NaN))]].
Proof.
  unfold along_axis2, along_axis1, along_axis0, from_columns, columns.
  cbn [length seq map nth].
  unfold transpose. cbn [length seq map nth].
  rewrite f_singleton. cbn [length seq map nth].
  now rewrite f_singleton.
Qed.
End OneByOne.

Ltac eval_reflect :=
  repeat match goal with
         | |- context [reflect ?n ?i] =>
             let v := eval vm_compute in (reflect n i) in
             change (reflect n i) with v
         end.

Lemma correlate1d_singleton (w0 w1 w2 w3 w4 w5 w6 w7 w8 y : float) :
  correlate1d [y] [w0; w1; w2; w3; w4; w5; w6; w7; w8]
  = [fsum [fmul w0 y; fmul w1 y; fmul w2 y; fmul w3 y; fmul w4 y;
           fmul w5 y; fmul w6 y; fmul w7 y; fmul w8 y]].
Proof.
  unfold correlate1d. cbn [length seq map].
  rewrite !reflect_1. reflexivity.
Qed.

Lemma correlate1d_5_head (w0 w1 w2 w3 w4 w5 w6 w7 w8 x0 x1 x2 x3 x4 : float) :
  nth 0 (correlate1d [x0; x1; x2; x3; x4]
           [w0; w1; w2; w3; w4; w5; w6; w7; w8]) NaN
  = fsum [fmul w0 x3; fmul w1 x2; fmul w2 x1; fmul w3 x0; fmul w4 x0;
          fmul w5 x1; fmul w6 x2; fmul w7 x3; fmul w8 x4].
Proof.
  unfold correlate1d. cbn [length seq map nth].
  eval_reflect. reflexivity.
Qed.

Ltac finval_tac :=
  repeat first [ apply finval_Fin | eassumption
               | eapply finval_fadd | eapply finval_fmul ].

Lemma finval_pass (c0 c1 c2 c3 c4 c5 c6 c7 c8 r : R) (y : float) :
  finval y r ->
  finval (fsum [fmul (Fin c0) y; fmul (Fin c1) y; fmul (Fin c2) y;
                fmul (Fin c3) y; fmul (Fin c4) y; fmul (Fin c5) y;
                fmul (Fin c6) y; fmul (Fin c7) y; fmul (Fin c8) y])
         ((c0 + c1 + c2 + c3 + c4 + c5 + c6 + c7 + c8) * r).
Proof.
  intros Hy. unfold fsum. cbn [fold_left].
  eapply finval_eq; [finval_tac | ring].
Qed.

Lemma finval_head (c0 c1 c2 c3 c4 c5 c6 c7 c8 a b : R) :
  finval (fsum [fmul (Fin c0) (Fin a); fmul (Fin c1) (Fin a);
                fmul (Fin c2) (Fin b); fmul (Fin c3) (Fin a);
                fmul (Fin c4) (Fin a); fmul (Fin c5) (Fin b);
                fmul (Fin c6) (Fin a); fmul (Fin c7) (Fin a);
                fmul (Fin c8) (Fin a)])
         ((c0 + c1 + c3 + c4 + c6 + c7 + c8) * a + (c2 + c5) * b).
Proof.
  unfold fsum. cbn [fold_left].
  eapply finval_eq; [finval_tac | ring].
Qed.

Lemma sigma_1_filtered (A : Type) (x y : A) :
  (if Qlt_le_dec (1 # 1000000000000000) 1 then x else y) = x.
Proof. reflexivity. Qed.

(** The lowest level of the smoothed field, for a column [a; b; a; a; a]
    on a one-by-one grid. *)
Lemma level0_value :
  exists S c : R,
    0 < S /\ 0 < c /\
    forall a b : R,
    exists z : float,
      nth 0 (gaussian_filter
               [[[Fin a]]; [[Fin b]]; [[Fin a]]; [[Fin a]]; [[Fin a]]] 1) []
      = [[z]] /\
      finval z (S * (S * ((S - c) * a + c * b))).
Proof.
  destruct weights_1
    as (c0 & c1 & c2 & c3 & c4 & c5 & c6 & c7 & c8 & Hpos & Hw).
  exists (c0 + c1 + c2 + c3 + c4 + c5 + c6 + c7 + c8), (c2 + c5).
  split; [lra |]. split; [lra |]. intros a b.
  unfold gaussian_filter. rewrite sigma_1_filtered.
  unfold gaussian_filter1d. rewrite Hw.
  rewrite (level0_of_column _ _ (correlate1d_singleton _ _ _ _ _ _ _ _ _)).
  rewrite correlate1d_5_head.
  eexists. split; [reflexivity |].
  apply finval_pass, finval_pass.
  eapply finval_eq; [apply finval_head | ring].
Qed.

(** C6, as the claim states it, fails: the raw fields [field_a] and
    [field_b] have the same lowest level, so smoothing that level alone
    gives the same slice, yet their smoothed lowest levels differ, because
    the filter also runs along the vertical axis. *)
Lemma gaussian_filter_mixes_levels :
  nth 0 Samples.field_a [] = nth 0 Samples.field_b [] /\
  gaussian_filter_2d (nth 0 Samples.field_a []) 1
  = gaussian_filter_2d (nth 0 Samples.field_b []) 1 /\
  nth 0 (gaussian_filter Samples.field_a 1) []
  <> nth 0 (gaussian_filter Samples.field_b 1) [].
Proof.
  split; [reflexivity |]. split; [reflexivity |].
  unfold Samples.field_a, Samples.field_b.
  destruct level0_value as (S & c & HS & Hc & Hz).
  destruct (Hz 300 300) as (za & -> & [_ Va]).
  destruct (Hz 300 310) as (zb & -> & [_ Vb]).
  intros Heq. injection Heq as ->.
  rewrite Va in Vb.
  assert (H1 : (S - c) * 300 + c * 300 < (S - c) * 300 + c * 310) by lra.
  assert (H2 : S * ((S - c) * 300 + c * 300) < S * ((S - c) * 300 + c * 310))
    by (apply Rmult_lt_compat_l; assumption).
  assert (H3 : S * (S * ((S - c) * 300 + c * 300))
               < S * (S * ((S - c) * 300 + c * 310)))
    by (apply Rmult_lt_compat_l; assumption).
  lra.
Qed.

Lemma nth_map_seq {A : Type} (F : nat -> A) (n k : nat) (d : A) :
  (k < n)%nat -> nth k (map F (seq 0 n)) d = F k.
Proof.
  intros Hk. rewrite (nth_indep _ d (F 0%nat)) by (now rewrite length_map, length_seq).
  rewrite map_nth. now rewrite seq_nth.
Qed.

Lemma nth_error_map_seq {A : Type} (F : nat -> A) (n k : nat) :
  (k < n)%nat -> nth_error (map F (seq 0 n)) k = Some (F k).
Proof.
  intros Hk. rewrite nth_error_map, nth_error_seq.
  destruct (Nat.ltb_spec k n); [reflexivity | lia].
Qed.

Lemma nth_map_in {A B : Type} (F : A -> B) (l : list A) (m : nat) (d : B) (d' : A) :
  (m < length l)%nat -> nth m (map F l) d = F (nth m l d').
Proof.
  intros Hm. rewrite (nth_indep _ d (F d')) by (now rewrite length_map).
  apply map_nth.
Qed.

(** C6, as the code behaves.  For a standard deviation above [1e-15], the
    smoothed field is the per-level two-dimensional Gaussian smoothing of
    the field first filtered along the vertical axis; the vertical pass
    replaces the value at level [k] of a column by the kernel-weighted sum
    of the values of that column at the levels around [k], reflected at
    both ends.  Every axis uses the same kernel and the [reflect] edge
    mode. *)
Theorem gaussian_filter_vertical_then_levels (a : array3) (sigma : Q)
  (Hs : (1 # 1000000000000000 < sigma)%Q) :
  gaussian_filter a sigma
  = map (fun lvl => gaussian_filter_2d lvl sigma)
        (along_axis0 (gaussian_filter1d sigma) a) /\
  (forall k i j : nat,
      (k < length a)%nat ->
      (i < length (nth 0 a []))%nat ->
      (j < length (nth i (nth 0 a []) []))%nat ->
      let w := rev (gaussian_kernel1d sigma (lw sigma)) in
      cell3 (along_axis0 (gaussian_filter1d sigma) a) k i j
      = Some (fsum
                (map (fun jj =>
                        fmul (nth jj w NaN)
                          (nth j
                             (nth i
                                (nth (reflect (length a)
                                        (Z.of_nat k + Z.of_nat jj
                                         - Z.of_nat (length w / 2)))
                                   a [])
                                [])
                             NaN))
                     (seq 0 (length w))))).
Proof.
  split.
  - unfold gaussian_filter, gaussian_filter_2d.
    destruct (Qlt_le_dec (1 # 1000000000000000) sigma) as [_ | Hle].
    + unfold along_axis2, along_axis1. now rewrite map_map.
    + exfalso. exact (Qlt_not_le _ _ Hs Hle).
  - intros k i j Hk Hi Hj w.
    unfold cell3, along_axis0, from_columns.
    rewrite nth_error_map_seq by assumption.
    unfold cell. rewrite nth_error_map.
    destruct a as [| l0 a']; [simpl in Hk; lia |].
    change (nth 0 (l0 :: a') []) with l0 in Hi, Hj.
    change (columns NaN (l0 :: a'))
      with (map (fun i0 =>
                   map (fun j0 =>
                          map (fun lvl : list (list float) =>
                                 nth j0 (nth i0 lvl []) NaN) (l0 :: a'))
                       (seq 0 (length (nth i0 l0 []))))
                (seq 0 (length l0))).
    set (a := l0 :: a') in *.
    rewrite nth_error_map, nth_error_map_seq by assumption.
    cbn [option_map]. rewrite nth_error_map, nth_error_map, nth_error_map_seq by assumption.
    cbn [option_map]. f_equal.
    unfold gaussian_filter1d, correlate1d. fold w.
    rewrite length_map. rewrite nth_map_seq by assumption.
    f_equal. apply map_ext. intros jj. f_equal.
    apply (nth_map_in (fun lvl => nth j (nth i lvl []) NaN)).
    apply reflect_lt. lia.
Qed.

Lemma gaussian_filter_vertical_then_levels_witness :
  gaussian_filter Samples.field_b 1
  = map (fun lvl => gaussian_filter_2d lvl 1)
        (along_axis0 (gaussian_filter1d 1) Samples.field_b).
Proof.
  apply (gaussian_filter_vertical_then_levels Samples.field_b 1).
  reflexivity.
Defined.

End Smoothing.

(** ** Isentropic interpolation *)

Section Isentropic.
Import NumPy SciPy Pint MetPy.

(** *** Sorting *)

Lemma insert_by_In (key : nat -> float) (i x : nat) (l : list nat) :
  In x (insert_by key i l) <-> x = i \/ In x l.
Proof.
  induction l as [| j l IH]; simpl.
  - intuition.
  - destruct (sort_le (key i) (key j)); simpl; rewrite ?IH; intuition.
Qed.

Lemma length_insert_by (key : nat -> float) (i : nat) (l : list nat) :
  length (insert_by key i l) = S (length l).
Proof.
  induction l as [| j l IH]; simpl; [reflexivity |].
  destruct (sort_le (key i) (key j)); simpl; now rewrite ?IH.
Qed.

Lemma fold_insert_In (key : nat -> float) (x : nat) (idx : list nat) :
  In x (fold_right (insert_by key) [] idx) <-> In x idx.
Proof.
  induction idx as [| i idx IH]; simpl; [tauto |].
  rewrite insert_by_In, IH. intuition.
Qed.

Lemma fold_insert_length (key : nat -> float) (idx : list nat) :
  length (fold_right (insert_by key) [] idx) = length idx.
Proof.
  induction idx as [| i idx IH]; simpl; [reflexivity |].
  now rewrite length_insert_by, IH.
Qed.

Lemma argsort_length (a : list float) : length (argsort a) = length a.
Proof. unfold argsort. now rewrite fold_insert_length, length_seq. Qed.

Lemma argsort_In (a : list float) (i : nat) :
  In i (argsort a) -> (i < length a)%nat.
Proof.
  unfold argsort. rewrite fold_insert_In, in_seq. lia.
Qed.

Lemma fleb_sort_le (x y : float) : fleb x y = true -> sort_le x y = true.
Proof.
  unfold sort_le. destruct (is_nan y); [reflexivity | trivial].
Qed.

Lemma argsort_ascending (a : list float) :
  ascending a -> argsort a = seq 0 (length a).
Proof.
  intros Ha. unfold argsort.
  set (key := fun i : nat => nth i a NaN).
  assert (H : forall m s, (s + m <= length a)%nat ->
                          fold_right (insert_by key) [] (seq s m) = seq s m).
  { induction m as [| m IH]; intros s Hs; [reflexivity |].
    cbn [seq fold_right]. rewrite IH by lia.
    destruct m as [| m]; [reflexivity |].
    cbn [seq insert_by].
    assert (E : sort_le (key s) (key (S s)) = true).
    { apply fleb_sort_le. apply Ha. lia. }
    now rewrite E. }
  apply H. lia.
Qed.

Lemma take_seq {A : Type} (d : A) (a : list A) :
  take d a (seq 0 (length a)) = a.
Proof.
  unfold take. apply nth_ext with (d := d) (d' := d).
  - now rewrite length_map, length_seq.
  - intros n Hn. rewrite length_map, length_seq in Hn.
    now rewrite nth_map_seq.
Qed.

Lemma take_argsort_ascending (a : list float) :
  ascending a -> take NaN a (argsort a) = a.
Proof. intros Ha. rewrite argsort_ascending by assumption. apply take_seq. Qed.

(** *** Bounding indices *)

Lemma switches_constant (b : bool) (bs : list bool) :
  (forall x, In x bs -> x = b) -> existsb (fun x => x) (switches bs) = false.
Proof.
  induction bs as [| x bs IH]; intros H; [reflexivity |].
  destruct bs as [| y bs']; [reflexivity |].
  change (switches (x :: y :: bs')) with (xorb x y :: switches (y :: bs')).
  assert (E : xorb x y = false).
  { rewrite (H x (or_introl eq_refl)), (H y (or_intror (or_introl eq_refl))).
    apply xorb_nilpotent. }
  cbn [existsb]. rewrite E. cbn [orb].
  apply IH. intros z Hz. apply H. now right.
Qed.

Lemma flt_fleb_false (x y : float) : flt x y -> fleb y x = false.
Proof.
  destruct x as [| [|] | | a], y as [| [|] | | b]; simpl; try tauto;
    intros H; apply Rleb_false; lra.
Qed.

Lemma flt_fleb_true (x y : float) : flt x y -> fleb x y = true.
Proof.
  destruct x as [| [|] | | a], y as [| [|] | | b]; simpl; try tauto;
    intros H; apply Rleb_true; lra.
Qed.

Lemma flt_fltb_true (x y : float) : flt x y -> fltb x y = true.
Proof.
  destruct x as [| [|] | | a], y as [| [|] | | b]; simpl; try tauto;
    intros H; apply Rltb_true; lra.
Qed.

Lemma flt_fltb_false (x y : float) : flt x y -> fltb y x = false.
Proof.
  destruct x as [| [|] | | a], y as [| [|] | | b]; simpl; try tauto;
    intros H; apply Rltb_false; lra.
Qed.

Lemma flt_not_nan_l (x y : float) : flt x y -> is_nan x = false.
Proof. destruct x as [| [|] | |]; simpl; tauto. Qed.

Lemma flt_not_nan_r (x y : float) : flt x y -> is_nan y = false.
Proof. destruct x as [| [|] | |], y as [| [|] | |]; simpl; tauto. Qed.

Lemma find_bounding_index_outside (profile : list float) (target : float) :
  outside profile target ->
  snd (find_bounding_index profile target) = false.
Proof.
  intros [Hlow | Hhigh]; unfold find_bounding_index; cbn [snd].
  - apply (switches_constant false). intros x Hx.
    apply in_map_iff in Hx. destruct Hx as (t & <- & Ht).
    now apply flt_fleb_false, Hlow.
  - apply (switches_constant true). intros x Hx.
    apply in_map_iff in Hx. destruct Hx as (t & <- & Ht).
    now apply flt_fleb_true, Hhigh.
Qed.

Lemma column_cell_outside (log_p tmpk pres_theta : list float)
  (level isentlevel : float) :
  outside pres_theta level ->
  good (column_cell log_p tmpk pres_theta level isentlevel) = false.
Proof.
  intros Ho. unfold column_cell.
  pose proof (find_bounding_index_outside _ _ Ho) as Hg.
  destruct (find_bounding_index pres_theta level) as [index g].
  cbn [snd] in Hg. subst g. reflexivity.
Qed.

(** *** Arrays seen column by column *)

Lemma nth_error_map2 {A B C : Type} (f : A -> B -> C)
  (l1 : list A) (l2 : list B) (n : nat) :
  nth_error (map2 f l1 l2) n
  = match nth_error l1 n, nth_error l2 n with
    | Some a, Some b => Some (f a b)
    | _, _ => None
    end.
Proof.
  revert l2 n. induction l1 as [| x l1 IH]; intros [| y l2] [| n]; simpl;
    try reflexivity.
  - now destruct (nth_error l1 n).
  - apply IH.
Qed.

Lemma In_map2 {A B C : Type} (f : A -> B -> C)
  (l1 : list A) (l2 : list B) (z : C) :
  In z (map2 f l1 l2) -> exists x y, In x l1 /\ In y l2 /\ z = f x y.
Proof.
  revert l2. induction l1 as [| x l1 IH]; intros [| y l2]; simpl;
    try tauto.
  intros [<- | Hz].
  - exists x, y. auto.
  - destruct (IH _ Hz) as (x' & y' & Hx & Hy & ->). exists x', y'. auto.
Qed.

Lemma cell_map {A B : Type} (f : A -> B) (g : list (list A)) (i j : nat) :
  cell (map (map f) g) i j = option_map f (cell g i j).
Proof.
  unfold cell. rewrite nth_error_map.
  destruct (nth_error g i) as [row |]; simpl; [| reflexivity].
  apply nth_error_map.
Qed.

Lemma cell_map2 {A B C : Type} (f : A -> B -> C)
  (g1 : list (list A)) (g2 : list (list B)) (i j : nat) :
  cell (map2 (map2 f) g1 g2) i j
  = match cell g1 i j, cell g2 i j with
    | Some a, Some b => Some (f a b)
    | _, _ => None
    end.
Proof.
  unfold cell. rewrite nth_error_map2.
  destruct (nth_error g1 i) as [r1 |], (nth_error g2 i) as [r2 |];
    try reflexivity.
  - apply nth_error_map2.
  - now destruct (nth_error r1 j).
Qed.

Lemma cell3_from_columns {A : Type} (d : A) (m : nat)
  (g : list (list (list A))) (l i j : nat) :
  (l < m)%nat ->
  cell3 (from_columns d m g) l i j
  = option_map (fun prof => nth l prof d) (cell g i j).
Proof.
  intros Hl. unfold cell3, from_columns.
  rewrite nth_error_map_seq by assumption. apply cell_map.
Qed.

Lemma length_from_columns {A : Type} (d : A) (m : nat)
  (g : list (list (list A))) :
  length (from_columns d m g) = m.
Proof. unfold from_columns. now rewrite length_map, length_seq. Qed.

(** *** Filling in the solved pressures *)

Lemma map_accum_length {S A B : Type} (f : S -> A -> S * B) (s : S)
  (l : list A) :
  length (snd (map_accum f s l)) = length l.
Proof.
  revert s. induction l as [| x l IH]; intros s; simpl; [reflexivity |].
  destruct (f s x) as [s1 y]. specialize (IH s1).
  destruct (map_accum f s1 l) as [s2 ys]. simpl in *. now rewrite IH.
Qed.

Lemma map_accum_nth_error {S A B : Type} (f : S -> A -> S * B) (s : S)
  (l : list A) (n : nat) (a : A) :
  nth_error l n = Some a ->
  exists s', nth_error (snd (map_accum f s l)) n = Some (snd (f s' a)).
Proof.
  revert s n. induction l as [| x l IH]; intros s [| n] H; simpl in H;
    try discriminate.
  - injection H as ->. exists s. simpl.
    destruct (f s a) as [s1 y]. destruct (map_accum f s1 l) as [s2 ys].
    reflexivity.
  - simpl. destruct (f s x) as [s1 y].
    destruct (IH s1 n H) as [s' Hs'].
    destruct (map_accum f s1 l) as [s2 ys]. simpl in *. now exists s'.
Qed.

Lemma fill_cell_not_good (pmax : float) (solved : list float) (c : Cell) :
  good c = false -> snd (fill_cell pmax solved c) = NaN.
Proof. intros H. unfold fill_cell. now rewrite H. Qed.

Lemma cell3_fill (pmax : float) (solved : list float)
  (cells : list (list (list Cell))) (l i j : nat) (c : Cell) :
  cell3 cells l i j = Some c ->
  exists s', cell3 (fill pmax solved cells) l i j
             = Some (snd (fill_cell pmax s' c)).
Proof.
  unfold cell3, cell, fill. intros H.
  destruct (nth_error cells l) as [lvl |] eqn:El; [| discriminate].
  destruct (nth_error lvl i) as [row |] eqn:Ei; [| discriminate].
  destruct (map_accum_nth_error
              (map_accum (map_accum (fill_cell pmax))) solved cells l lvl El)
    as [s1 ->].
  destruct (map_accum_nth_error
              (map_accum (fill_cell pmax)) s1 lvl i row Ei)
    as [s2 ->].
  destruct (map_accum_nth_error (fill_cell pmax) s2 row j c H) as [s3 ->].
  now exists s3.
Qed.

Lemma length_fill (pmax : float) (solved : list float)
  (cells : list (list (list Cell))) :
  length (fill pmax solved cells) = length cells.
Proof. unfold fill. apply map_accum_length. Qed.

(** *** Interpolation of the other fields *)

Lemma take_argsort_In (xp : list float) (e : float) :
  In e (take NaN xp (argsort xp)) -> In e xp.
Proof.
  unfold take. rewrite in_map_iff. intros (i & <- & Hi).
  apply nth_In. now apply argsort_In.
Qed.

Lemma length_take {A : Type} (d : A) (a : list A) (idx : list nat) :
  length (take d a idx) = length idx.
Proof. unfold take. apply length_map. Qed.

Lemma filter_all {A : Type} (p : A -> bool) (l : list A) :
  (forall x, In x l -> p x = true) -> filter p l = l.
Proof.
  induction l as [| x l IH]; intros H; simpl; [reflexivity |].
  rewrite (H x (or_introl eq_refl)). f_equal. apply IH.
  intros y Hy. apply H. now right.
Qed.

Lemma filter_none {A : Type} (p : A -> bool) (l : list A) :
  (forall x, In x l -> p x = false) -> filter p l = [].
Proof.
  induction l as [| x l IH]; intros H; simpl; [reflexivity |].
  rewrite (H x (or_introl eq_refl)). apply IH.
  intros y Hy. apply H. now right.
Qed.

Lemma interpolate_column_outside (x xp var : list float) (l : nat)
  (x_l : float) :
  nth_error x l = Some x_l ->
  outside xp x_l ->
  nth_error (interpolate_column x xp var) l = Some NaN.
Proof.
  intros Hx Ho. unfold interpolate_column.
  rewrite nth_error_map, Hx. cbn [option_map]. f_equal.
  set (xp' := take NaN xp (argsort xp)).
  destruct Ho as [Hlow | Hhigh].
  - assert (E : searchsorted xp' x_l = 0%nat).
    { unfold searchsorted. rewrite filter_none; [reflexivity |].
      intros e He. apply take_argsort_In in He.
      unfold sort_lt. rewrite (flt_not_nan_l _ _ (Hlow e He)).
      now apply flt_fltb_false, Hlow. }
    rewrite E.
    destruct xp' as [| e0 xp''] eqn:Exp; [reflexivity |].
    cbn [length Nat.eqb orb].
    assert (He0 : In e0 xp).
    { apply take_argsort_In. fold xp'. rewrite Exp. now left. }
    assert (Eb : nth_wrap NaN (e0 :: xp'') (Z.of_nat 1 - 1) = e0) by reflexivity.
    rewrite Eb. now rewrite (flt_fltb_true _ _ (Hlow e0 He0)).
  - assert (E : searchsorted xp' x_l = length xp').
    { unfold searchsorted. rewrite filter_all; [reflexivity |].
      intros e He. apply take_argsort_In in He.
      unfold sort_lt. rewrite (flt_not_nan_r _ _ (Hhigh e He)).
      now apply flt_fltb_true, Hhigh. }
    rewrite E, Nat.eqb_refl. reflexivity.
Qed.

(** *** Fields that cover the temperature grid *)

Lemma forallb_combine_nth {A B : Type} (p : A * B -> bool)
  (l1 : list A) (l2 : list B) (k : nat) (d1 : A) (d2 : B) :
  forallb p (combine l1 l2) = true ->
  (k < length l1)%nat -> (k < length l2)%nat ->
  p (nth k l1 d1, nth k l2 d2) = true.
Proof.
  revert l2 k. induction l1 as [| x l1 IH]; intros [| y l2] k H H1 H2;
    simpl in *; try lia.
  apply andb_prop in H. destruct H as [Hxy Hrest].
  destruct k as [| k]; [assumption |].
  apply IH; [assumption | lia | lia].
Qed.

Lemma covers_cell (arr temp : array3) (k i j : nat) :
  covers arr temp = true ->
  (i < length (nth k temp []))%nat ->
  (j < length (nth i (nth k temp []) []))%nat ->
  (i < length (nth k arr []))%nat /\
  (j < length (nth i (nth k arr []) []))%nat.
Proof.
  unfold covers. intros H Hi Hj.
  apply andb_prop in H. destruct H as [Hlen Hlev].
  apply Nat.leb_le in Hlen.
  assert (Hk : (k < length temp)%nat).
  { destruct (Nat.lt_ge_cases k (length temp)) as [Hlt | Hge]; [assumption |].
    rewrite (nth_overflow temp) in Hi by assumption. simpl in Hi. lia. }
  pose proof (forallb_combine_nth _ arr temp k [] [] Hlev ltac:(lia) Hk) as Hr.
  cbn beta iota in Hr. unfold covers_rows in Hr.
  apply andb_prop in Hr. destruct Hr as [Hrows Hcols].
  apply Nat.leb_le in Hrows.
  pose proof (forallb_combine_nth _ (nth k arr []) (nth k temp []) i [] []
                Hcols ltac:(lia) Hi) as Hc.
  cbn beta iota in Hc. apply Nat.leb_le in Hc. lia.
Qed.

Lemma cell_columns {A : Type} (d : A) (a : list (list (list A)))
  (l0 : list (list A)) (i j : nat) :
  hd_error a = Some l0 ->
  (i < length l0)%nat -> (j < length (nth i l0 []))%nat ->
  cell (columns d a) i j
  = Some (map (fun lvl => nth j (nth i lvl []) d) a).
Proof.
  destruct a as [| l a']; simpl; [discriminate |].
  intros H Hi Hj. injection H as ->.
  unfold cell. rewrite nth_error_map_seq by assumption.
  now rewrite nth_error_map_seq by assumption.
Qed.

Lemma nth_error_map_seq_inv {A : Type} (F : nat -> A) (n k : nat) (x : A) :
  nth_error (map F (seq 0 n)) k = Some x -> (k < n)%nat /\ x = F k.
Proof.
  intros H.
  assert (Hk : (k < n)%nat).
  { assert (Hlt : (k < length (map F (seq 0 n)))%nat)
      by (apply nth_error_Some; now rewrite H).
    now rewrite length_map, length_seq in Hlt. }
  split; [assumption |].
  rewrite nth_error_map_seq in H by assumption. now injection H.
Qed.

Lemma cell_columns_inv {A : Type} (d : A) (a : list (list (list A)))
  (i j : nat) (col : list A) :
  cell (columns d a) i j = Some col ->
  exists l0, hd_error a = Some l0 /\
             (i < length l0)%nat /\ (j < length (nth i l0 []))%nat.
Proof.
  destruct a as [| l0 a'];
    [unfold columns, cell; destruct i; discriminate |].
  intros H. exists l0. split; [reflexivity |].
  unfold columns, cell in H.
  destruct (nth_error _ i) as [row |] eqn:Ei; [| discriminate].
  apply nth_error_map_seq_inv in Ei. destruct Ei as [Hi ->].
  apply nth_error_map_seq_inv in H. destruct H as [Hj _].
  split; assumption.
Qed.

Lemma sort_input_tmpk (pressure : Quantity (list float))
  (temperature : Quantity array3) (s : Sorted) :
  sort_input pressure temperature = Some s ->
  tmpk_cols s = columns NaN (take [] (magnitude temperature) (sorter s)).
Proof.
  unfold sort_input. intros H.
  destruct (to (@map float float) pressure hectopascal); [| discriminate].
  unfold to in H.
  destruct (units temperature); cbn in H; try discriminate.
  destruct (broadcast_levels _ _); [| discriminate].
  injection H as <-. reflexivity.
Qed.

(** Where the temperature has a column, a covering field has one too. *)
Lemma cell_var_cols (arr temp : array3) (idx : list nat) (i j : nat)
  (tcol : list float) :
  covers arr temp = true ->
  cell (columns NaN (take [] temp idx)) i j = Some tcol ->
  exists vcol, cell (columns NaN (take [] arr idx)) i j = Some vcol.
Proof.
  intros Hcov Ht. apply cell_columns_inv in Ht.
  destruct Ht as (t0 & Hhd & Hi & Hj).
  destruct idx as [| k0 idx]; [discriminate |].
  cbn [take map hd_error] in Hhd. injection Hhd as <-.
  destruct (covers_cell arr temp k0 i j Hcov Hi Hj) as [Hi' Hj'].
  eexists. apply cell_columns with (l0 := nth k0 arr []);
    [reflexivity | assumption | assumption].
Qed.

(** *** The surfaces *)

Lemma sort_input_theta (pressure : Quantity (list float))
  (temperature : Quantity array3) (s : Sorted) :
  sort_input pressure temperature = Some s ->
  theta_cols s = theta_columns (levs s) (tmpk_cols s).
Proof.
  unfold sort_input. intros H.
  destruct (to (@map float float) pressure hectopascal); [| discriminate].
  destruct (to map3d temperature kelvin); [| discriminate].
  destruct (broadcast_levels _ _); [| discriminate].
  injection H as <-. reflexivity.
Qed.

Lemma cell_isentropic_cells (log_p levels isentlevels : list float)
  (tmpk_cols : list (list (list float))) (lv : list float)
  (l i j : nat) (target target' : float) (profile : list float) :
  nth_error levels l = Some target ->
  nth_error isentlevels l = Some target' ->
  cell (theta_columns lv tmpk_cols) i j = Some profile ->
  exists tcol,
    cell3 (isentropic_cells log_p levels isentlevels tmpk_cols
             (theta_columns lv tmpk_cols)) l i j
    = Some (column_cell log_p tcol profile target target').
Proof.
  intros Hl Hl' Hp. unfold isentropic_cells.
  assert (Hlt : (l < length levels)%nat)
    by (apply nth_error_Some; now rewrite Hl).
  rewrite cell3_from_columns by assumption.
  rewrite cell_map2, Hp.
  unfold theta_columns in Hp. rewrite cell_map in Hp.
  destruct (cell tmpk_cols i j) as [tcol |]; [| discriminate].
  exists tcol. cbn [option_map]. f_equal.
  apply nth_error_nth. now rewrite nth_error_map2, Hl, Hl'.
Qed.

(** C3, as the code behaves.  Once the inputs have been converted and
    sorted ([sort_input]): (1) when the largest potential temperature of the
    whole volume is below the largest requested level, the call raises
    [ValueError] and delivers no surface; (2) when that guard passes, the
    volume has at least two levels, the fixed-point iteration converges and
    the extra fields cover the temperature grid, the call returns the
    pressure surfaces followed by the interpolated fields; (3) every call
    that returns delivers the pressure surfaces, in hPa, followed by one
    field per extra argument, each with exactly one surface per requested
    level; and at a level whose target lies outside the
    potential-temperature profile of a column, the pressure of that column
    is NaN and, for ascending levels, so is every interpolated field
    there. *)
Theorem isentropic_interpolation_surfaces (levels : list float)
  (pressure : Quantity (list float)) (temperature : Quantity array3)
  (args : list (Quantity array3)) (s : Sorted)
  (Hs : sort_input pressure temperature = Some s) :
  (forall theta_max level_max : float,
      max (concat (concat (theta_cols s))) = Some theta_max ->
      max levels = Some level_max ->
      flt theta_max level_max ->
      isentropic_interpolation levels pressure temperature args
      = Raise ValueError) /\
  (forall (theta_max level_max pmax : float) (log_p_solved : list float),
      let isentlevels := take NaN levels (argsort levels) in
      let cells :=
        isentropic_cells (map flog (levs s)) levels isentlevels
          (tmpk_cols s) (theta_cols s) in
      max (concat (concat (theta_cols s))) = Some theta_max ->
      max levels = Some level_max ->
      max (pres_hPa s) = Some pmax ->
      fltb theta_max level_max = false ->
      (2 <= length (levs s))%nat ->
      solve cells = Some log_p_solved ->
      forallb (fun a => covers (magnitude a) (magnitude temperature)) args
      = true ->
      isentropic_interpolation levels pressure temperature args
      = Ok ({| magnitude := fill pmax log_p_solved cells;
               units := hectopascal |}
              :: map (interpolate_arg isentlevels (sorter s) (theta_cols s))
                     args)) /\
  (forall out : list (Quantity array3),
      isentropic_interpolation levels pressure temperature args = Ok out ->
      exists (prs : Quantity array3) (others : list (Quantity array3)),
        out = prs :: others /\
        units prs = hectopascal /\
        length (magnitude prs) = length levels /\
        length others = length args /\
        Forall (fun w => length (magnitude w) = length levels) others /\
        forall (l i j : nat) (target : float) (profile : list float),
          nth_error levels l = Some target ->
          cell (theta_cols s) i j = Some profile ->
          outside profile target ->
          cell3 (magnitude prs) l i j = Some NaN /\
          (ascending levels ->
           Forall (fun w => cell3 (magnitude w) l i j = Some NaN) others)).
Proof.
  split; [| split].
  - intros theta_max level_max Ht Hl Hlt.
    unfold isentropic_interpolation. rewrite Hs, Ht, Hl.
    destruct (max (pres_hPa s)); [| reflexivity].
    now rewrite (flt_fltb_true _ _ Hlt).
  - intros theta_max level_max pmax sol isentlevels cells
      Ht Hl Hp Hcmp Hn Hsol Hcov.
    unfold isentropic_interpolation. rewrite Hs, Ht, Hl, Hp, Hcmp.
    destruct (Nat.ltb_spec (length (levs s)) 2); [lia |].
    fold isentlevels. fold cells. now rewrite Hsol, Hcov.
  - intros out. unfold isentropic_interpolation. rewrite Hs.
    destruct (max (concat (concat (theta_cols s)))) as [theta_max |];
      [| discriminate].
    destruct (max levels) as [level_max |]; [| discriminate].
    destruct (max (pres_hPa s)) as [pmax |]; [| discriminate].
    destruct (fltb theta_max level_max); [discriminate |].
    destruct (length (levs s) <? 2)%nat; [discriminate |].
    set (isentlevels := take NaN levels (argsort levels)).
    assert (Hlen : length isentlevels = length levels).
    { unfold isentlevels. now rewrite length_take, argsort_length. }
    destruct (solve _) as [sol |]; [| discriminate].
    destruct (forallb _ args) eqn:Hcov; [| discriminate].
    intros H. injection H as <-.
    eexists. eexists. split; [reflexivity |].
    split; [reflexivity |]. cbn [magnitude].
    split.
    { rewrite length_fill. unfold isentropic_cells.
      apply length_from_columns. }
    split; [apply length_map |].
    split.
    { apply Forall_forall. intros w Hw. apply in_map_iff in Hw.
      destruct Hw as (arr & <- & _). unfold interpolate_arg. cbn [magnitude].
      now rewrite length_from_columns. }
    intros l i j target profile Hl Hp Ho.
    pose proof (sort_input_tmpk _ _ _ Hs) as Htmpk.
    rewrite (sort_input_theta _ _ _ Hs) in *.
    assert (Hl' : exists target', nth_error isentlevels l = Some target').
    { destruct (nth_error isentlevels l) as [t' |] eqn:E; [now exists t' |].
      apply nth_error_None in E.
      assert ((l < length levels)%nat)
        by (apply nth_error_Some; now rewrite Hl).
      lia. }
    destruct Hl' as [target' Hl'].
    split.
    + destruct (cell_isentropic_cells (map flog (levs s)) levels isentlevels
                  (tmpk_cols s) (levs s) l i j target target' profile
                  Hl Hl' Hp) as [tcol Hc].
      destruct (cell3_fill pmax sol _ l i j _ Hc) as [s' ->].
      f_equal. apply fill_cell_not_good. now apply column_cell_outside.
    + intros Hasc. apply Forall_forall. intros w Hw. apply in_map_iff in Hw.
      destruct Hw as (arr & <- & Harr).
      unfold interpolate_arg. cbn [magnitude].
      assert (Hlt : (l < length isentlevels)%nat)
        by (apply nth_error_Some; now rewrite Hl').
      rewrite cell3_from_columns by assumption.
      rewrite cell_map2, Hp.
      assert (Hv : exists vcol,
                 cell (columns NaN (take [] (magnitude arr) (sorter s))) i j
                 = Some vcol).
      { rewrite forallb_forall in Hcov. specialize (Hcov arr Harr).
        unfold theta_columns in Hp. rewrite cell_map in Hp.
        destruct (cell (tmpk_cols s) i j) as [tcol |] eqn:Ht; [| discriminate].
        rewrite Htmpk in Ht.
        exact (cell_var_cols _ _ _ _ _ _ Hcov Ht). }
      destruct Hv as [vcol ->]. cbn [option_map]. f_equal.
      apply nth_error_nth.
      apply interpolate_column_outside with (x_l := target); [| assumption].
      unfold isentlevels. now rewrite take_argsort_ascending.
Qed.

(** *** Calls that return *)

Lemma fmax_cases (x y : float) :
  fmax x y = NaN \/ fmax x y = x \/ fmax x y = y.
Proof.
  unfold fmax. destruct x, y; auto; destruct (fltb _ _); auto.
Qed.

Lemma fold_left_fmax_cases (l : list float) (x : float) :
  fold_left fmax l x = NaN \/ fold_left fmax l x = x
  \/ In (fold_left fmax l x) l.
Proof.
  revert x. induction l as [| y l IH]; intros x; simpl; [auto |].
  destruct (IH (fmax x y)) as [H | [H | H]]; auto.
  rewrite H. destruct (fmax_cases x y) as [E | [E | E]]; rewrite E; auto.
Qed.

Lemma max_cases (l : list float) (m : float) :
  max l = Some m -> m = NaN \/ In m l.
Proof.
  destruct l as [| x l]; simpl; [discriminate |].
  intros H. injection H as <-.
  destruct (fold_left_fmax_cases l x) as [H | [H | H]]; auto.
Qed.

Lemma max_nonempty (l : list float) : l <> [] -> exists m, max l = Some m.
Proof. destruct l; [congruence | intros _; simpl; eauto]. Qed.

Lemma sort_input_lengths (pressure : Quantity (list float))
  (temperature : Quantity array3) (s : Sorted) :
  sort_input pressure temperature = Some s ->
  length (levs s) = length (pres_hPa s).
Proof.
  unfold sort_input. intros H.
  destruct (to (@map float float) pressure hectopascal); [| discriminate].
  destruct (to map3d temperature kelvin); [| discriminate].
  destruct (broadcast_levels _ _); [| discriminate].
  injection H as <-. cbn.
  now rewrite length_take, length_rev, argsort_length.
Qed.

Lemma In_from_columns {A : Type} (d : A) (m : nat)
  (g : list (list (list A))) (c : A) :
  In c (concat (concat (from_columns d m g))) ->
  c = d \/ exists prof, In prof (concat g) /\ In c prof.
Proof.
  unfold from_columns. rewrite in_concat.
  intros (row & Hrow & Hc). rewrite in_concat in Hrow.
  destruct Hrow as (lvl & Hlvl & Hrow).
  apply in_map_iff in Hlvl. destruct Hlvl as (l & <- & _).
  apply in_map_iff in Hrow. destruct Hrow as (grow & <- & Hgrow).
  apply in_map_iff in Hc. destruct Hc as (prof & <- & Hprof).
  destruct (nth_in_or_default l prof d) as [Hin | ->]; [| now left].
  right. exists prof. split; [| assumption].
  rewrite in_concat. now exists grow.
Qed.

Lemma isentropic_cells_below (log_p levels isentlevels lv : list float)
  (tmpk_cols : list (list (list float))) :
  (forall target t, In target levels ->
                    In t (concat (concat (theta_columns lv tmpk_cols))) ->
                    flt target t) ->
  filter good
    (concat (concat
       (isentropic_cells log_p levels isentlevels tmpk_cols
          (theta_columns lv tmpk_cols))))
  = [].
Proof.
  intros Hbelow. apply filter_none. intros c Hc.
  unfold isentropic_cells in Hc. apply In_from_columns in Hc.
  destruct Hc as [-> | (prof & Hprof & Hc)]; [reflexivity |].
  rewrite in_concat in Hprof. destruct Hprof as (grow & Hgrow & Hprof).
  apply In_map2 in Hgrow.
  destruct Hgrow as (trow & throw & Htrow & Hthrow & ->).
  apply In_map2 in Hprof.
  destruct Hprof as (tcol & thcol & Htcol & Hthcol & ->).
  apply In_map2 in Hc.
  destruct Hc as (target & target' & Htarget & _ & ->).
  apply column_cell_outside. left. intros t Ht.
  apply Hbelow; [assumption |].
  rewrite in_concat. exists thcol. split; [| assumption].
  rewrite in_concat. now exists throw.
Qed.

Lemma solve_no_good_cell (cells : list (list (list Cell))) :
  filter good (concat (concat cells)) = [] -> solve cells = Some [].
Proof. intros H. unfold solve. rewrite H. reflexivity. Qed.

(** When every requested level lies below the potential temperature of
    every point of the volume, the call returns. *)
Lemma isentropic_interpolation_below_data (levels : list float)
  (pressure : Quantity (list float)) (temperature : Quantity array3)
  (args : list (Quantity array3)) (s : Sorted) :
  sort_input pressure temperature = Some s ->
  (2 <= length (levs s))%nat ->
  levels <> [] ->
  concat (concat (theta_cols s)) <> [] ->
  (forall target t, In target levels ->
                    In t (concat (concat (theta_cols s))) -> flt target t) ->
  forallb (fun a => covers (magnitude a) (magnitude temperature)) args = true ->
  exists out,
    isentropic_interpolation levels pressure temperature args = Ok out.
Proof.
  intros Hs Hn Hlv Hth Hbelow Hcov.
  unfold isentropic_interpolation. rewrite Hs.
  destruct (max_nonempty _ Hth) as [theta_max Etheta].
  destruct (max_nonempty _ Hlv) as [level_max Elevel].
  assert (Hp : pres_hPa s <> []).
  { pose proof (sort_input_lengths _ _ _ Hs) as E.
    destruct (pres_hPa s); [simpl in E; lia | discriminate]. }
  destruct (max_nonempty _ Hp) as [pmax Epmax].
  rewrite Etheta, Elevel, Epmax.
  assert (Hcmp : fltb theta_max level_max = false).
  { destruct (max_cases _ _ Etheta) as [-> | Ht]; [reflexivity |].
    destruct (max_cases _ _ Elevel) as [-> | Hl];
      [now destruct theta_max as [| [|] | |] |].
    now apply flt_fltb_false, Hbelow. }
  rewrite Hcmp.
  destruct (Nat.ltb_spec (length (levs s)) 2); [lia |].
  rewrite (sort_input_theta _ _ _ Hs) in *.
  rewrite solve_no_good_cell by (now apply isentropic_cells_below).
  rewrite Hcov. eauto.
Qed.

(** *** A volume of two levels over one grid point *)

Lemma fmul_Fin_Fin_nz (a b : R) :
  a <> 0 -> b <> 0 -> fmul (Fin a) (Fin b) = Fin (a * b).
Proof.
  intros Ha Hb. rewrite fmul_Fin_finite by reflexivity.
  apply signed_nonzero. now apply Rmult_integral_contrapositive.
Qed.

Lemma fpowr_pos (r y : R) : 0 < r -> fpowr (Fin r) y = Fin (Rpower r y).
Proof.
  intros Hr. unfold fpowr. rewrite Reqb_false by lra.
  now rewrite Rltb_false by lra.
Qed.

Lemma Rpower_pos (r y : R) : 0 < Rpower r y.
Proof. unfold Rpower. apply exp_pos. Qed.

Lemma potential_temperature_pos (p t : R) :
  0 < p -> 0 < t ->
  potential_temperature (Fin p) (Fin t)
  = Fin (t / Rpower (p / P0) kappa).
Proof.
  intros Hp Ht. unfold potential_temperature, exner_function.
  assert (H0 : 0 < P0) by (unfold P0; lra).
  rewrite fdiv_Fin_Fin_nz by lra.
  rewrite fpowr_pos by (apply Rdiv_lt_0_compat; assumption).
  pose proof (Rpower_pos (p / P0) kappa).
  apply fdiv_Fin_Fin_nz; lra.
Qed.

Lemma sort_input_two_levels (p1 p2 t1 t2 : R) :
  0 < p2 -> p2 < p1 -> 0 < t1 -> 0 < t2 ->
  sort_input {| magnitude := [Fin p1; Fin p2]; units := pascal |}
             {| magnitude := [[[Fin t1]]; [[Fin t2]]]; units := kelvin |}
  = Some {| pres_hPa := [Fin (p1 * (1 / 100)); Fin (p2 * (1 / 100))];
            sorter := [0; 1]%nat;
            levs := [Fin (p1 * (1 / 100)); Fin (p2 * (1 / 100))];
            tmpk_cols := [[[Fin t1; Fin t2]]];
            theta_cols :=
              [[[Fin (t1 / Rpower (p1 * (1 / 100) / P0) kappa);
                 Fin (t2 / Rpower (p2 * (1 / 100) / P0) kappa)]]] |}.
Proof.
  intros Hp2 Hp Ht1 Ht2.
  unfold sort_input, to, factor.
  cbn [units magnitude Unit_eqb dimensionality Dimension_eqb root_factor map
       map3d map2d length].
  rewrite !fmul_Fin_Fin_nz by lra.
  cbn [broadcast_levels length Nat.eqb].
  assert (Es : argsort [Fin (p1 * (1 / 100)); Fin (p2 * (1 / 100))]
               = [1; 0]%nat).
  { unfold argsort. cbn [length seq fold_right insert_by nth].
    unfold sort_le. cbn [is_nan fleb val].
    now rewrite Rleb_false by lra. }
  rewrite Es. cbn [rev app]. unfold take. cbn [map nth].
  unfold columns. cbn [length seq map nth].
  unfold theta_columns. cbn [map map2].
  rewrite !potential_temperature_pos by lra.
  reflexivity.
Qed.

(** [kappa = 2/7]: bounds on [a ** kappa] from bounds on seventh powers. *)
Lemma Rpower_kappa_pow7 (a : R) : 0 < a -> Rpower a kappa ^ 7 = a ^ 2.
Proof.
  intros Ha. pose proof (Rpower_pos a kappa) as Hy.
  rewrite <- (Rpower_pow 7) by assumption.
  rewrite Rpower_mult.
  replace (kappa * INR 7) with (INR 2) by (unfold kappa; simpl; lra).
  now apply Rpower_pow.
Qed.

Lemma Rpower_kappa_lt (a b : R) :
  0 < a -> 0 < b -> a ^ 2 < b ^ 7 -> Rpower a kappa < b.
Proof.
  intros Ha Hb H. pose proof (Rpower_pos a kappa) as Hy.
  destruct (Rlt_le_dec (Rpower a kappa) b) as [Hlt | Hle]; [assumption |].
  exfalso. assert (b ^ 7 <= Rpower a kappa ^ 7) by (apply pow_incr; lra).
  rewrite Rpower_kappa_pow7 in * by assumption. lra.
Qed.

Lemma Rpower_kappa_gt (a b : R) :
  0 < a -> 0 < b -> b ^ 7 < a ^ 2 -> b < Rpower a kappa.
Proof.
  intros Ha Hb H. pose proof (Rpower_pos a kappa) as Hy.
  destruct (Rlt_le_dec b (Rpower a kappa)) as [Hlt | Hle]; [assumption |].
  exfalso. assert (Rpower a kappa ^ 7 <= b ^ 7) by (apply pow_incr; lra).
  rewrite Rpower_kappa_pow7 in * by assumption. lra.
Qed.

Lemma div_gt (t x b c : R) :
  0 < t -> 0 < x -> 0 < b -> x < b -> c <= t / b -> c < t / x.
Proof.
  intros Ht Hx Hb Hxb Hc.
  assert (t / b < t / x); [| lra].
  unfold Rdiv. apply Rmult_lt_compat_l; [assumption |].
  apply Rinv_lt_contravar; [apply Rmult_lt_0_compat |]; assumption.
Qed.

Lemma div_lt (t x b c : R) :
  0 < t -> 0 < x -> 0 < b -> b < x -> t / b <= c -> t / x < c.
Proof.
  intros Ht Hx Hb Hxb Hc.
  assert (t / x < t / b); [| lra].
  unfold Rdiv. apply Rmult_lt_compat_l; [assumption |].
  apply Rinv_lt_contravar; [apply Rmult_lt_0_compat |]; assumption.
Qed.

(** The requested levels of the notebook: 280 K to 330 K. *)
Lemma isentlevs_bounds (target : float) :
  In target Overlay.isentlevs ->
  exists r : R, target = Fin r /\ 280 <= r <= 330.
Proof.
  unfold Overlay.isentlevs. rewrite in_map_iff.
  intros (k & <- & Hk). apply in_seq in Hk.
  eexists. split; [reflexivity |].
  split.
  - apply (IZR_le 280). lia.
  - apply (IZR_le _ 330). lia.
Qed.

Lemma isentlevs_ascending : ascending Overlay.isentlevs.
Proof.
  intros i j Hij. unfold Overlay.isentlevs in *.
  rewrite length_map, length_seq in Hij.
  rewrite !nth_map_seq by lia. cbn [fleb val].
  apply Rleb_true. apply IZR_le. lia.
Qed.

Lemma fmax_Fin_lt (a b : R) : a < b -> fmax (Fin a) (Fin b) = Fin b.
Proof. intros H. unfold fmax. cbn [fltb val]. now rewrite Rltb_true. Qed.

Lemma max_isentlevs : max Overlay.isentlevs = Some (Fin 330).
Proof.
  unfold Overlay.isentlevs. cbn [seq map max fold_left].
  repeat match goal with
         | |- context [IZR ?z] =>
             let z' := eval vm_compute in z in
             progress change (IZR z) with (IZR z')
         end.
  repeat rewrite fmax_Fin_lt by lra.
  reflexivity.
Qed.

(** The call raises when a requested level exceeds every potential
    temperature of the volume. *)
Lemma isentropic_interpolation_out_of_bounds (levels : list float)
  (pressure : Quantity (list float)) (temperature : Quantity array3)
  (args : list (Quantity array3)) (s : Sorted)
  (theta_max level_max : float) :
  sort_input pressure temperature = Some s ->
  max (concat (concat (theta_cols s))) = Some theta_max ->
  max levels = Some level_max ->
  flt theta_max level_max ->
  isentropic_interpolation levels pressure temperature args
  = Raise ValueError.
Proof.
  intros Hs Ht Hl Hlt.
  unfold isentropic_interpolation. rewrite Hs, Ht, Hl.
  destruct (max (pres_hPa s)); [| reflexivity].
  now rewrite (flt_fltb_true _ _ Hlt).
Qed.

Lemma troposphere_thetas :
  exists ta tb : R,
    sort_input (Overlay.pres Samples.troposphere)
               (Overlay.tmpk Samples.troposphere)
    = Some {| pres_hPa := [Fin (100000 * (1 / 100)); Fin (50000 * (1 / 100))];
              sorter := [0; 1]%nat;
              levs := [Fin (100000 * (1 / 100)); Fin (50000 * (1 / 100))];
              tmpk_cols := [[[Fin 288; Fin 252]]];
              theta_cols := [[[Fin ta; Fin tb]]] |}
    /\ ta < 330 /\ tb < 330.
Proof.
  do 2 eexists. split.
  - apply (sort_input_two_levels 100000 50000 288 252); lra.
  - unfold P0. split.
    + apply div_lt with (b := 9 / 10); try lra; [apply Rpower_pos |].
      apply Rpower_kappa_gt; lra.
    + apply div_lt with (b := 42 / 55); try lra; [apply Rpower_pos |].
      apply Rpower_kappa_gt; lra.
Qed.

(** C3, as the claim states it, fails: on the two-level analysis
    [troposphere] the 26 requested levels reach 330 K, above the potential
    temperature of the whole volume; the claim promises 26 surfaces holding
    the undefined marker there, but the call raises [ValueError] and no
    surface is delivered. *)
Lemma isentropic_interpolation_raises :
  length Overlay.isentlevs = 26%nat /\
  isentropic_interpolation Overlay.isentlevs
    (Overlay.pres Samples.troposphere) (Overlay.tmpk Samples.troposphere)
    [Overlay.uwnd Samples.troposphere; Overlay.vwnd Samples.troposphere]
  = Raise ValueError /\
  Overlay.cell35 Samples.troposphere = Raise ValueError.
Proof.
  split; [reflexivity |].
  assert (E : isentropic_interpolation Overlay.isentlevs
                (Overlay.pres Samples.troposphere)
                (Overlay.tmpk Samples.troposphere)
                [Overlay.uwnd Samples.troposphere;
                 Overlay.vwnd Samples.troposphere]
              = Raise ValueError).
  { destruct troposphere_thetas as (ta & tb & Hs & Ha & Hb).
    eapply isentropic_interpolation_out_of_bounds;
      [exact Hs | reflexivity | apply max_isentlevs |].
    cbn [theta_cols concat app fold_left].
    unfold fmax. cbn [fltb val].
    destruct (Rltb ta tb); cbn [flt val]; lra. }
  split; [exact E |].
  unfold Overlay.cell35. now rewrite E.
Qed.

Lemma stratosphere_thetas :
  exists ta tb : R,
    sort_input (Overlay.pres Samples.stratosphere)
               (Overlay.tmpk Samples.stratosphere)
    = Some {| pres_hPa := [Fin (10000 * (1 / 100)); Fin (5000 * (1 / 100))];
              sorter := [0; 1]%nat;
              levs := [Fin (10000 * (1 / 100)); Fin (5000 * (1 / 100))];
              tmpk_cols := [[[Fin 210; Fin 215]]];
              theta_cols := [[[Fin ta; Fin tb]]] |}
    /\ 330 < ta /\ 330 < tb.
Proof.
  do 2 eexists. split.
  - apply (sort_input_two_levels 10000 5000 210 215); lra.
  - unfold P0. split.
    + apply div_gt with (b := 7 / 11); try lra; [apply Rpower_pos |].
      apply Rpower_kappa_lt; lra.
    + apply div_gt with (b := 7 / 11); try lra; [apply Rpower_pos |].
      apply Rpower_kappa_lt; lra.
Qed.

Lemma stratosphere_returns :
  exists out,
    isentropic_interpolation Overlay.isentlevs
      (Overlay.pres Samples.stratosphere) (Overlay.tmpk Samples.stratosphere)
      [Overlay.uwnd Samples.stratosphere; Overlay.vwnd Samples.stratosphere]
    = Ok out.
Proof.
  destruct stratosphere_thetas as (ta & tb & Hs & Ha & Hb).
  eapply isentropic_interpolation_below_data; [exact Hs | ..].
  - cbn. lia.
  - discriminate.
  - discriminate.
  - intros target t Htarget Ht.
    destruct (isentlevs_bounds _ Htarget) as (r & -> & Hr).
    cbn in Ht. destruct Ht as [<- | [<- | []]]; cbn; lra.
  - reflexivity.
Qed.

Lemma isentropic_interpolation_surfaces_witness :
  exists (out : list (Quantity array3)) (prs : Quantity array3)
         (others : list (Quantity array3)),
    isentropic_interpolation Overlay.isentlevs
      (Overlay.pres Samples.stratosphere) (Overlay.tmpk Samples.stratosphere)
      [Overlay.uwnd Samples.stratosphere; Overlay.vwnd Samples.stratosphere]
    = Ok out /\
    out = prs :: others /\
    units prs = hectopascal /\
    length (magnitude prs) = 26%nat /\
    length others = 2%nat /\
    cell3 (magnitude prs) 0 0 0 = Some NaN /\
    Forall (fun w => cell3 (magnitude w) 0 0 0 = Some NaN) others.
Proof.
  destruct stratosphere_returns as [out Hout].
  destruct stratosphere_thetas as (ta & tb & Hs & Ha & Hb).
  destruct (isentropic_interpolation_surfaces Overlay.isentlevs
              (Overlay.pres Samples.stratosphere)
              (Overlay.tmpk Samples.stratosphere)
              [Overlay.uwnd Samples.stratosphere;
               Overlay.vwnd Samples.stratosphere] _ Hs) as [_ [_ H]].
  destruct (H out Hout) as (prs & others & E & Hu & Hl & Ho & _ & Hnan).
  exists out, prs, others.
  repeat (split; [assumption |]).
  destruct (Hnan 0%nat 0%nat 0%nat (Fin 280) [Fin ta; Fin tb]) as [Hp Hw].
  - reflexivity.
  - reflexivity.
  - left. intros t [<- | [<- | []]]; cbn; lra.
  - split; [exact Hp | exact (Hw isentlevs_ascending)].
Defined.

End Isentropic.

(** ** The overlay cell: units of the delivered surfaces *)

Section OverlayUnits.
Import NumPy SciPy Pint MetPy Overlay.

Lemma cell34_units (ds : GFS) (f : Fields) :
  cell34 ds = Some f ->
  units (pres f) = pascal /\ units (tmpk f) = kelvin /\
  units (uwnd f) = meter_per_second /\ units (vwnd f) = meter_per_second.
Proof.
  unfold cell34. intros H.
  destruct (subset (Temperature_isobaric ds)); [| discriminate].
  destruct (subset (u_component_of_wind_isobaric ds)); [| discriminate].
  destruct (subset (v_component_of_wind_isobaric ds)); [| discriminate].
  injection H as <-. repeat split.
Qed.

(** The three smoothing calls of the cell are the same routine with the
    same arguments [sigma = 1.0], hence the same kernel and edge mode. *)
Lemma cell34_smooth (ds : GFS) (f : Fields) :
  cell34 ds = Some f ->
  exists t u v : array3,
    subset (Temperature_isobaric ds) = Some t /\
    subset (u_component_of_wind_isobaric ds) = Some u /\
    subset (v_component_of_wind_isobaric ds) = Some v /\
    magnitude (tmpk f) = gaussian_filter t 1 /\
    magnitude (uwnd f) = gaussian_filter u 1 /\
    magnitude (vwnd f) = gaussian_filter v 1.
Proof.
  unfold cell34. intros H.
  destruct (subset (Temperature_isobaric ds)) as [t |]; [| discriminate].
  destruct (subset (u_component_of_wind_isobaric ds)) as [u |];
    [| discriminate].
  destruct (subset (v_component_of_wind_isobaric ds)) as [v |];
    [| discriminate].
  injection H as <-. exists t, u, v. repeat split.
Qed.

(** The form of a returned result: the pressure in hPa, then every extra
    field in its own units. *)
Lemma isentropic_interpolation_Ok (levels : list float)
  (pressure : Quantity (list float)) (temperature : Quantity array3)
  (args : list (Quantity array3)) (out : list (Quantity array3)) :
  isentropic_interpolation levels pressure temperature args = Ok out ->
  exists (prs : Quantity array3) (others : list (Quantity array3)),
    out = prs :: others /\ units prs = hectopascal /\
    Forall2 (fun arr w => units w = units arr) args others.
Proof.
  unfold isentropic_interpolation.
  destruct (sort_input pressure temperature) as [s |]; [| discriminate].
  destruct (max (concat (concat (theta_cols s)))); [| discriminate].
  destruct (max levels); [| discriminate].
  destruct (max (pres_hPa s)); [| discriminate].
  destruct (fltb _ _); [discriminate |].
  destruct (_ <? 2)%nat; [discriminate |].
  destruct (solve _); [| discriminate].
  destruct (forallb _ args); [| discriminate].
  intros H. injection H as <-.
  eexists. eexists. split; [reflexivity |]. split; [reflexivity |].
  induction args as [| arr args IH]; constructor; [reflexivity | exact IH].
Qed.

Lemma to_knot (q : Quantity array3) :
  units q = meter_per_second ->
  to map3d q knot
  = Some {| magnitude := to_knots (magnitude q); units := knot |}.
Proof. intros H. unfold to, factor. rewrite H. reflexivity. Qed.

(** C10, as the code behaves.  When the interpolation cell returns, the
    names [isentprs], [isentu], [isentv] and the elements of [isent_anal]
    refer to the same three objects; the two wind objects have been
    converted in place from m/s to knots (magnitudes multiplied by
    3600/1852), and the pressure surfaces are in hPa, not in the Pa of the
    input level axis. *)
Theorem cell35_units (f : Fields) (st : State)
  (Hp : units (pres f) = pascal)
  (Hu : units (uwnd f) = meter_per_second)
  (Hv : units (vwnd f) = meter_per_second)
  (Hrun : cell35 f = Ok st) :
  exists prs u v : Quantity array3,
    isentropic_interpolation isentlevs (pres f) (tmpk f) [uwnd f; vwnd f]
    = Ok [prs; u; v] /\
    isent_anal st = [isentprs st; isentu st; isentv st] /\
    deref st (isentprs st) = Some prs /\
    units prs = hectopascal /\
    units prs <> units (pres f) /\
    units u = meter_per_second /\
    deref st (isentu st)
    = Some {| magnitude := to_knots (magnitude u); units := knot |} /\
    units v = meter_per_second /\
    deref st (isentv st)
    = Some {| magnitude := to_knots (magnitude v); units := knot |}.
Proof.
  unfold cell35 in Hrun.
  destruct (isentropic_interpolation isentlevs (pres f) (tmpk f)
              [uwnd f; vwnd f]) as [ret | e] eqn:E; [| discriminate].
  destruct (isentropic_interpolation_Ok _ _ _ _ _ E)
    as (prs & others & -> & Hprs & Hothers).
  inversion Hothers as [| a u l1 others' Hu' Hrest]; subst.
  inversion Hrest as [| a v l1 others'' Hv' Hrest']; subst.
  inversion Hrest'; subst.
  rewrite Hu in Hu'. rewrite Hv in Hv'.
  exists prs, u, v. split; [reflexivity |].
  cbn [length seq] in Hrun. unfold ito in Hrun.
  cbn [nth_error] in Hrun. rewrite (to_knot u Hu') in Hrun.
  cbn [update nth_error] in Hrun. rewrite (to_knot v Hv') in Hrun.
  cbn [update] in Hrun. injection Hrun as <-.
  unfold deref. cbn.
  repeat split; try assumption.
  rewrite Hprs, Hp. discriminate.
Qed.

Lemma stratosphere_cell35 : exists st, cell35 Samples.stratosphere = Ok st.
Proof.
  destruct stratosphere_returns as [out Hout].
  destruct (isentropic_interpolation_Ok _ _ _ _ _ Hout)
    as (prs & others & -> & Hprs & Hothers).
  inversion Hothers as [| a u l1 others' Hu' Hrest]; subst.
  inversion Hrest as [| a v l1 others'' Hv' Hrest']; subst.
  inversion Hrest'; subst.
  unfold cell35. rewrite Hout. cbn [length seq]. unfold ito.
  cbn [nth_error]. rewrite (to_knot u Hu').
  cbn [update nth_error]. rewrite (to_knot v Hv').
  eauto.
Qed.

Lemma cell35_units_witness :
  exists (st : State) (prs u : Quantity array3),
    cell35 Samples.stratosphere = Ok st /\
    deref st (isentprs st) = Some prs /\
    units prs = hectopascal /\
    deref st (isentu st)
    = Some {| magnitude := to_knots (magnitude u); units := knot |}.
Proof.
  destruct stratosphere_cell35 as [st Hst].
  destruct (cell35_units Samples.stratosphere st eq_refl eq_refl eq_refl Hst)
    as (prs & u & v & _ & _ & Hd & Hh & _ & _ & Hdu & _).
  exists st, prs, u. repeat split; assumption.
Defined.

(** C10, as the claim states it, fails on its pressure part: the cell
    returns on the analysis [stratosphere], whose level axis is in Pa, and
    the pressure surfaces it delivers are in hPa. *)
Lemma isentprs_not_in_input_units :
  exists (st : State) (prs : Quantity array3),
    cell35 Samples.stratosphere = Ok st /\
    deref st (isentprs st) = Some prs /\
    units (pres Samples.stratosphere) = pascal /\
    units prs = hectopascal /\
    units prs <> units (pres Samples.stratosphere).
Proof.
  destruct stratosphere_cell35 as [st Hst0].
  exists st. pose proof Hst0 as Hst. unfold cell35 in Hst.
  destruct (isentropic_interpolation isentlevs _ _ _) as [ret | e] eqn:E;
    [| discriminate].
  destruct (isentropic_interpolation_Ok _ _ _ _ _ E)
    as (prs & others & -> & Hprs & Hothers).
  exists prs.
  destruct others as [| u [| v [| x others]]]; try discriminate.
  cbn [length seq] in Hst.
  destruct (ito [prs; u; v] 1 knot) as [h1 |] eqn:E1; [| discriminate].
  destruct (ito h1 2 knot) as [h2 |] eqn:E2; [| discriminate].
  injection Hst as <-. unfold deref. cbn [objects isentprs].
  unfold ito in E1. cbn [nth_error] in E1.
  destruct (to map3d u knot); [| discriminate]. injection E1 as <-.
  unfold ito in E2. cbn [update nth_error] in E2.
  destruct (to map3d v knot); [| discriminate]. injection E2 as <-.
  split; [exact Hst0 |]. cbn.
  repeat split; try assumption.
  rewrite Hprs. discriminate.
Qed.

End OverlayUnits.

(** * Further properties of the notebook's cells *)

(** ** The water-vapour conversion and the emitted energy *)

Section RadianceMore.
Import NumPy Notebook.

(** The scale and offset corrections keep NaN where the Planck inversion
    has it, and create none. *)
Lemma ir_correction_nan (bc1 bc2 : R) (t : float) :
  bc2 <> 0 ->
  is_nan (fadd (fmul (Fin bc2) t) (Fin bc1)) = is_nan t.
Proof.
  intros Hb. destruct t as [| s | | r].
  - reflexivity.
  - simpl. now rewrite Reqb_false.
  - rewrite fmul_Fin_finite by reflexivity.
    now rewrite fadd_finite_Fin by apply is_finite_signed.
  - rewrite fmul_Fin_finite by reflexivity.
    now rewrite fadd_finite_Fin by apply is_finite_signed.
Qed.

Lemma wv_correction_nan (bc1 bc2 : R) (t : float) :
  bc2 <> 0 ->
  is_nan (fdiv (fsub t (Fin bc1)) (Fin bc2)) = is_nan t.
Proof.
  intros Hb. destruct t as [| s | | r].
  - reflexivity.
  - unfold fsub, fneg. destruct (Reqb bc1 0); reflexivity.
  - destruct (fsub_finite_Fin NZero bc1 eq_refl) as [Hf _].
    rewrite fdiv_finite_Fin by assumption.
    pose proof (is_finite_signed
                  (xorb (sign (fsub NZero (Fin bc1))) (Rltb bc2 0))
                  (val (fsub NZero (Fin bc1)) / bc2)) as H.
    destruct (signed _ _); simpl in *; congruence.
  - rewrite fsub_Fin_Fin. rewrite fdiv_finite_Fin by (reflexivity || assumption).
    pose proof (is_finite_signed
                  (xorb (sign (Fin (r - bc1))) (Rltb bc2 0))
                  (val (Fin (r - bc1)) / bc2)) as H.
    destruct (signed _ _); simpl in *; congruence.
Qed.

Lemma wv_BT_cell_nan (fk1 fk2 bc1 bc2 : R) (L : float) :
  bc2 <> 0 ->
  is_nan (wv_BT_cell (Fin fk1) (Fin fk2) (Fin bc1) (Fin bc2) L)
  = is_nan (ir_BT_cell (Fin fk1) (Fin fk2) (Fin bc1) (Fin bc2) L).
Proof.
  intros Hb. unfold wv_BT_cell, ir_BT_cell.
  now rewrite wv_correction_nan, ir_correction_nan.
Qed.

Lemma T_cell_zero (fk1 fk2 : R) :
  0 < fk1 -> 0 < fk2 ->
  fdiv (Fin fk2) (flog (fadd (fdiv (Fin fk1) (Fin 0)) (Fin 1))) = Fin 0.
Proof.
  intros H1 H2.
  assert (E1 : fdiv (Fin fk1) (Fin 0) = Inf false).
  { simpl. rewrite (Reqb_true 0 0 eq_refl), (Reqb_false fk1 0) by lra.
    now rewrite (Rltb_false fk1 0), (Rltb_false 0 0) by lra. }
  rewrite E1. simpl. now rewrite (Rltb_false fk2 0) by lra.
Qed.

Lemma wv_BT_cell_zero (fk1 fk2 bc1 bc2 : R) :
  0 < fk1 -> 0 < fk2 -> bc2 <> 0 ->
  let w := wv_BT_cell (Fin fk1) (Fin fk2) (Fin bc1) (Fin bc2) (Fin 0) in
  is_finite w = true /\ val w = - bc1 / bc2.
Proof.
  intros H1 H2 H3 w. unfold w, wv_BT_cell.
  rewrite T_cell_zero by assumption.
  rewrite fsub_Fin_Fin. rewrite fdiv_finite_Fin by (reflexivity || assumption).
  split; [apply is_finite_signed |].
  rewrite val_signed. simpl. lra.
Qed.

Lemma flt_finite (x y : float) :
  is_finite x = true -> is_finite y = true -> (flt x y <-> val x < val y).
Proof.
  destruct x, y; simpl; try discriminate; intros _ _; reflexivity.
Qed.

Lemma T_real_increasing (fk1 fk2 L1 L2 : R) :
  0 < fk1 -> 0 < fk2 -> 0 < L1 -> L1 < L2 ->
  fk2 / ln (fk1 / L1 + 1) < fk2 / ln (fk1 / L2 + 1).
Proof.
  intros H1 H2 HL1 HL.
  pose proof (planck_ln_pos fk1 L2 H1 ltac:(lra)) as Hln2.
  assert (Hq : fk1 / L2 + 1 < fk1 / L1 + 1).
  { apply Rplus_lt_compat_r. unfold Rdiv. apply Rmult_lt_compat_l; [assumption |].
    apply Rinv_lt_contravar; [apply Rmult_lt_0_compat; lra | assumption]. }
  assert (Hln : ln (fk1 / L2 + 1) < ln (fk1 / L1 + 1)).
  { apply ln_increasing; [| assumption].
    pose proof (planck_arg_gt1 fk1 L2 H1 ltac:(lra)). lra. }
  unfold Rdiv. apply Rmult_lt_compat_l; [assumption |].
  apply Rinv_lt_contravar; [apply Rmult_lt_0_compat; lra | assumption].
Qed.

(** X1.  The water-vapour variant marks exactly the cells the infrared one
    marks: with real constants [fk1, fk2, bc2 > 0] a cell of [wv_BT] is NaN
    exactly when its radiance is NaN, the negative zero, or strictly
    between [-fk1] and [0]; at a radiance of exactly [0] the Planck
    temperature is [0] and the cell holds [(0 - bc1) / bc2], which is not
    NaN. *)
Theorem wv_BT_nan_cells (ds : Dataset) (i j : nat) (L : float)
  (fk1 fk2 bc1 bc2 : R)
  (HL : cell (Rad ds) i j = Some L)
  (E1 : planck_fk1 ds = Fin fk1) (E2 : planck_fk2 ds = Fin fk2)
  (E3 : planck_bc1 ds = Fin bc1) (E4 : planck_bc2 ds = Fin bc2)
  (H1 : 0 < fk1) (H2 : 0 < fk2) (H3 : 0 < bc2) :
  exists w bt : float,
    cell (wv_BT ds) i j = Some w /\
    cell (ir_BT ds) i j = Some bt /\
    is_nan w = is_nan bt /\
    (is_nan w = true
     <-> (L = NaN \/ L = NZero \/ exists l, L = Fin l /\ - fk1 < l < 0)) /\
    (L = Fin 0 ->
     w = fdiv (fsub (Fin 0) (Fin bc1)) (Fin bc2) /\ is_nan w = false).
Proof.
  exists (wv_BT_cell (Fin fk1) (Fin fk2) (Fin bc1) (Fin bc2) L),
         (ir_BT_cell (Fin fk1) (Fin fk2) (Fin bc1) (Fin bc2) L).
  assert (Hb : bc2 <> 0) by lra.
  split; [| split; [| split; [| split]]].
  - rewrite cell_wv_BT, HL, E1, E2, E3, E4. reflexivity.
  - rewrite cell_ir_BT, HL, E1, E2, E3, E4. reflexivity.
  - now apply wv_BT_cell_nan.
  - rewrite wv_BT_cell_nan by assumption. now apply ir_BT_cell_nan_iff.
  - intros ->.
    destruct (wv_BT_cell_zero fk1 fk2 bc1 bc2 H1 H2 Hb) as [F _].
    split.
    + unfold wv_BT_cell. now rewrite T_cell_zero.
    + destruct (wv_BT_cell _ _ _ _ _); try discriminate; reflexivity.
Qed.

Lemma wv_BT_nan_cells_witness :
  exists w bt : float,
    cell (wv_BT Samples.ds0) 0 1 = Some w /\
    cell (ir_BT Samples.ds0) 0 1 = Some bt /\
    is_nan w = is_nan bt /\
    (is_nan w = true
     <-> (Fin 0 = NaN \/ Fin 0 = NZero
          \/ exists l, Fin 0 = Fin l /\ - 2 < l < 0)) /\
    (Fin 0 = Fin 0 ->
     w = fdiv (fsub (Fin 0) (Fin (1 / 2))) (Fin (99 / 100)) /\
     is_nan w = false).
Proof.
  apply (wv_BT_nan_cells Samples.ds0 0 1 (Fin 0) 2 3700 (1 / 2) (99 / 100));
    try reflexivity; lra.
Defined.

Lemma fleb_finite (x y : float) :
  is_finite x = true -> is_finite y = true -> val x <= val y ->
  fleb x y = true.
Proof.
  destruct x, y; simpl; try discriminate; intros _ _ H; now apply Rleb_true.
Qed.

(** X2.  With [fk1, fk2, bc2 > 0], of two cells with positive radiances
    [L1 <= L2] the second has a water-vapour brightness temperature that
    is not smaller. *)
Theorem wv_BT_increasing (ds : Dataset) (i1 j1 i2 j2 : nat)
  (fk1 fk2 bc1 bc2 L1 L2 : R)
  (Hc1 : cell (Rad ds) i1 j1 = Some (Fin L1))
  (Hc2 : cell (Rad ds) i2 j2 = Some (Fin L2))
  (E1 : planck_fk1 ds = Fin fk1) (E2 : planck_fk2 ds = Fin fk2)
  (E3 : planck_bc1 ds = Fin bc1) (E4 : planck_bc2 ds = Fin bc2)
  (H1 : 0 < fk1) (H2 : 0 < fk2) (H3 : 0 < bc2)
  (HL1 : 0 < L1) (HL : L1 <= L2) :
  exists w1 w2 : float,
    cell (wv_BT ds) i1 j1 = Some w1 /\
    cell (wv_BT ds) i2 j2 = Some w2 /\
    fleb w1 w2 = true.
Proof.
  exists (wv_BT_cell (Fin fk1) (Fin fk2) (Fin bc1) (Fin bc2) (Fin L1)),
         (wv_BT_cell (Fin fk1) (Fin fk2) (Fin bc1) (Fin bc2) (Fin L2)).
  split; [| split].
  - rewrite cell_wv_BT, Hc1, E1, E2, E3, E4. reflexivity.
  - rewrite cell_wv_BT, Hc2, E1, E2, E3, E4. reflexivity.
  - destruct (wv_BT_cell_real fk1 fk2 bc1 bc2 L1) as [F1 V1]; try lra.
    destruct (wv_BT_cell_real fk1 fk2 bc1 bc2 L2) as [F2 V2]; try lra.
    apply fleb_finite; try assumption. rewrite V1, V2.
    destruct HL as [Hlt | <-]; [| lra].
    pose proof (T_real_increasing fk1 fk2 L1 L2 H1 H2 HL1 Hlt) as Ht.
    left. unfold Rdiv at 1 3. apply Rmult_lt_compat_r; [| lra].
    now apply Rinv_0_lt_compat.
Qed.

Lemma wv_BT_increasing_witness :
  exists w1 w2 : float,
    cell (wv_BT Samples.ds1) 0 0 = Some w1 /\
    cell (wv_BT Samples.ds1) 0 1 = Some w2 /\
    fleb w1 w2 = true.
Proof.
  apply (wv_BT_increasing Samples.ds1 0 0 0 1 2 3700 (1 / 2) (99 / 100) 5 6);
    try reflexivity; lra.
Defined.

(** With the scale [1] and the offset [0] both corrections return the
    Planck temperature they are given: the same NaN, the same infinity,
    the same number (the two zeros compare equal). *)
Lemma corrections_identity (t : float) :
  let a := fadd (fmul (Fin 1) t) (Fin 0) in
  let w := fdiv (fsub t (Fin 0)) (Fin 1) in
  is_nan a = is_nan w /\ (is_nan t = false -> feqb a w = true).
Proof.
  assert (E0 : fneg (Fin 0) = NZero) by (simpl; now rewrite Reqb_true).
  assert (Z1 : Reqb 1 0 = false) by (apply Reqb_false; lra).
  assert (S1 : Rltb 1 0 = false) by (apply Rltb_false; lra).
  destruct t as [| s | | r]; unfold fsub; rewrite E0.
  - split; [reflexivity | discriminate].
  - simpl. rewrite Z1, S1. simpl. rewrite Bool.xorb_false_r.
    split; [reflexivity | intros _; apply Bool.eqb_reflx].
  - rewrite fmul_Fin_finite by reflexivity.
    rewrite fadd_finite_Fin by apply is_finite_signed.
    rewrite val_signed.
    change (fadd NZero NZero) with NZero.
    change (fdiv NZero (Fin 1))
      with (if Reqb 1 0 then NaN
            else signed (xorb true (Rltb 1 0)) (0 / 1)).
    rewrite Z1.
    pose proof (is_finite_signed (xorb true (Rltb 1 0)) (0 / 1)) as F.
    pose proof (val_signed (xorb true (Rltb 1 0)) (0 / 1)) as V.
    destruct (signed _ _); try discriminate;
      (split; [reflexivity | intros _; simpl in *; apply Reqb_true; lra]).
  - rewrite fmul_Fin_finite by reflexivity.
    rewrite fadd_finite_Fin by apply is_finite_signed.
    rewrite val_signed.
    change (fadd (Fin r) NZero) with (Fin (r + 0)).
    rewrite fdiv_Fin_Fin by lra.
    pose proof (is_finite_signed (xorb (Rltb (r + 0) 0) (Rltb 1 0))
                  ((r + 0) / 1)) as F.
    pose proof (val_signed (xorb (Rltb (r + 0) 0) (Rltb 1 0))
                  ((r + 0) / 1)) as V.
    destruct (signed _ _); try discriminate;
      (split; [reflexivity | intros _; simpl in *; apply Reqb_true; lra]).
Qed.

(** X4.  With the scale [bc2 = 1] and the offset [bc1 = 0] the two
    variants agree on every cell, whatever its radiance: both are NaN or
    neither is, and when they are not NaN they compare equal. *)
Theorem BT_variants_agree (ds : Dataset) (i j : nat) (L : float)
  (HL : cell (Rad ds) i j = Some L)
  (E3 : planck_bc1 ds = Fin 0) (E4 : planck_bc2 ds = Fin 1) :
  exists bt w : float,
    cell (ir_BT ds) i j = Some bt /\
    cell (wv_BT ds) i j = Some w /\
    is_nan bt = is_nan w /\
    (is_nan bt = false -> feqb bt w = true).
Proof.
  exists (ir_BT_cell (planck_fk1 ds) (planck_fk2 ds) (Fin 0) (Fin 1) L),
         (wv_BT_cell (planck_fk1 ds) (planck_fk2 ds) (Fin 0) (Fin 1) L).
  split; [| split].
  - rewrite cell_ir_BT, HL, E3, E4. reflexivity.
  - rewrite cell_wv_BT, HL, E3, E4. reflexivity.
  - unfold ir_BT_cell, wv_BT_cell.
    set (t := fdiv (planck_fk2 ds) _).
    destruct (corrections_identity t) as [Hn He].
    split; [exact Hn |].
    intros Ha. apply He.
    destruct t; try reflexivity. discriminate Ha.
Qed.

Lemma BT_variants_agree_witness :
  exists bt w : float,
    cell (ir_BT Samples.ds2) 0 0 = Some bt /\
    cell (wv_BT Samples.ds2) 0 0 = Some w /\
    is_nan bt = is_nan w /\
    (is_nan bt = false -> feqb bt w = true).
Proof.
  apply (BT_variants_agree Samples.ds2 0 0 (Fin 5)); reflexivity.
Defined.

Lemma fold_left_fmin_In (l : list float) (x : float) :
  fold_left Xarray.fmin l x = x \/ In (fold_left Xarray.fmin l x) l.
Proof.
  revert x. induction l as [| y l IH]; intros x; simpl; [now left |].
  destruct (IH (Xarray.fmin x y)) as [H | H]; [| now right; right].
  rewrite H. unfold Xarray.fmin. destruct (fltb y x); [right; now left | now left].
Qed.

Lemma nanmin_In (l : list float) (m : float) :
  Xarray.nanmin l = Some m -> m = NaN \/ In m l.
Proof.
  destruct l as [| a l]; [discriminate |]. unfold Xarray.nanmin.
  destruct (filter _ (a :: l)) as [| x l'] eqn:F.
  - intros [= <-]. now left.
  - intros [= <-]. right.
    assert (Hin : forall v, In v (x :: l') -> In v (a :: l)).
    { intros v Hv. rewrite <- F in Hv. now apply filter_In in Hv. }
    apply Hin. destruct (fold_left_fmin_In l' x) as [H | H].
    + rewrite H. now left.
    + now right.
Qed.

(** X5.  The emitted energy is never negative, whatever the temperature
    field holds (negative, infinite or missing temperatures included), and
    so the printed minimum [E.min()] is never negative either. *)
Theorem E_never_negative (bt : array2) :
  (forall i j e, cell (E bt) i j = Some e -> ~ flt e (Fin 0)) /\
  (forall m, Xarray.min (E bt) = Some m -> ~ flt m (Fin 0)).
Proof.
  split.
  - intros i j e. rewrite cell_E. destruct (cell bt i j) as [t |]; [| discriminate].
    intros [= <-]. apply E_cell_not_negative.
  - intros m Hm. apply nanmin_In in Hm. destruct Hm as [-> | Hin].
    + simpl. tauto.
    + apply in_concat in Hin. destruct Hin as [row [Hrow Hin]].
      unfold E, scalar_mul, pow, map2d in Hrow. rewrite map_map in Hrow.
      apply in_map_iff in Hrow. destruct Hrow as [r0 [<- _]].
      rewrite map_map in Hin. apply in_map_iff in Hin.
      destruct Hin as [t [<- _]]. apply E_cell_not_negative.
Qed.

Lemma vis_cell_real (l k : R) :
  0 <= l * k ->
  is_finite (fsqrt (fmul (Fin l) (Fin k))) = true /\
  val (fsqrt (fmul (Fin l) (Fin k))) = R_sqrt.sqrt (l * k).
Proof.
  intros Hp. rewrite fmul_Fin_finite by reflexivity. simpl val.
  now apply fsqrt_signed_nonneg.
Qed.

(** X8.  With [kappa0 > 0] the reflectance does not decrease with the
    radiance over the radiances that are not negative: of two cells with
    [0 <= l1 <= l2] the second has a reflectance that is not smaller. *)
Theorem vis_increasing (ds : Dataset) (i1 j1 i2 j2 : nat) (l1 l2 k : R)
  (Hc1 : cell (Rad ds) i1 j1 = Some (Fin l1))
  (Hc2 : cell (Rad ds) i2 j2 = Some (Fin l2))
  (Ek : kappa0 ds = Fin k)
  (Hk : 0 < k) (Hl1 : 0 <= l1) (Hl : l1 <= l2) :
  exists v1 v2 : float,
    cell (vis ds) i1 j1 = Some v1 /\
    cell (vis ds) i2 j2 = Some v2 /\
    fleb v1 v2 = true.
Proof.
  exists (fsqrt (fmul (Fin l1) (Fin k))), (fsqrt (fmul (Fin l2) (Fin k))).
  assert (Hp1 : 0 <= l1 * k) by nra.
  assert (Hp2 : l1 * k <= l2 * k) by nra.
  destruct (vis_cell_real l1 k Hp1) as [F1 V1].
  destruct (vis_cell_real l2 k ltac:(lra)) as [F2 V2].
  split; [| split].
  - rewrite cell_vis, Hc1, Ek. reflexivity.
  - rewrite cell_vis, Hc2, Ek. reflexivity.
  - apply fleb_finite; try assumption. rewrite V1, V2.
    now apply sqrt_le_1_alt.
Qed.

Lemma vis_increasing_witness :
  exists v1 v2 : float,
    cell (vis Samples.ds1) 0 0 = Some v1 /\
    cell (vis Samples.ds1) 0 1 = Some v2 /\
    fleb v1 v2 = true.
Proof.
  apply (vis_increasing Samples.ds1 0 0 0 1 5 6 (1 / 500));
    try reflexivity; lra.
Defined.

End RadianceMore.

(** ** The sign of the reflectance *)

Section ReflectanceSign.
Import Floats.
Local Open Scope float_scope.

(** X7.  No cell of the reflectance compares below zero, whatever the
    radiance and [kappa0] are: the square root of binary64 returns a
    number that is not negative, an infinity, a zero or NaN. *)
Theorem vis_never_negative (Rad : list (list PrimFloat.float))
  (kappa0 : PrimFloat.float) (i j : nat) (v : PrimFloat.float)
  (Hv : NumPy.cell (Binary64.vis Rad kappa0) i j = Some v) :
  (v <? 0) = false.
Proof.
  rewrite cell_vis_binary64 in Hv.
  destruct (NumPy.cell Rad i j) as [L |]; [| discriminate].
  injection Hv as <-. apply sqrt_not_below_zero.
Qed.

Lemma vis_never_negative_witness :
  (Binary64.vis_cell 8 0.5 <? 0) = false /\
  (Binary64.vis_cell (-8) 0.5 <? 0) = false.
Proof.
  split.
  - exact (vis_never_negative [[8; -8]] 0.5 0 0 _ eq_refl).
  - exact (vis_never_negative [[8; -8]] 0.5 0 1 _ eq_refl).
Defined.

End ReflectanceSign.

(** ** The catalogue address *)

Section CatalogFacts.
Import Ascii String DecimalString Catalog.
Local Open Scope string_scope.

Lemma string_length_append (a b : string) :
  String.length (a ++ b) = (String.length a + String.length b)%nat.
Proof. induction a as [| c a IH]; simpl; [reflexivity | now rewrite IH]. Qed.

Lemma append_inj_l (s a b : string) : s ++ a = s ++ b -> a = b.
Proof.
  induction s as [| c s IH]; simpl; intros H; [assumption |].
  injection H as H. now apply IH.
Qed.

Lemma append_inj_r (a b s : string) : a ++ s = b ++ s -> a = b.
Proof.
  intros H.
  assert (Hlen : String.length a = String.length b).
  { apply (f_equal String.length) in H. rewrite !string_length_append in H. lia. }
  revert b H Hlen. induction a as [| c a IH]; intros [| c' b] H Hlen;
    simpl in *; try discriminate; [reflexivity |].
  injection H as -> H. f_equal. apply IH; [assumption | lia].
Qed.

Lemma to_uint_not_nil (n : nat) : Nat.to_uint n <> Decimal.Nil.
Proof.
  intros H. pose proof (DecimalNat.Unsigned.of_to n) as E. rewrite H in E.
  pose proof (DecimalNat.Unsigned.to_of Decimal.Nil) as E'.
  simpl in E. subst n. discriminate.
Qed.

Lemma channel_of_format_02d (n : nat) : channel_of (format_02d n) = Some n.
Proof.
  unfold channel_of, format_02d.
  pose proof (NilZero.usu (Nat.to_uint n) (to_uint_not_nil n)) as U.
  destruct (String.length _ <? 2)%nat.
  - unfold NilZero.uint_of_string in *.
    destruct (NilZero.string_of_uint (Nat.to_uint n)) as [| c s] eqn:E;
      [discriminate |].
    cbn [NilEmpty.uint_of_string] in *. rewrite U. simpl.
    f_equal. apply DecimalNat.Unsigned.of_to.
  - rewrite U. simpl. f_equal. apply DecimalNat.Unsigned.of_to.
Qed.

(** X9.  Every channel has a catalogue address of its own: the address
    determines the channel number, the number can be read back from the
    directory name, and for the channels below 100 (the instrument has 16)
    the directory name carries exactly two digits, as in [Channel09]. *)
Theorem catalog_url_channel :
  (forall c1 c2 : nat, catalog_url c1 = catalog_url c2 -> c1 = c2) /\
  (forall c : nat, channel_of (format_02d c) = Some c) /\
  (forall c : nat, (c < 100)%nat -> String.length (format_02d c) = 2%nat) /\
  (forall c : nat, (c < 10)%nat ->
     exists d, format_02d c = String "0"%char (String d EmptyString)) /\
  catalog_url 9
  = "http://thredds-test.unidata.ucar.edu/thredds/catalog/satellite/goes16/GRB16/ABI/CONUS/Channel09/current/".
Proof.
  split; [| split; [| split; [| split]]].
  - intros c1 c2 H. unfold catalog_url in H.
    apply append_inj_l, append_inj_r in H.
    apply (f_equal channel_of) in H.
    rewrite !channel_of_format_02d in H. now injection H.
  - apply channel_of_format_02d.
  - intros c Hc.
    assert (H : forallb (fun c => (String.length (format_02d c) =? 2)%nat)
                        (seq 0 100) = true) by (vm_compute; reflexivity).
    rewrite forallb_forall in H. apply Nat.eqb_eq, H, in_seq. lia.
  - intros c Hc.
    assert (H : forallb (fun c =>
                           match format_02d c with
                           | String "0"%char (String _ EmptyString) => true
                           | _ => false
                           end) (seq 0 10) = true) by (vm_compute; reflexivity).
    rewrite forallb_forall in H. specialize (H c). rewrite in_seq in H.
    specialize (H ltac:(lia)).
    destruct (format_02d c) as [| a s1]; [discriminate |].
    destruct a as [[] [] [] [] [] [] [] []]; try discriminate.
    destruct s1 as [| d s2]; [discriminate |].
    destruct s2; [| discriminate]. now exists d.
  - vm_compute. reflexivity.
Qed.

End CatalogFacts.

(** ** Shapes of the subset, smoothed and interpolated fields *)

Section Shapes.
Import NumPy SciPy Pint MetPy Overlay Shape Plotting.

Lemma has_shape2_iff {A : Type} (I J : nat) (g : list (list A)) :
  has_shape2 I J g = true
  <-> length g = I /\ forall r, In r g -> length r = J.
Proof.
  unfold has_shape2. rewrite andb_true_iff, Nat.eqb_eq, forallb_forall.
  split; intros [H1 H2]; (split; [assumption |]); intros r Hr.
  - now apply Nat.eqb_eq, H2.
  - now apply Nat.eqb_eq, H2.
Qed.

Lemma has_shape3_iff {A : Type} (K I J : nat) (a : list (list (list A))) :
  has_shape3 K I J a = true
  <-> length a = K /\ forall lvl, In lvl a -> has_shape2 I J lvl = true.
Proof.
  unfold has_shape3. rewrite andb_true_iff, Nat.eqb_eq, forallb_forall.
  reflexivity.
Qed.

Lemma has_shape2_map {A B : Type} (f : list A -> list B) (I J J' : nat)
  (g : list (list A)) :
  (forall r, length r = J -> length (f r) = J') ->
  has_shape2 I J g = true -> has_shape2 I J' (map f g) = true.
Proof.
  intros Hf. rewrite !has_shape2_iff. intros [H1 H2].
  split; [now rewrite length_map |].
  intros r Hr. apply in_map_iff in Hr. destruct Hr as [r0 [<- Hr0]].
  now apply Hf, H2.
Qed.

Lemma has_shape3_map {A B : Type} (f : list (list A) -> list (list B))
  (K I J I' J' : nat) (a : list (list (list A))) :
  (forall lvl, has_shape2 I J lvl = true -> has_shape2 I' J' (f lvl) = true) ->
  has_shape3 K I J a = true -> has_shape3 K I' J' (map f a) = true.
Proof.
  intros Hf. rewrite !has_shape3_iff. intros [H1 H2].
  split; [now rewrite length_map |].
  intros r Hr. apply in_map_iff in Hr. destruct Hr as [r0 [<- Hr0]].
  now apply Hf, H2.
Qed.

Lemma has_shape3_map3d (f : float -> float) (K I J : nat) (a : array3) :
  has_shape3 K I J a = true -> has_shape3 K I J (map3d f a) = true.
Proof.
  apply has_shape3_map. intros lvl. unfold map2d. apply has_shape2_map.
  intros r Hr. now rewrite length_map.
Qed.

(** *** Slices *)

Lemma length_slice {A : Type} (start stop : nat) (a : list A) :
  length (slice start stop a) = Nat.min (stop - start) (length a - start).
Proof. unfold slice. now rewrite length_firstn, length_skipn. Qed.

Lemma nth_error_slice {A : Type} (start stop : nat) (a : list A) (k : nat) :
  (k < stop - start)%nat ->
  nth_error (slice start stop a) k = nth_error a (start + k).
Proof.
  intros Hk. unfold slice. rewrite nth_error_firstn, nth_error_skipn.
  destruct (Nat.ltb_spec k (stop - start)); [reflexivity | lia].
Qed.

Lemma In_slice {A : Type} (start stop : nat) (a : list A) (x : A) :
  In x (slice start stop a) -> In x a.
Proof.
  intros H. apply In_nth_error in H. destruct H as [k Hk].
  assert (Hlt : (k < stop - start)%nat).
  { assert (Hl : (k < length (slice start stop a))%nat)
      by (apply nth_error_Some; now rewrite Hk).
    rewrite length_slice in Hl. lia. }
  rewrite nth_error_slice in Hk by assumption.
  now apply nth_error_In in Hk.
Qed.

Lemma has_shape3_window (K G H : nat) (t0 : array3) :
  (160 <= G)%nat -> (601 <= H)%nat ->
  has_shape3 K G H t0 = true ->
  has_shape3 K 150 201
    (map (fun lvl => map (slice 400 601) (slice 10 160 lvl)) t0) = true.
Proof.
  intros HG HH. apply has_shape3_map. intros lvl.
  rewrite !has_shape2_iff. intros [H1 H2]. split.
  - rewrite length_map, length_slice. lia.
  - intros r Hr. apply in_map_iff in Hr. destruct Hr as [r0 [<- Hr0]].
    apply In_slice in Hr0. rewrite length_slice, (H2 r0 Hr0). lia.
Qed.

Lemma cell_window {A : Type} (lvl : list (list A)) (i j : nat) :
  (i < 150)%nat -> (j < 201)%nat ->
  cell (map (slice 400 601) (slice 10 160 lvl)) i j
  = cell lvl (10 + i) (400 + j).
Proof.
  intros Hi Hj. unfold cell. rewrite nth_error_map.
  rewrite nth_error_slice by lia.
  destruct (nth_error lvl (10 + i)) as [row |]; simpl; [| reflexivity].
  now rewrite nth_error_slice by lia.
Qed.

(** X10.  Subsetting on read fails only on an empty time axis, keeps the
    level axis, and keeps data and coordinates aligned: the cell [(i, j)]
    of every level of the subset is the cell [(10 + i, 400 + j)] of the
    first time step, and the subset coordinates are those of that row and
    that column. *)
Theorem subset_window (t0 : array3) (rest : list array3)
  (lats lons : list float) :
  subset [] = None /\
  exists s : array3,
    subset (t0 :: rest) = Some s /\
    length s = length t0 /\
    forall k i j : nat, (i < 150)%nat -> (j < 201)%nat ->
      cell3 s k i j = cell3 t0 k (10 + i) (400 + j) /\
      nth_error (slice 10 160 lats) i = nth_error lats (10 + i) /\
      nth_error (slice 400 601 lons) j = nth_error lons (400 + j).
Proof.
  split; [reflexivity |]. eexists. split; [reflexivity |].
  split; [apply length_map |].
  intros k i j Hi Hj. split; [| split].
  - unfold cell3. rewrite nth_error_map.
    destruct (nth_error t0 k) as [lvl |]; simpl; [| reflexivity].
    now apply cell_window.
  - apply nth_error_slice. lia.
  - apply nth_error_slice. lia.
Qed.

(** *** Columns, transposition and the line filter *)

Lemma columns_shape {A : Type} (d : A) (K I J : nat)
  (a : list (list (list A))) :
  (1 <= K)%nat -> has_shape3 K I J a = true ->
  has_shape2 I J (columns d a) = true /\
  forall row col, In row (columns d a) -> In col row -> length col = K.
Proof.
  intros HK. rewrite has_shape3_iff. intros [H1 H2].
  destruct a as [| l0 a']; [simpl in H1; lia |].
  pose proof (H2 l0 (or_introl eq_refl)) as H0.
  apply has_shape2_iff in H0. destruct H0 as [HI HJ].
  unfold columns. split.
  - apply has_shape2_iff. split; [now rewrite length_map, length_seq |].
    intros r Hr. apply in_map_iff in Hr. destruct Hr as [i [<- Hi]].
    rewrite length_map, length_seq. apply HJ, nth_In.
    apply in_seq in Hi. lia.
  - intros row col Hrow Hcol.
    apply in_map_iff in Hrow. destruct Hrow as [i [<- Hi]].
    apply in_map_iff in Hcol. destruct Hcol as [j [<- Hj]].
    now rewrite length_map.
Qed.

Lemma from_columns_shape {A : Type} (d : A) (m I J : nat)
  (g : list (list (list A))) :
  has_shape2 I J g = true -> has_shape3 m I J (from_columns d m g) = true.
Proof.
  intros Hg. apply has_shape3_iff. split; [apply length_from_columns |].
  intros lvl Hl. unfold from_columns in Hl.
  apply in_map_iff in Hl. destruct Hl as [l [<- _]].
  revert Hg. apply has_shape2_map. intros r Hr. now rewrite length_map.
Qed.

Lemma transpose_shape {A : Type} (d : A) (I J : nat) (g : list (list A)) :
  (1 <= I)%nat -> has_shape2 I J g = true ->
  has_shape2 J I (transpose d g) = true.
Proof.
  intros HI. rewrite !has_shape2_iff. intros [H1 H2].
  destruct g as [| r0 g']; [simpl in H1; lia |].
  unfold transpose. split.
  - rewrite length_map, length_seq. apply H2. now left.
  - intros r Hr. apply in_map_iff in Hr. destruct Hr as [j [<- _]].
    now rewrite length_map.
Qed.

Lemma length_correlate1d (input weights : list float) :
  length (correlate1d input weights) = length input.
Proof. unfold correlate1d. now rewrite length_map, length_seq. Qed.

Lemma length_gaussian_filter1d (sigma : Q) (input : list float) :
  length (gaussian_filter1d sigma input) = length input.
Proof. apply length_correlate1d. Qed.

Lemma along_axis0_shape (f : list float -> list float) (K I J : nat)
  (a : array3) :
  has_shape3 K I J a = true -> has_shape3 K I J (along_axis0 f a) = true.
Proof.
  intros Ha. unfold along_axis0.
  assert (HK : length a = K) by now apply has_shape3_iff in Ha.
  rewrite HK. destruct K as [| K'].
  - reflexivity.
  - apply from_columns_shape.
    destruct (columns_shape NaN (S K') I J a ltac:(lia) Ha) as [Hc _].
    revert Hc. apply has_shape2_map. intros r Hr. now rewrite length_map.
Qed.

Lemma along_axis1_shape (f : list float -> list float) (K I J : nat)
  (a : array3) :
  (forall l, length (f l) = length l) ->
  (1 <= I)%nat -> (1 <= J)%nat ->
  has_shape3 K I J a = true -> has_shape3 K I J (along_axis1 f a) = true.
Proof.
  intros Hf HI HJ. unfold along_axis1. apply has_shape3_map. intros lvl Hl.
  apply transpose_shape; [assumption |].
  apply has_shape2_map with (J := I); [intros r Hr; now rewrite Hf |].
  now apply transpose_shape.
Qed.

Lemma along_axis2_shape (f : list float -> list float) (K I J : nat)
  (a : array3) :
  (forall l, length (f l) = length l) ->
  has_shape3 K I J a = true -> has_shape3 K I J (along_axis2 f a) = true.
Proof.
  intros Hf. unfold along_axis2. apply has_shape3_map. intros lvl.
  apply has_shape2_map. intros r Hr. now rewrite Hf.
Qed.

Lemma gaussian_filter_has_shape (K I J : nat) (a : array3) (sigma : Q) :
  (1 <= I)%nat -> (1 <= J)%nat ->
  has_shape3 K I J a = true ->
  has_shape3 K I J (gaussian_filter a sigma) = true.
Proof.
  intros HI HJ Ha. unfold gaussian_filter.
  destruct (Qlt_le_dec _ sigma); [| assumption].
  apply along_axis2_shape; [apply length_gaussian_filter1d |].
  apply along_axis1_shape; try assumption; [apply length_gaussian_filter1d |].
  now apply along_axis0_shape.
Qed.

(** *** The interpolated surfaces *)

Lemma map_accum_In {S A B : Type} (f : S -> A -> S * B) (s : S)
  (l : list A) (y : B) :
  In y (snd (map_accum f s l)) -> exists s' a, In a l /\ y = snd (f s' a).
Proof.
  revert s. induction l as [| x l IH]; intros s; simpl; [tauto |].
  destruct (f s x) as [s1 y1] eqn:E1. specialize (IH s1).
  destruct (map_accum f s1 l) as [s2 ys]. simpl in *.
  intros [<- | Hy].
  - exists s, x. rewrite E1. auto.
  - destruct (IH Hy) as (s' & a & Ha & ->). exists s', a. auto.
Qed.

Lemma fill_shape (pmax : float) (solved : list float)
  (cells : list (list (list Cell))) (L I J : nat) :
  has_shape3 L I J cells = true ->
  has_shape3 L I J (fill pmax solved cells) = true.
Proof.
  rewrite !has_shape3_iff. intros [H1 H2].
  split; [now rewrite length_fill |].
  intros lvl Hl. unfold fill in Hl. apply map_accum_In in Hl.
  destruct Hl as (s1 & lvl0 & Hlvl0 & ->).
  specialize (H2 lvl0 Hlvl0). apply has_shape2_iff in H2.
  apply has_shape2_iff.
  destruct H2 as [HI HJ]. split; [now rewrite map_accum_length |].
  intros r Hr. apply map_accum_In in Hr.
  destruct Hr as (s2 & r0 & Hr0 & ->).
  rewrite map_accum_length. now apply HJ.
Qed.

Lemma length_map2 {A B C : Type} (f : A -> B -> C)
  (l1 : list A) (l2 : list B) :
  length (map2 f l1 l2) = Nat.min (length l1) (length l2).
Proof.
  revert l2. induction l1 as [| x l1 IH]; intros [| y l2]; simpl;
    try reflexivity.
  now rewrite IH.
Qed.

Lemma map2_shape {A B C : Type} (f : A -> B -> C) (I J : nat)
  (g1 : list (list A)) (g2 : list (list B)) :
  has_shape2 I J g1 = true -> has_shape2 I J g2 = true ->
  has_shape2 I J (map2 (map2 f) g1 g2) = true.
Proof.
  rewrite !has_shape2_iff. intros [H1 H2] [H3 H4]. split.
  - rewrite length_map2. lia.
  - intros r Hr. apply In_map2 in Hr.
    destruct Hr as (r1 & r2 & Hr1 & Hr2 & ->).
    rewrite length_map2, (H2 _ Hr1), (H4 _ Hr2). lia.
Qed.

Lemma take_shape (K I J : nat) (a : array3) (idx : list nat) :
  has_shape3 K I J a = true ->
  (forall k, In k idx -> (k < K)%nat) ->
  has_shape3 (length idx) I J (take [] a idx) = true.
Proof.
  rewrite !has_shape3_iff. intros [H1 H2] Hidx.
  split; [apply length_take |].
  intros lvl Hl. unfold take in Hl. apply in_map_iff in Hl.
  destruct Hl as (k & <- & Hk). apply H2, nth_In. rewrite H1. now apply Hidx.
Qed.

Lemma broadcast_levels_length (pressure pres : list float) (nlev : nat) :
  broadcast_levels pressure nlev = Some pres -> length pres = nlev.
Proof.
  unfold broadcast_levels. destruct (Nat.eqb_spec (length pressure) nlev).
  - now intros [= <-].
  - destruct pressure as [| p [| ? ?]]; try discriminate.
    intros [= <-]. apply repeat_length.
Qed.

Lemma sort_input_sorter (pressure : Quantity (list float))
  (temperature : Quantity array3) (s : Sorted) :
  sort_input pressure temperature = Some s ->
  length (sorter s) = length (magnitude temperature) /\
  length (levs s) = length (magnitude temperature) /\
  forall k, In k (sorter s) -> (k < length (magnitude temperature))%nat.
Proof.
  unfold sort_input. intros H.
  destruct (to (@map float float) pressure hectopascal); [| discriminate].
  unfold to in H.
  destruct (units temperature); cbn in H; try discriminate.
  destruct (broadcast_levels _ _) as [pres |] eqn:Eb; [| discriminate].
  apply broadcast_levels_length in Eb.
  injection H as <-. cbn.
  rewrite length_take, length_rev, argsort_length.
  repeat split; try assumption.
  intros k Hk. apply in_rev, argsort_In in Hk. now rewrite Eb in Hk.
Qed.

Lemma theta_columns_shape (lv : list float) (I J : nat)
  (cols : list (list (list float))) :
  has_shape2 I J cols = true ->
  has_shape2 I J (theta_columns lv cols) = true.
Proof.
  unfold theta_columns. apply has_shape2_map.
  intros r Hr. now rewrite length_map.
Qed.

(** The form of a returned result, with the arrays it is made of. *)
Lemma isentropic_interpolation_inv (levels : list float)
  (pressure : Quantity (list float)) (temperature : Quantity array3)
  (args : list (Quantity array3)) (out : list (Quantity array3)) :
  isentropic_interpolation levels pressure temperature args = Ok out ->
  exists (s : Sorted) (pmax : float) (solved : list float),
    sort_input pressure temperature = Some s /\
    (2 <= length (levs s))%nat /\
    max (pres_hPa s) = Some pmax /\
    out = {| magnitude :=
               fill pmax solved
                 (isentropic_cells (map flog (levs s)) levels
                    (take NaN levels (argsort levels))
                    (tmpk_cols s) (theta_cols s));
             units := hectopascal |}
          :: map (interpolate_arg (take NaN levels (argsort levels))
                    (sorter s) (theta_cols s)) args.
Proof.
  unfold isentropic_interpolation.
  destruct (sort_input pressure temperature) as [s |]; [| discriminate].
  destruct (max (concat (concat (theta_cols s)))); [| discriminate].
  destruct (max levels); [| discriminate].
  destruct (max (pres_hPa s)) as [pmax |] eqn:Epmax; [| discriminate].
  destruct (fltb _ _); [discriminate |].
  destruct (Nat.ltb_spec (length (levs s)) 2) as [Hlt | Hge]; [discriminate |].
  destruct (solve _) as [solved |]; [| discriminate].
  destruct (forallb _ args); [| discriminate].
  intros Hout. injection Hout as <-.
  exists s, pmax, solved. repeat split; assumption.
Qed.

Lemma isentropic_interpolation_shapes (levels : list float)
  (pressure : Quantity (list float)) (temperature : Quantity array3)
  (args : list (Quantity array3)) (out : list (Quantity array3))
  (K I J : nat) :
  has_shape3 K I J (magnitude temperature) = true ->
  (forall a, In a args -> has_shape3 K I J (magnitude a) = true) ->
  isentropic_interpolation levels pressure temperature args = Ok out ->
  length out = S (length args) /\
  forall q, In q out -> has_shape3 (length levels) I J (magnitude q) = true.
Proof.
  intros HT Hargs Hout.
  destruct (isentropic_interpolation_inv _ _ _ _ _ Hout)
    as (s & pmax & solved & Hs & Hn & _ & ->).
  destruct (sort_input_sorter _ _ _ Hs) as (Hlen & Hlevs & Hidx).
  assert (HK : length (magnitude temperature) = K)
    by now apply has_shape3_iff in HT.
  rewrite HK in *.
  assert (Hcols : forall a : array3,
             has_shape3 K I J a = true ->
             has_shape2 I J (columns NaN (take [] a (sorter s))) = true).
  { intros a Ha.
    apply (columns_shape NaN (length (sorter s)) I J); [lia |].
    now apply (take_shape K). }
  assert (Htc : has_shape2 I J (tmpk_cols s) = true)
    by (rewrite (sort_input_tmpk _ _ _ Hs); now apply Hcols).
  assert (Hth : has_shape2 I J (theta_cols s) = true)
    by (rewrite (sort_input_theta _ _ _ Hs); now apply theta_columns_shape).
  split; [simpl; now rewrite length_map |].
  intros q [<- | Hq]; cbn [magnitude].
  - apply fill_shape. unfold isentropic_cells.
    apply from_columns_shape. now apply map2_shape.
  - apply in_map_iff in Hq. destruct Hq as (a & <- & Ha).
    unfold interpolate_arg. cbn [magnitude].
    rewrite length_take, argsort_length.
    apply from_columns_shape. apply map2_shape; [assumption |].
    now apply Hcols, Hargs.
Qed.

Lemma to_shape (q q' : Quantity array3) (dst : Unit) (K I J : nat) :
  to map3d q dst = Some q' ->
  has_shape3 K I J (magnitude q) = true ->
  has_shape3 K I J (magnitude q') = true.
Proof.
  unfold to. destruct (Unit_eqb _ _); [now intros [= <-] |].
  destruct (factor _ _); [| discriminate].
  intros [= <-]. apply has_shape3_map3d.
Qed.

Lemma isentlevs_length : length isentlevs = 26%nat.
Proof. reflexivity. Qed.

(** X11.  On an analysis whose first time step has [K] levels on a grid
    of at least 160 by 601 points, the subsetting cell returns, its
    coordinate vectors have 150 and 201 entries, and the three smoothed
    fields have the shape [(K, 150, 201)] that goes with them. *)
Theorem cell34_shapes (ds : GFS) (K G H : nat) (t0 u0 v0 : array3)
  (rt ru rv : list array3)
  (Et : Temperature_isobaric ds = t0 :: rt)
  (Eu : u_component_of_wind_isobaric ds = u0 :: ru)
  (Ev : v_component_of_wind_isobaric ds = v0 :: rv)
  (St : has_shape3 K G H t0 = true)
  (Su : has_shape3 K G H u0 = true)
  (Sv : has_shape3 K G H v0 = true)
  (Hlat : length (lat ds) = G) (Hlon : length (lon ds) = H)
  (HG : (160 <= G)%nat) (HH : (601 <= H)%nat) :
  exists f : Fields,
    cell34 ds = Some f /\
    length (slats f) = 150%nat /\ length (slons f) = 201%nat /\
    has_shape3 K 150 201 (magnitude (tmpk f)) = true /\
    has_shape3 K 150 201 (magnitude (uwnd f)) = true /\
    has_shape3 K 150 201 (magnitude (vwnd f)) = true.
Proof.
  unfold cell34, subset. rewrite Et, Eu, Ev. eexists.
  split; [reflexivity |]. cbn [slats slons tmpk uwnd vwnd magnitude].
  rewrite !length_slice, Hlat, Hlon.
  split; [lia |]. split; [lia |].
  repeat split; apply gaussian_filter_has_shape; try lia;
    now apply (has_shape3_window K G H).
Qed.

Lemma cell34_shapes_witness :
  exists f : Fields,
    cell34 Analyses.gfs0 = Some f /\
    length (slats f) = 150%nat /\ length (slons f) = 201%nat /\
    has_shape3 1 150 201 (magnitude (tmpk f)) = true /\
    has_shape3 1 150 201 (magnitude (uwnd f)) = true /\
    has_shape3 1 150 201 (magnitude (vwnd f)) = true.
Proof.
  apply (cell34_shapes Analyses.gfs0 1 160 601
           [Analyses.level0] [Analyses.level0] [Analyses.level0] [] [] []);
    try reflexivity; lia.
Defined.

(** *** Every fifth point *)

Lemma nth_error_nil_None {A : Type} (k : nat) : nth_error (@nil A) k = None.
Proof. now destruct k. Qed.

Lemma nth_error_every_from {A : Type} (s c : nat) (a : list A) (k : nat) :
  (c <= s)%nat ->
  nth_error (every_from (S s) c a) k = nth_error a (c + S s * k).
Proof.
  revert c k. induction a as [| x a IH]; intros c k Hc.
  - simpl. now rewrite !nth_error_nil_None.
  - destruct c as [| c'].
    + cbn [every_from]. replace (S s - 1)%nat with s by lia.
      destruct k as [| k'].
      * now rewrite Nat.mul_0_r.
      * cbn [nth_error]. rewrite IH by lia.
        replace (0 + S s * S k')%nat with (S (s + S s * k')) by lia.
        reflexivity.
    + cbn [every_from]. rewrite IH by lia. reflexivity.
Qed.

Lemma length_every_from {A : Type} (s c : nat) (a : list A) :
  (c <= s)%nat ->
  length (every_from (S s) c a) = ((length a + s - c) / S s)%nat.
Proof.
  revert c. induction a as [| x a IH]; intros c Hc.
  - cbn [every_from length]. symmetry. apply Nat.div_small. lia.
  - destruct c as [| c'].
    + cbn [every_from length]. replace (S s - 1)%nat with s by lia.
      rewrite IH by lia.
      replace (S (length a) + s - 0)%nat with (length a + 1 * S s)%nat by lia.
      rewrite Nat.div_add by lia.
      replace (length a + s - s)%nat with (length a) by lia. lia.
    + cbn [every_from length]. rewrite IH by lia. reflexivity.
Qed.

Lemma In_every_from {A : Type} (step c : nat) (a : list A) (x : A) :
  In x (every_from step c a) -> In x a.
Proof.
  revert c. induction a as [| y a IH]; intros c; simpl; [tauto |].
  destruct c as [| c'].
  - intros [<- | H]; [now left | right; eapply IH; eassumption].
  - intros H. right. eapply IH; eassumption.
Qed.

Lemma length_every5 {A : Type} (a : list A) :
  length (every 5 a) = ((length a + 4) / 5)%nat.
Proof.
  unfold every. rewrite length_every_from by lia. f_equal. lia.
Qed.

Lemma every5_shape {A : Type} (I J : nat) (g : list (list A)) :
  has_shape2 I J g = true ->
  has_shape2 ((I + 4) / 5) ((J + 4) / 5) (every 5 (map (every 5) g)) = true.
Proof.
  rewrite !has_shape2_iff. intros [H1 H2]. split.
  - now rewrite length_every5, length_map, H1.
  - intros r Hr. apply In_every_from in Hr. apply in_map_iff in Hr.
    destruct Hr as (r0 & <- & Hr0). now rewrite length_every5, (H2 _ Hr0).
Qed.

(** *** The plotted level *)

Lemma index_map_seq (F : nat -> R) (x : R) (n k : nat) (start : nat) :
  (k < n)%nat -> F (start + k)%nat = x ->
  (forall j, (j < k)%nat -> F (start + j)%nat <> x) ->
  index (map (fun i => Fin (F i)) (seq start n)) (Fin x) = Some k.
Proof.
  revert start k. induction n as [| n IH]; intros start k Hk Hx Hne; [lia |].
  cbn [seq map index feqb val]. destruct k as [| k'].
  - rewrite Nat.add_0_r in Hx. now rewrite Reqb_true.
  - rewrite Reqb_false
      by (specialize (Hne 0%nat ltac:(lia)); now rewrite Nat.add_0_r in Hne).
    rewrite (IH (S start) k'); [reflexivity | lia | |].
    + now replace (S start + k')%nat with (start + S k')%nat by lia.
    + intros j Hj. replace (S start + j)%nat with (start + S j)%nat by lia.
      apply Hne. lia.
Qed.

Lemma ilev_15 : ilev = Some 15%nat.
Proof.
  unfold ilev, isentlevs.
  apply (index_map_seq (fun k => IZR (280 + 2 * Z.of_nat k)) 310 26 15 0).
  - lia.
  - reflexivity.
  - intros j Hj Heq. apply eq_IZR in Heq. lia.
Qed.

Lemma cell35_objects (f : Fields) (st : State) (K I J : nat) :
  has_shape3 K I J (magnitude (tmpk f)) = true ->
  has_shape3 K I J (magnitude (uwnd f)) = true ->
  has_shape3 K I J (magnitude (vwnd f)) = true ->
  cell35 f = Ok st ->
  exists p u v : Quantity array3,
    objects st = [p; u; v] /\
    isentprs st = 0%nat /\ isentu st = 1%nat /\ isentv st = 2%nat /\
    has_shape3 26 I J (magnitude p) = true /\
    has_shape3 26 I J (magnitude u) = true /\
    has_shape3 26 I J (magnitude v) = true.
Proof.
  intros St Su Sv Hrun. unfold cell35 in Hrun.
  destruct (isentropic_interpolation isentlevs (pres f) (tmpk f)
              [uwnd f; vwnd f]) as [ret | e] eqn:E; [| discriminate].
  assert (Hargs : forall a, In a [uwnd f; vwnd f] ->
                            has_shape3 K I J (magnitude a) = true)
    by (intros a [<- | [<- | []]]; assumption).
  destruct (isentropic_interpolation_shapes _ _ _ _ _ K I J St Hargs E)
    as [Hlen Hall].
  rewrite isentlevs_length in Hall.
  destruct ret as [| p [| u [| v [| w ret]]]]; try discriminate.
  cbn [length seq] in Hrun. unfold ito in Hrun. cbn [nth_error] in Hrun.
  destruct (to map3d u knot) as [u' |] eqn:Eu; [| discriminate].
  cbn [update nth_error] in Hrun.
  destruct (to map3d v knot) as [v' |] eqn:Ev; [| discriminate].
  cbn [update] in Hrun. injection Hrun as <-.
  exists p, u', v'. cbn. repeat split.
  - apply Hall. now left.
  - apply (to_shape u u' knot); [assumption |]. apply Hall. right. now left.
  - apply (to_shape v v' knot); [assumption |]. apply Hall. right. right. now left.
Qed.

Lemma nth_error_shape3 {A : Type} (K I J : nat) (a : list (list (list A)))
  (k : nat) :
  has_shape3 K I J a = true -> (k < K)%nat ->
  exists lvl, nth_error a k = Some lvl /\ has_shape2 I J lvl = true.
Proof.
  rewrite has_shape3_iff. intros [H1 H2] Hk.
  destruct (nth_error a k) as [lvl |] eqn:E.
  - exists lvl. split; [reflexivity |]. now apply H2, (nth_error_In a k).
  - apply nth_error_None in E. lia.
Qed.

Lemma cell36_returns (f : Fields) (st : State) (K I J : nat) :
  has_shape3 K I J (magnitude (tmpk f)) = true ->
  has_shape3 K I J (magnitude (uwnd f)) = true ->
  has_shape3 K I J (magnitude (vwnd f)) = true ->
  cell35 f = Ok st ->
  exists z ul vl : list (list float),
    has_shape2 I J z = true /\ has_shape2 I J ul = true /\
    has_shape2 I J vl = true /\
    cell36 f st
    = Ok {| contour_x := slons f;
            contour_y := slats f;
            contour_z := z;
            barbs_x := every 5 (slons f);
            barbs_y := every 5 (slats f);
            barbs_u := every 5 (map (every 5) ul);
            barbs_v := every 5 (map (every 5) vl);
            title_level := Fin 310 |}.
Proof.
  intros St Su Sv Hrun.
  destruct (cell35_objects f st K I J St Su Sv Hrun)
    as (p & u & v & Hobj & Hp & Hu & Hv & Sp & Su' & Sv').
  destruct (nth_error_shape3 26 I J (magnitude p) 15 Sp ltac:(lia))
    as (z & Ez & Sz).
  destruct (nth_error_shape3 26 I J (magnitude u) 15 Su' ltac:(lia))
    as (ul & Eul & Sul).
  destruct (nth_error_shape3 26 I J (magnitude v) 15 Sv' ltac:(lia))
    as (vl & Evl & Svl).
  exists z, ul, vl. repeat (split; [assumption |]).
  unfold cell36, deref. rewrite ilev_15, Hobj, Hp, Hu, Hv.
  change (nth_error [p; u; v] 0) with (Some p).
  change (nth_error [p; u; v] 1) with (Some u).
  change (nth_error [p; u; v] 2) with (Some v).
  cbv beta iota. rewrite Ez, Eul, Evl.
  assert (El : nth_error isentlevs 15 = Some (Fin 310)) by reflexivity.
  now rewrite El.
Qed.

(** X12.  When the interpolation cell returns on fields of shape
    [(K, I, J)] with coordinate vectors of [I] latitudes and [J]
    longitudes, the plotting cell finds the level 310 K at index 15 of the
    26 surfaces and hands consistent arrays to the two plotting calls: the
    contoured pressure has one row per latitude and one column per
    longitude, and the wind barbs, every fifth point in both directions,
    have one row and one column per retained latitude and longitude. *)
Theorem overlay_shapes (f : Fields) (st : State) (K I J : nat)
  (St : has_shape3 K I J (magnitude (tmpk f)) = true)
  (Su : has_shape3 K I J (magnitude (uwnd f)) = true)
  (Sv : has_shape3 K I J (magnitude (vwnd f)) = true)
  (Hlat : length (slats f) = I) (Hlon : length (slons f) = J)
  (Hrun : cell35 f = Ok st) :
  ilev = Some 15%nat /\
  exists o : Layers,
    cell36 f st = Ok o /\
    title_level o = Fin 310 /\
    has_shape2 (length (contour_y o)) (length (contour_x o)) (contour_z o)
    = true /\
    length (barbs_y o) = ((I + 4) / 5)%nat /\
    length (barbs_x o) = ((J + 4) / 5)%nat /\
    has_shape2 (length (barbs_y o)) (length (barbs_x o)) (barbs_u o) = true /\
    has_shape2 (length (barbs_y o)) (length (barbs_x o)) (barbs_v o) = true.
Proof.
  split; [exact ilev_15 |].
  destruct (cell36_returns f st K I J St Su Sv Hrun)
    as (z & ul & vl & Sz & Sul & Svl & Ho).
  eexists. split; [exact Ho |].
  cbn [title_level contour_x contour_y contour_z barbs_x barbs_y barbs_u
       barbs_v].
  rewrite !length_every5, Hlat, Hlon.
  repeat split; try assumption; now apply every5_shape.
Qed.

Lemma overlay_shapes_witness :
  exists (st : State) (o : Layers),
    cell35 Samples.stratosphere = Ok st /\
    cell36 Samples.stratosphere st = Ok o /\
    title_level o = Fin 310 /\
    has_shape2 (length (contour_y o)) (length (contour_x o)) (contour_z o)
    = true /\
    has_shape2 (length (barbs_y o)) (length (barbs_x o)) (barbs_u o) = true.
Proof.
  destruct stratosphere_cell35 as [st Hst].
  destruct (overlay_shapes Samples.stratosphere st 2 1 1
              eq_refl eq_refl eq_refl eq_refl eq_refl Hst)
    as (_ & o & Ho & Ht & Hc & _ & _ & Hu & _).
  exists st, o. repeat split; assumption.
Defined.

(** X13.  The wind barbs stay aligned with their coordinates: the barb in
    row [a] and column [b] is the wind of the grid point [(5 a, 5 b)] of
    the plotted level, and the coordinates handed over for it are the
    latitude [5 a] and the longitude [5 b]. *)
Theorem barbs_aligned (f : Fields) (st : State) (o : Layers) (a b : nat)
  (Ho : cell36 f st = Ok o) :
  exists (u v : Quantity array3) (ul vl : list (list float)),
    deref st (isentu st) = Some u /\ deref st (isentv st) = Some v /\
    nth_error (magnitude u) 15 = Some ul /\
    nth_error (magnitude v) 15 = Some vl /\
    cell (barbs_u o) a b = cell ul (5 * a) (5 * b) /\
    cell (barbs_v o) a b = cell vl (5 * a) (5 * b) /\
    nth_error (barbs_y o) a = nth_error (slats f) (5 * a) /\
    nth_error (barbs_x o) b = nth_error (slons f) (5 * b).
Proof.
  unfold cell36 in Ho. rewrite ilev_15 in Ho.
  destruct (deref st (isentprs st)) as [p |]; [| discriminate].
  destruct (deref st (isentu st)) as [u |]; [| discriminate].
  destruct (deref st (isentv st)) as [v |]; [| discriminate].
  destruct (nth_error (magnitude p) 15) as [z |]; [| discriminate].
  destruct (nth_error (magnitude u) 15) as [ul |] eqn:Eul; [| discriminate].
  destruct (nth_error (magnitude v) 15) as [vl |] eqn:Evl; [| discriminate].
  destruct (nth_error isentlevs 15) as [lev |]; [| discriminate].
  injection Ho as <-. exists u, v, ul, vl.
  cbn [barbs_u barbs_v barbs_x barbs_y].
  assert (Hcell : forall g : list (list float),
             cell (every 5 (map (every 5) g)) a b = cell g (5 * a) (5 * b)).
  { intros g. unfold cell, every.
    rewrite nth_error_every_from by lia. cbn [Nat.add].
    rewrite nth_error_map.
    destruct (nth_error g (5 * a)) as [row |]; [| reflexivity].
    cbn [option_map]. now rewrite nth_error_every_from by lia. }
  do 2 (split; [reflexivity |]). do 2 (split; [assumption |]).
  split; [apply Hcell |]. split; [apply Hcell |].
  unfold every. now rewrite !nth_error_every_from by lia.
Qed.

Lemma barbs_aligned_witness :
  exists (st : State) (o : Layers) (u : Quantity array3)
         (ul : list (list float)),
    cell35 Samples.stratosphere = Ok st /\
    cell36 Samples.stratosphere st = Ok o /\
    deref st (isentu st) = Some u /\
    nth_error (magnitude u) 15 = Some ul /\
    cell (barbs_u o) 0 0 = cell ul (5 * 0) (5 * 0) /\
    nth_error (barbs_x o) 0 = nth_error (slons Samples.stratosphere) (5 * 0).
Proof.
  destruct stratosphere_cell35 as [st Hst].
  destruct (cell36_returns Samples.stratosphere st 2 1 1
              eq_refl eq_refl eq_refl Hst)
    as (z & ul0 & vl0 & _ & _ & _ & Ho).
  destruct (barbs_aligned Samples.stratosphere st _ 0 0 Ho)
    as (u & v & ul & vl & Hu & _ & Hul & _ & Hc & _ & _ & Hx).
  eexists st, _, u, ul. repeat split; eassumption.
Defined.

End Shapes.

(** ** The conversion to knots *)

Section KnotsConversion.
Import NumPy SciPy Pint MetPy Overlay.

Lemma to_speed (q : Quantity array3) :
  dimensionality (units q) = Speed ->
  exists q', to map3d q knot = Some q' /\ units q' = knot.
Proof.
  unfold to, factor. destruct (units q); try discriminate; intros _;
    cbn; eauto.
Qed.

Lemma to_not_speed (q : Quantity array3) :
  dimensionality (units q) <> Speed -> to map3d q knot = None.
Proof.
  unfold to, factor. destruct (units q); cbn; intros H;
    try reflexivity; now contradiction H.
Qed.

Lemma cell35_of_result (f : Fields) (prs u v : Quantity array3) :
  isentropic_interpolation isentlevs (pres f) (tmpk f) [uwnd f; vwnd f]
  = Ok [prs; u; v] ->
  cell35 f
  = match to map3d u knot with
    | Some u' =>
        match to map3d v knot with
        | Some v' =>
            Ok {| objects := [prs; u'; v']; isent_anal := [0; 1; 2]%nat;
                  isentprs := 0; isentu := 1; isentv := 2 |}
        | None => Raise DimensionalityError
        end
    | None => Raise DimensionalityError
    end.
Proof.
  intros E. unfold cell35. rewrite E. cbn [length seq]. unfold ito.
  cbn [nth_error]. destruct (to map3d u knot) as [u' |]; [| reflexivity].
  cbn [update nth_error]. now destruct (to map3d v knot).
Qed.

Lemma isentropic_interpolation_three (f : Fields)
  (out : list (Quantity array3)) :
  isentropic_interpolation isentlevs (pres f) (tmpk f) [uwnd f; vwnd f]
  = Ok out ->
  exists prs u v, out = [prs; u; v] /\
                  units u = units (uwnd f) /\ units v = units (vwnd f).
Proof.
  intros E. destruct (isentropic_interpolation_Ok _ _ _ _ _ E)
    as (prs & others & -> & _ & Hothers).
  inversion Hothers as [| a u l1 others' Hu' Hrest]; subst.
  inversion Hrest as [| a v l1 others'' Hv' Hrest']; subst.
  inversion Hrest'; subst. exists prs, u, v. auto.
Qed.

(** X14.  The conversion to knots adds no failure of its own to winds
    given in a unit of speed: the interpolation cell raises exactly the
    exceptions the interpolation routine raises.  With a wind field in any
    other kind of unit the cell raises [DimensionalityError] once the
    interpolation has returned. *)
Theorem cell35_raises (f : Fields)
  (Hu : dimensionality (units (uwnd f)) = Speed)
  (Hv : dimensionality (units (vwnd f)) = Speed) :
  (forall e : exn,
     cell35 f = Raise e
     <-> isentropic_interpolation isentlevs (pres f) (tmpk f)
           [uwnd f; vwnd f] = Raise e) /\
  (forall g : Fields,
     dimensionality (units (uwnd g)) <> Speed
     \/ dimensionality (units (vwnd g)) <> Speed ->
     (exists out,
        isentropic_interpolation isentlevs (pres g) (tmpk g)
          [uwnd g; vwnd g] = Ok out) ->
     cell35 g = Raise DimensionalityError).
Proof.
  split.
  - intros e.
    destruct (isentropic_interpolation isentlevs (pres f) (tmpk f)
                [uwnd f; vwnd f]) as [out | e'] eqn:E.
    + destruct (isentropic_interpolation_three f out E)
        as (prs & u & v & -> & Eu & Ev).
      rewrite (cell35_of_result f prs u v E).
      destruct (to_speed u ltac:(now rewrite Eu)) as (u' & -> & _).
      destruct (to_speed v ltac:(now rewrite Ev)) as (v' & -> & _).
      split; discriminate.
    + unfold cell35. rewrite E. split; intros [= ->]; reflexivity.
  - intros g Hg [out E].
    destruct (isentropic_interpolation_three g out E)
      as (prs & u & v & -> & Eu & Ev).
    rewrite (cell35_of_result g prs u v E).
    destruct Hg as [Hg | Hg].
    + now rewrite (to_not_speed u) by now rewrite Eu.
    + rewrite (to_not_speed v) by now rewrite Ev.
      now destruct (to map3d u knot).
Qed.

Lemma cell35_raises_witness :
  cell35 Samples.troposphere = Raise ValueError
  <-> isentropic_interpolation isentlevs (pres Samples.troposphere)
        (tmpk Samples.troposphere)
        [uwnd Samples.troposphere; vwnd Samples.troposphere]
      = Raise ValueError.
Proof.
  exact (proj1 (cell35_raises Samples.troposphere eq_refl eq_refl) ValueError).
Defined.

Lemma nth_error_update_eq {A : Type} (l : list A) (n : nat) (x y : A) :
  nth_error l n = Some y -> nth_error (update l n x) n = Some x.
Proof.
  revert n. induction l as [| z l IH]; intros [| n] H; simpl in *;
    try discriminate; [reflexivity | now apply IH].
Qed.

Lemma nth_error_update_neq {A : Type} (l : list A) (n m : nat) (x : A) :
  m <> n -> nth_error (update l n x) m = nth_error l m.
Proof.
  revert n m. induction l as [| z l IH]; intros [| n] [| m] H; simpl;
    try reflexivity; [contradiction | apply IH; congruence].
Qed.

Lemma length_update {A : Type} (l : list A) (n : nat) (x : A) :
  length (update l n x) = length l.
Proof.
  revert n. induction l as [| z l IH]; intros [| n]; simpl;
    try reflexivity. now rewrite IH.
Qed.

Lemma update_same {A : Type} (l : list A) (n : nat) (x : A) :
  nth_error l n = Some x -> update l n x = l.
Proof.
  revert n. induction l as [| z l IH]; intros [| n] H; simpl in *;
    try discriminate.
  - now injection H as ->.
  - f_equal. now apply IH.
Qed.

Lemma Unit_eqb_refl (u : Unit) : Unit_eqb u u = true.
Proof. now destruct u. Qed.

(** X15.  An in-place conversion touches one object only: the store keeps
    its size, every other object is what it was, the converted object is
    in the requested unit, and converting it again to that unit changes
    nothing. *)
Theorem ito_frame (h h' : heap) (r : nat) (dst : Unit)
  (Hito : ito h r dst = Ok h') :
  length h' = length h /\
  (forall r', r' <> r -> nth_error h' r' = nth_error h r') /\
  (exists q', nth_error h' r = Some q' /\ units q' = dst) /\
  ito h' r dst = Ok h'.
Proof.
  unfold ito in Hito.
  destruct (nth_error h r) as [q |] eqn:Eq; [| discriminate].
  destruct (to map3d q dst) as [q' |] eqn:Et; [| discriminate].
  injection Hito as <-.
  assert (Hu : units q' = dst).
  { unfold to in Et. destruct (Unit_eqb _ _); [now injection Et as <- |].
    destruct (factor _ _); [now injection Et as <- | discriminate]. }
  pose proof (nth_error_update_eq h r q' q Eq) as Hr.
  split; [apply length_update |].
  split; [intros r' Hne; now apply nth_error_update_neq |].
  split; [now exists q' |].
  unfold ito. rewrite Hr. unfold to. rewrite Hu, Unit_eqb_refl.
  f_equal. apply update_same. rewrite Hr. f_equal.
  destruct q' as [m u]. cbn in *. now subst u.
Qed.

Lemma ito_frame_witness :
  exists h' : heap,
    ito [Overlay.tmpk Samples.stratosphere; Overlay.uwnd Samples.stratosphere]
        1 knot = Ok h' /\
    length h' = 2%nat /\
    nth_error h' 0 = Some (Overlay.tmpk Samples.stratosphere) /\
    ito h' 1 knot = Ok h'.
Proof.
  eexists. split; [reflexivity |].
  destruct (ito_frame
              [Overlay.tmpk Samples.stratosphere;
               Overlay.uwnd Samples.stratosphere] _ 1 knot eq_refl)
    as (Hl & Hf & _ & Hi).
  split; [exact Hl |]. split; [| exact Hi].
  rewrite (Hf 0%nat) by discriminate. reflexivity.
Defined.

End KnotsConversion.

(** ** The weights of the Gaussian kernel *)

Section KernelWeights.
Import NumPy SciPy.

Lemma fold_left_fadd_finite (l : list float) (a : R) :
  (forall x, In x l -> is_finite x = true) ->
  fold_left fadd l (Fin a) = Fin (a + fold_right Rplus 0 (map val l)).
Proof.
  revert a. induction l as [| x l IH]; intros a Hl;
    cbn [fold_left map fold_right].
  - f_equal. lra.
  - assert (Hx : fadd (Fin a) x = Fin (a + val x)).
    { specialize (Hl x (or_introl eq_refl)).
      destruct x; try discriminate; reflexivity. }
    rewrite Hx, IH by (intros y Hy; apply Hl; now right).
    f_equal. lra.
Qed.

Lemma sum_val_app (l1 l2 : list float) :
  fold_right Rplus 0 (map val (l1 ++ l2))
  = fold_right Rplus 0 (map val l1) + fold_right Rplus 0 (map val l2).
Proof. induction l1 as [| x l1 IH]; simpl; [lra | rewrite IH; lra]. Qed.

Lemma sum_val_rev (l : list float) :
  fold_right Rplus 0 (map val (rev l)) = fold_right Rplus 0 (map val l).
Proof.
  induction l as [| x l IH]; simpl; [reflexivity |].
  rewrite sum_val_app, IH. simpl. lra.
Qed.

Lemma sum_div (total : R) (ps : list R) :
  fold_right Rplus 0 (map val (map (fun p => Fin (p / total)) ps))
  = fold_right Rplus 0 ps / total.
Proof.
  induction ps as [| p ps IH]; simpl; [lra |]. rewrite IH. lra.
Qed.

Lemma sum_phi_pos (sigma : Q) (xs : list Z) :
  xs <> [] -> 0 < fold_right Rplus 0 (map (phi sigma) xs).
Proof.
  induction xs as [| x xs IH]; [congruence |]. intros _. simpl.
  pose proof (phi_pos sigma x) as Hx.
  destruct xs as [| y xs]; [simpl; lra |].
  specialize (IH ltac:(discriminate)). lra.
Qed.

Lemma kernel_finite (sigma : Q) (radius : nat) (w : float) :
  In w (rev (gaussian_kernel1d sigma radius)) -> is_finite w = true.
Proof.
  intros H. apply in_rev in H. unfold gaussian_kernel1d in H.
  apply in_map_iff in H. now destruct H as (p & <- & _).
Qed.

Lemma kernel_sum (sigma : Q) (radius : nat) :
  fold_right Rplus 0 (map val (rev (gaussian_kernel1d sigma radius))) = 1.
Proof.
  rewrite sum_val_rev. unfold gaussian_kernel1d. rewrite sum_div.
  assert (H : 0 < fold_right Rplus 0 (map (phi sigma) (arange radius))).
  { apply sum_phi_pos. unfold arange.
    replace (2 * radius + 1)%nat with (S (2 * radius)) by lia. discriminate. }
  now field_simplify_eq; [| lra].
Qed.

Lemma map_nth_all {A B : Type} (F : A -> B) (l : list A) (d : A) :
  map (fun j => F (nth j l d)) (seq 0 (length l)) = map F l.
Proof.
  apply nth_ext with (d := F d) (d' := F d).
  - now rewrite !length_map, length_seq.
  - intros n Hn. rewrite length_map, length_seq in Hn.
    rewrite nth_map_seq by assumption. symmetry. now apply nth_map_in.
Qed.

End KernelWeights.

(** ** Bounds on the pressure of the surfaces *)

Section PressureBounds.
Import NumPy SciPy Pint MetPy Overlay.

Lemma fexp_not_negative (s : float) : ~ flt (fexp s) (Fin 0).
Proof.
  destruct s as [| [|] | | r]; simpl; try tauto; try lra.
  pose proof (exp_pos r). lra.
Qed.

Lemma less_or_close_nan (p : float) : less_or_close p NaN = false.
Proof. unfold less_or_close. destruct p as [| [|] | | r]; reflexivity. Qed.

Lemma fill_cell_bound (pmax : float) (solved : list float) (c : Cell) :
  let p := snd (fill_cell pmax solved c) in
  is_nan p = true
  \/ (is_nan pmax = false /\ less_or_close p pmax = true
      /\ ~ flt p (Fin 0)).
Proof.
  unfold fill_cell. destruct (good c); [| now left].
  destruct solved as [| s solved']; [now left |].
  cbn [snd]. destruct (less_or_close (fexp s) pmax) eqn:E; [| now left].
  right. split; [| split; [exact E | apply fexp_not_negative]].
  destruct pmax; try reflexivity. now rewrite less_or_close_nan in E.
Qed.

Lemma cell3_fill_inv (pmax : float) (solved : list float)
  (cells : list (list (list Cell))) (l i j : nat) (p : float) :
  cell3 (fill pmax solved cells) l i j = Some p ->
  exists s' c, p = snd (fill_cell pmax s' c).
Proof.
  unfold cell3, cell, fill. intros H.
  destruct (nth_error _ l) as [lvl |] eqn:El; [| discriminate].
  destruct (nth_error lvl i) as [row |] eqn:Ei; [| discriminate].
  apply nth_error_In in El, Ei, H.
  apply map_accum_In in El. destruct El as (s1 & lvl0 & _ & ->).
  apply map_accum_In in Ei. destruct Ei as (s2 & row0 & _ & ->).
  apply map_accum_In in H. destruct H as (s3 & c & _ & ->).
  now exists s3, c.
Qed.

(** X17.  The pressure of an isentropic surface is never negative and
    never lies beyond the largest pressure of the level axis (up to the
    tolerance of [np.isclose]): every cell of the returned pressure is
    either NaN or within these bounds, the largest pressure being taken
    over the level axis in hPa. *)
Theorem isentropic_pressure_bounds (levels : list float)
  (pressure : Quantity (list float)) (temperature : Quantity array3)
  (args : list (Quantity array3)) (out : list (Quantity array3))
  (Hrun : isentropic_interpolation levels pressure temperature args = Ok out) :
  exists (prs : Quantity array3) (others : list (Quantity array3))
         (s : Sorted) (pmax : float),
    out = prs :: others /\
    sort_input pressure temperature = Some s /\
    max (pres_hPa s) = Some pmax /\
    forall (l i j : nat) (p : float),
      cell3 (magnitude prs) l i j = Some p ->
      is_nan p = true
      \/ (In pmax (pres_hPa s) /\ less_or_close p pmax = true
          /\ ~ flt p (Fin 0)).
Proof.
  destruct (isentropic_interpolation_inv _ _ _ _ _ Hrun)
    as (s & pmax & solved & Hs & _ & Hmax & ->).
  eexists. eexists. exists s, pmax.
  split; [reflexivity |]. split; [exact Hs |]. split; [exact Hmax |].
  intros l i j p Hp. cbn [magnitude] in Hp.
  apply cell3_fill_inv in Hp. destruct Hp as (s' & c & ->).
  destruct (fill_cell_bound pmax s' c) as [H | (Hn & Hle & Hpos)];
    [now left | right].
  split; [| split; assumption].
  destruct (max_cases _ _ Hmax) as [-> | Hin]; [discriminate | assumption].
Qed.

Lemma isentropic_pressure_bounds_witness :
  exists (out : list (Quantity array3)) (prs : Quantity array3)
         (others : list (Quantity array3)) (s : Sorted) (pmax : float),
    isentropic_interpolation isentlevs (pres Samples.stratosphere)
      (tmpk Samples.stratosphere)
      [uwnd Samples.stratosphere; vwnd Samples.stratosphere] = Ok out /\
    out = prs :: others /\
    max (pres_hPa s) = Some pmax /\
    forall (l i j : nat) (p : float),
      cell3 (magnitude prs) l i j = Some p ->
      is_nan p = true
      \/ (In pmax (pres_hPa s) /\ less_or_close p pmax = true
          /\ ~ flt p (Fin 0)).
Proof.
  destruct stratosphere_returns as [out Hout].
  destruct (isentropic_pressure_bounds _ _ _ _ _ Hout)
    as (prs & others & s & pmax & Ho & _ & Hm & Hb).
  exists out, prs, others, s, pmax. repeat split; assumption.
Defined.

End PressureBounds.

(** ** The order of the level axis *)

Section LevelOrderFacts.
Import NumPy SciPy Pint MetPy Overlay LevelOrder.

Lemma insert_by_last (key : nat -> float) (i : nat) (l : list nat) :
  (forall j, In j l -> sort_le (key i) (key j) = false) ->
  insert_by key i l = l ++ [i].
Proof.
  induction l as [| j l IH]; intros H; simpl; [reflexivity |].
  rewrite (H j (or_introl eq_refl)). f_equal. apply IH.
  intros k Hk. apply H. now right.
Qed.

Lemma argsort_descending (a : list float) :
  (forall i j, (i < j < length a)%nat ->
               flt (nth j a NaN) (nth i a NaN)) ->
  argsort a = rev (seq 0 (length a)).
Proof.
  intros Ha. unfold argsort.
  set (key := fun i : nat => nth i a NaN).
  assert (H : forall m s, (s + m <= length a)%nat ->
                fold_right (insert_by key) [] (seq s m) = rev (seq s m)).
  { induction m as [| m IH]; intros s Hs; [reflexivity |].
    cbn [seq fold_right rev]. rewrite IH by lia.
    apply insert_by_last. intros j Hj. apply in_rev, in_seq in Hj.
    assert (Hlt : flt (key j) (key s)) by (apply Ha; lia).
    unfold sort_le. rewrite (flt_not_nan_l _ _ Hlt).
    now apply flt_fleb_false. }
  apply H. lia.
Qed.

Lemma strictly_ascending (a : list float) :
  (forall i j, (i < j < length a)%nat ->
               flt (nth i a NaN) (nth j a NaN)) ->
  ascending a.
Proof. intros Ha i j Hij. now apply flt_fleb_true, Ha. Qed.

Lemma rev_descending (a : list float) :
  (forall i j, (i < j < length a)%nat ->
               flt (nth i a NaN) (nth j a NaN)) ->
  forall i j, (i < j < length (rev a))%nat ->
              flt (nth j (rev a) NaN) (nth i (rev a) NaN).
Proof.
  intros Ha i j Hij. rewrite length_rev in Hij.
  rewrite !rev_nth by lia. apply Ha. lia.
Qed.

Lemma take_seq_length {A : Type} (d : A) (a : list A) (n : nat) :
  length a = n -> take d a (seq 0 n) = a.
Proof. intros <-. apply take_seq. Qed.

Lemma take_rev_seq {A : Type} (d : A) (a : list A) (n : nat) :
  length a = n -> take d a (rev (seq 0 n)) = rev a.
Proof.
  intros <-. unfold take. rewrite map_rev. f_equal. apply take_seq.
Qed.

(** The largest of strictly ascending values is the last one, whichever
    way the list is read. *)
Lemma fold_left_fmax_In (l : list float) (x : float) :
  (forall y, In y (x :: l) -> is_nan y = false) ->
  In (fold_left fmax l x) (x :: l).
Proof.
  revert x. induction l as [| y l IH]; intros x H; [now left |].
  cbn [fold_left].
  assert (Hx : is_nan x = false) by (apply H; now left).
  assert (Hy : is_nan y = false) by (apply H; right; now left).
  assert (E : fmax x y = x \/ fmax x y = y).
  { unfold fmax. destruct x, y; try discriminate;
      destruct (fltb _ _); auto. }
  assert (Hin : In (fold_left fmax l (fmax x y)) (fmax x y :: l)).
  { apply IH. intros z [<- | Hz].
    - destruct E as [-> | ->]; assumption.
    - apply H. right. now right. }
  destruct Hin as [Hin | Hin].
  - rewrite <- Hin. destruct E as [-> | ->]; [now left | right; now left].
  - right. now right.
Qed.

Lemma fmax_flt (x y : float) : flt x y -> fmax x y = y.
Proof.
  intros H. unfold fmax. rewrite (flt_fltb_true _ _ H).
  pose proof (flt_not_nan_l _ _ H). pose proof (flt_not_nan_r _ _ H).
  destruct x, y; try discriminate; reflexivity.
Qed.

Lemma fmax_flt_l (x y : float) : flt y x -> fmax x y = x.
Proof.
  intros H. unfold fmax. rewrite (flt_fltb_false _ _ H).
  pose proof (flt_not_nan_l _ _ H). pose proof (flt_not_nan_r _ _ H).
  destruct x, y; try discriminate; reflexivity.
Qed.

Lemma fold_left_fmax_top (l : list float) (x : float) :
  (forall y, In y l -> flt y x) -> fold_left fmax l x = x.
Proof.
  induction l as [| y l IH]; intros H; [reflexivity |].
  cbn [fold_left]. rewrite fmax_flt_l by (apply H; now left).
  apply IH. intros z Hz. apply H. now right.
Qed.

Lemma max_snoc (l : list float) (x : float) :
  (forall y, In y l -> flt y x) ->
  max (l ++ [x]) = Some x /\ max (rev (l ++ [x])) = Some x.
Proof.
  intros H. split.
  - destruct l as [| h l']; [reflexivity |].
    cbn [app max]. rewrite fold_left_app. cbn [fold_left]. f_equal.
    apply fmax_flt, H. apply fold_left_fmax_In.
    intros y Hy. apply (flt_not_nan_l y x), H, Hy.
  - rewrite rev_app_distr. cbn [rev app max]. f_equal.
    apply fold_left_fmax_top. intros y Hy. apply H. now apply in_rev.
Qed.

Lemma max_rev_ascending (a : list float) :
  (forall i j, (i < j < length a)%nat ->
               flt (nth i a NaN) (nth j a NaN)) ->
  max (rev a) = max a.
Proof.
  intros Ha. destruct a as [| h t] eqn:E; [reflexivity |].
  rewrite <- E in *.
  assert (Hne : a <> []) by (rewrite E; discriminate).
  pose proof (app_removelast_last NaN Hne) as Hsplit.
  set (l := removelast a) in *. set (x := last a NaN) in *.
  assert (H : forall y, In y l -> flt y x).
  { intros y Hy. apply (In_nth _ _ NaN) in Hy. destruct Hy as (i & Hi & <-).
    assert (Hlen : length a = S (length l))
      by (rewrite Hsplit, length_app; simpl; lia).
    specialize (Ha i (length l) ltac:(lia)).
    rewrite Hsplit in Ha. rewrite app_nth1 in Ha by assumption.
    now rewrite nth_middle in Ha. }
  rewrite Hsplit. destruct (max_snoc l x H) as [-> ->]. reflexivity.
Qed.

(** *** Unit conversion and reversal *)

Lemma to_reversed_map (q : Quantity (list float)) (dst : Unit) :
  to (@map float float) (reversed q) dst
  = option_map reversed (to (@map float float) q dst).
Proof.
  unfold to, reversed. cbn [units magnitude].
  destruct (Unit_eqb _ _); [reflexivity |].
  destruct (factor _ _); [| reflexivity].
  cbn [option_map magnitude units]. now rewrite map_rev.
Qed.

Lemma to_reversed_map3d (q : Quantity array3) (dst : Unit) :
  to map3d (reversed q) dst = option_map reversed (to map3d q dst).
Proof.
  unfold to, reversed. cbn [units magnitude].
  destruct (Unit_eqb _ _); [reflexivity |].
  destruct (factor _ _); [| reflexivity].
  cbn [option_map magnitude units]. unfold map3d. now rewrite map_rev.
Qed.

Lemma factor_pos (src dst : Unit) (k : R) : factor src dst = Some k -> 0 < k.
Proof.
  unfold factor. destruct (Dimension_eqb _ _); [| discriminate].
  intros [= <-]. apply Rdiv_lt_0_compat; destruct src, dst; simpl; lra.
Qed.

Lemma fmul_Inf_pos (s : bool) (k : R) :
  0 < k -> fmul (Inf s) (Fin k) = Inf s.
Proof.
  intros Hk. simpl. rewrite Reqb_false, Rltb_false by lra.
  now destruct s.
Qed.

Lemma fmul_finite_pos (z : float) (k : R) :
  is_finite z = true ->
  is_finite (fmul z (Fin k)) = true /\ val (fmul z (Fin k)) = val z * k.
Proof.
  intros Hz. destruct z; try discriminate; simpl;
    split; try apply is_finite_signed; apply val_signed.
Qed.

Lemma flt_ninf_finite (w : float) : is_finite w = true -> flt (Inf true) w.
Proof. destruct w; try discriminate; intros _; exact I. Qed.

Lemma flt_finite_pinf (w : float) : is_finite w = true -> flt w (Inf false).
Proof. destruct w; try discriminate; intros _; exact I. Qed.

Lemma fmul_pos_flt (k : R) (x y : float) :
  0 < k -> flt x y -> flt (fmul x (Fin k)) (fmul y (Fin k)).
Proof.
  intros Hk H.
  destruct (is_finite x) eqn:Fx, (is_finite y) eqn:Fy.
  - destruct (fmul_finite_pos x k Fx) as [F1 V1].
    destruct (fmul_finite_pos y k Fy) as [F2 V2].
    apply flt_finite; try assumption. rewrite V1, V2.
    apply (flt_finite x y Fx Fy) in H. nra.
  - destruct (fmul_finite_pos x k Fx) as [F1 _].
    destruct y as [| [|] | |]; try discriminate.
    + destruct x; simpl in H; try discriminate; contradiction.
    + destruct x; simpl in H; try discriminate; contradiction.
    + rewrite fmul_Inf_pos by assumption. now apply flt_finite_pinf.
  - destruct (fmul_finite_pos y k Fy) as [F2 _].
    destruct x as [| [|] | |]; try discriminate.
    + simpl in H. contradiction.
    + rewrite fmul_Inf_pos by assumption. now apply flt_ninf_finite.
    + destruct y; simpl in H; try discriminate; contradiction.
  - destruct x as [| [|] | |], y as [| [|] | |]; try discriminate;
      simpl in H; try contradiction.
    rewrite !fmul_Inf_pos by assumption. exact I.
Qed.

Lemma to_ascending (q q' : Quantity (list float)) (dst : Unit) :
  to (@map float float) q dst = Some q' ->
  (forall i j, (i < j < length (magnitude q))%nat ->
               flt (nth i (magnitude q) NaN) (nth j (magnitude q) NaN)) ->
  length (magnitude q') = length (magnitude q) /\
  (forall i j, (i < j < length (magnitude q'))%nat ->
               flt (nth i (magnitude q') NaN) (nth j (magnitude q') NaN)).
Proof.
  unfold to. destruct (Unit_eqb _ _); [intros [= <-]; now split |].
  destruct (factor _ _) as [k |] eqn:Ek; [| discriminate].
  intros [= <-] Ha. cbn [magnitude]. rewrite length_map.
  split; [reflexivity |]. intros i j Hij.
  rewrite !(nth_map_in _ _ _ _ NaN) by lia.
  apply fmul_pos_flt; [now apply (factor_pos _ _ _ Ek) | now apply Ha].
Qed.

Lemma to_map3d_length (q q' : Quantity array3) (dst : Unit) :
  to map3d q dst = Some q' -> length (magnitude q') = length (magnitude q).
Proof.
  unfold to. destruct (Unit_eqb _ _); [now intros [= <-] |].
  destruct (factor _ _); [| discriminate].
  intros [= <-]. apply length_map.
Qed.

Lemma combine_app_eq {A B : Type} (a a' : list A) (b b' : list B) :
  length a = length b ->
  combine (a ++ a') (b ++ b') = combine a b ++ combine a' b'.
Proof.
  revert b. induction a as [| x a IH]; intros [| y b] H; simpl in *;
    try discriminate; [reflexivity |].
  f_equal. apply IH. lia.
Qed.

Lemma combine_rev {A B : Type} (a : list A) (b : list B) :
  length a = length b -> combine (rev a) (rev b) = rev (combine a b).
Proof.
  revert b. induction a as [| x a IH]; intros [| y b] H; simpl in *;
    try discriminate; [reflexivity |].
  rewrite combine_app_eq by (rewrite !length_rev; lia).
  rewrite IH by lia. reflexivity.
Qed.

Lemma forallb_rev {A : Type} (f : A -> bool) (l : list A) :
  forallb f (rev l) = forallb f l.
Proof.
  induction l as [| x l IH]; [reflexivity |].
  cbn [rev forallb]. rewrite forallb_app, IH. cbn [forallb].
  rewrite andb_true_r. apply andb_comm.
Qed.

Lemma covers_rev (a t : array3) :
  length a = length t -> covers (rev a) (rev t) = covers a t.
Proof.
  intros H. unfold covers. rewrite !length_rev.
  now rewrite combine_rev, forallb_rev.
Qed.

(** X18.  The routine handles both orders of the level axis: for a
    strictly ascending pressure axis, giving the pressure, the temperature
    and the other fields with their levels reversed (descending pressure)
    gives the very same result, exceptions included. *)
Theorem isentropic_interpolation_level_order (levels : list float)
  (pressure : Quantity (list float)) (temperature : Quantity array3)
  (args : list (Quantity array3))
  (Hasc : forall i j, (i < j < length (magnitude pressure))%nat ->
            flt (nth i (magnitude pressure) NaN)
                (nth j (magnitude pressure) NaN))
  (Hlen : length (magnitude temperature) = length (magnitude pressure))
  (Hargs : forall a, In a args ->
                     length (magnitude a) = length (magnitude pressure)) :
  isentropic_interpolation levels (reversed pressure) (reversed temperature)
    (map reversed args)
  = isentropic_interpolation levels pressure temperature args.
Proof.
  unfold isentropic_interpolation, sort_input.
  rewrite to_reversed_map, to_reversed_map3d.
  destruct (to (@map float float) pressure hectopascal) as [p' |] eqn:Ep;
    [| reflexivity].
  destruct (to map3d temperature kelvin) as [t' |] eqn:Et; [| reflexivity].
  cbn [option_map].
  destruct (to_ascending _ _ _ Ep Hasc) as [Hlp Hasc'].
  pose proof (to_map3d_length _ _ _ Et) as Hlt.
  unfold reversed. cbn [magnitude units]. unfold array3 in *.
  set (P := magnitude p') in *. set (T := magnitude t') in *.
  assert (En : length T = length P) by lia.
  assert (Eb1 : broadcast_levels (rev P) (length (rev T)) = Some (rev P)).
  { unfold broadcast_levels. now rewrite !length_rev, En, Nat.eqb_refl. }
  assert (Eb2 : broadcast_levels P (length T) = Some P).
  { unfold broadcast_levels. now rewrite En, Nat.eqb_refl. }
  rewrite Eb1, Eb2. cbv beta iota.
  cbn [pres_hPa sorter levs tmpk_cols theta_cols].
  rewrite (argsort_descending (rev P)) by (apply rev_descending; exact Hasc').
  rewrite length_rev, rev_involutive.
  rewrite (argsort_ascending P) by (apply strictly_ascending; exact Hasc').
  rewrite (take_seq_length NaN (rev P)) by apply length_rev.
  rewrite (take_seq_length [] (rev T)) by (rewrite length_rev; exact En).
  rewrite (take_rev_seq NaN P) by reflexivity.
  rewrite (take_rev_seq [] T) by exact En.
  rewrite max_rev_ascending by exact Hasc'.
  match goal with
  | |- context [forallb ?f (map ?g args)] =>
      assert (Ec : forallb f (map g args)
                   = forallb (fun a => covers (magnitude a)
                                         (magnitude temperature)) args)
  end.
  { clear - Hargs Hlen. induction args as [| a args IH]; [reflexivity |].
    cbn [map forallb magnitude].
    rewrite covers_rev
      by (rewrite Hlen; apply Hargs; now left).
    rewrite IH by (intros b Hb; apply Hargs; now right). reflexivity. }
  rewrite Ec. clear Ec.
  match goal with
  | |- context [@map ?A ?B (interpolate_arg ?isl ?so ?th)
                  (@map ?C ?D ?g args)] =>
      assert (Em : @map A B (interpolate_arg isl so th) (@map C D g args)
                   = @map A B
                       (interpolate_arg isl (rev (seq 0 (length P))) th)
                       args)
  end.
  { rewrite map_map. apply map_ext_in. intros a Ha.
    assert (Hla : length (magnitude a) = length P)
      by (rewrite Hlp; apply Hargs, Ha).
    unfold interpolate_arg. cbn [magnitude units].
    rewrite take_seq_length by (rewrite length_rev; exact Hla).
    rewrite take_rev_seq by exact Hla.
    reflexivity. }
  rewrite Em. reflexivity.
Qed.

Lemma isentropic_interpolation_level_order_witness :
  isentropic_interpolation isentlevs
    (reversed (pres Analyses.stratosphere_up))
    (reversed (tmpk Analyses.stratosphere_up))
    (map reversed [uwnd Analyses.stratosphere_up;
                   vwnd Analyses.stratosphere_up])
  = isentropic_interpolation isentlevs
      (pres Analyses.stratosphere_up) (tmpk Analyses.stratosphere_up)
      [uwnd Analyses.stratosphere_up; vwnd Analyses.stratosphere_up].
Proof.
  apply (isentropic_interpolation_level_order isentlevs).
  - intros i j Hij. cbn [Analyses.stratosphere_up pres magnitude length] in *.
    assert (E : i = 0%nat /\ j = 1%nat) by lia. destruct E as [-> ->].
    simpl. lra.
  - reflexivity.
  - intros a [<- | [<- | []]]; reflexivity.
Defined.

End LevelOrderFacts.

(** ** Smoothing a bounded field *)

Section SmoothingRange.
Import NumPy SciPy Shape Range.

Variables lo hi : R.

Lemma kernel_nonneg (sigma : Q) (radius : nat) (w : float) :
  In w (rev (gaussian_kernel1d sigma radius)) -> 0 <= val w.
Proof.
  intros H. apply in_rev in H. unfold gaussian_kernel1d in H.
  apply in_map_iff in H. destruct H as (p & <- & Hp).
  apply in_map_iff in Hp. destruct Hp as (x & <- & Hx).
  assert (Ht : 0 < fold_right Rplus 0 (map (phi sigma) (arange radius))).
  { apply sum_phi_pos. intros E. now rewrite E in Hx. }
  simpl. apply Rlt_le, Rdiv_lt_0_compat; [apply phi_pos | assumption].
Qed.

(** A weighted mean with weights that are not negative lies between the
    bounds of what it averages. *)
Lemma weighted_sum_bounds (w y : nat -> float) (js : list nat) :
  (forall j, In j js -> is_finite (w j) = true /\ 0 <= val (w j)) ->
  (forall j, In j js -> within lo hi (y j)) ->
  let terms := map (fun j => fmul (w j) (y j)) js in
  let total := fold_right Rplus 0 (map (fun j => val (w j)) js) in
  (forall t, In t terms -> is_finite t = true) /\
  lo * total <= fold_right Rplus 0 (map val terms) <= hi * total.
Proof.
  induction js as [| j js IH]; intros Hw Hy; cbn zeta.
  - split; [intros t [] | simpl; lra].
  - destruct IH as [IHf IHb];
      [intros k Hk; apply Hw; now right
      | intros k Hk; apply Hy; now right |].
    destruct (Hw j (or_introl eq_refl)) as [Fw Pw].
    destruct (Hy j (or_introl eq_refl)) as [Fy By].
    assert (Ht : finval (fmul (w j) (y j)) (val (w j) * val (y j)))
      by (apply finval_fmul; now split).
    destruct Ht as [Ft Vt]. split.
    + intros t [<- | Ht]; [exact Ft | now apply IHf].
    + cbn [map fold_right]. rewrite Vt. cbn zeta in IHb. nra.
Qed.

Lemma correlate1d_within (input ws : list float) :
  (forall w, In w ws -> is_finite w = true /\ 0 <= val w) ->
  fold_right Rplus 0 (map val ws) = 1 ->
  (forall x, In x input -> within lo hi x) ->
  forall z, In z (correlate1d input ws) -> within lo hi z.
Proof.
  intros Hw Hsum Hin z Hz. unfold correlate1d in Hz.
  apply in_map_iff in Hz. destruct Hz as (i & <- & Hi). apply in_seq in Hi.
  set (n := length input) in *.
  set (y := fun j => nth (reflect n (Z.of_nat i + Z.of_nat j
                                     - Z.of_nat (length ws / 2)))
                         input NaN).
  destruct (weighted_sum_bounds (fun j => nth j ws NaN) y
              (seq 0 (length ws))) as [Hf Hb].
  - intros j Hj. apply in_seq in Hj. apply Hw, nth_In. lia.
  - intros j Hj. apply Hin, nth_In. apply reflect_lt. lia.
  - cbn zeta in Hb.
    rewrite <- (map_map (fun j => nth j ws NaN) val) in Hb.
    rewrite (map_nth_all (fun w => w) ws NaN), map_id, Hsum in Hb.
    unfold fsum. rewrite fold_left_fadd_finite by exact Hf.
    split; [reflexivity |]. unfold y in Hb.
    change (val (Fin ?r)) with r. lra.
Qed.

Lemma gaussian_filter1d_within (sigma : Q) (input : list float) :
  (forall x, In x input -> within lo hi x) ->
  forall z, In z (gaussian_filter1d sigma input) -> within lo hi z.
Proof.
  unfold gaussian_filter1d. apply correlate1d_within.
  - intros w Hw. split; [now apply kernel_finite in Hw
                        | now apply kernel_nonneg in Hw].
  - apply kernel_sum.
Qed.

Lemma transpose_within (I J : nat) (g : list (list float)) :
  has_shape2 I J g = true ->
  (forall r, In r g -> forall x, In x r -> within lo hi x) ->
  forall r, In r (transpose NaN g) -> forall x, In x r -> within lo hi x.
Proof.
  rewrite has_shape2_iff. intros [H1 H2] Hg r Hr x Hx.
  destruct g as [| r0 g']; [contradiction |].
  unfold transpose in Hr. apply in_map_iff in Hr.
  destruct Hr as (j & <- & Hj). apply in_seq in Hj.
  apply in_map_iff in Hx. destruct Hx as (r1 & <- & Hr1).
  apply (Hg r1 Hr1), nth_In.
  rewrite (H2 r1 Hr1), <- (H2 r0 (or_introl eq_refl)). lia.
Qed.

Lemma columns_within (K I J : nat) (a : array3) :
  has_shape3 K I J a = true -> all_within lo hi a ->
  forall row, In row (columns NaN a) -> forall col, In col row ->
  forall x, In x col -> within lo hi x.
Proof.
  rewrite has_shape3_iff. intros [H1 H2] Ha row Hrow col Hcol x Hx.
  destruct a as [| l0 a']; [contradiction |].
  unfold columns in Hrow. apply in_map_iff in Hrow.
  destruct Hrow as (i & <- & Hi). apply in_seq in Hi.
  apply in_map_iff in Hcol. destruct Hcol as (j & <- & Hj). apply in_seq in Hj.
  apply in_map_iff in Hx. destruct Hx as (lvl & <- & Hlvl).
  pose proof (H2 l0 (or_introl eq_refl)) as S0. apply has_shape2_iff in S0.
  pose proof (H2 lvl Hlvl) as S1. apply has_shape2_iff in S1.
  destruct S0 as [L0 R0], S1 as [L1 R1].
  assert (Hin0 : In (nth i l0 []) l0) by (apply nth_In; lia).
  assert (Hin1 : In (nth i lvl []) lvl) by (apply nth_In; lia).
  apply (Ha lvl Hlvl (nth i lvl []) Hin1), nth_In.
  rewrite (R1 _ Hin1), <- (R0 _ Hin0). lia.
Qed.

Lemma from_columns_within (K : nat) (g : list (list (list float))) :
  (forall row, In row g -> forall col, In col row ->
     length col = K /\ forall x, In x col -> within lo hi x) ->
  all_within lo hi (from_columns NaN K g).
Proof.
  intros Hg lvl Hlvl row Hrow x Hx. unfold from_columns in Hlvl.
  apply in_map_iff in Hlvl. destruct Hlvl as (l & <- & Hl). apply in_seq in Hl.
  apply in_map_iff in Hrow. destruct Hrow as (grow & <- & Hgrow).
  apply in_map_iff in Hx. destruct Hx as (prof & <- & Hprof).
  destruct (Hg grow Hgrow prof Hprof) as [Hlen Hp].
  apply Hp, nth_In. lia.
Qed.

Lemma along_axis0_within (f : list float -> list float) (K I J : nat)
  (a : array3) :
  (forall l, length (f l) = length l) ->
  (forall l, (forall x, In x l -> within lo hi x) ->
             forall z, In z (f l) -> within lo hi z) ->
  has_shape3 K I J a = true -> all_within lo hi a ->
  all_within lo hi (along_axis0 f a).
Proof.
  intros Hlen Hf Hs Ha. unfold along_axis0.
  assert (HK : length a = K) by now apply has_shape3_iff in Hs.
  rewrite HK. destruct K as [| K'].
  - intros lvl [].
  - apply from_columns_within. intros row Hrow col Hcol.
    apply in_map_iff in Hrow. destruct Hrow as (row0 & <- & Hrow0).
    apply in_map_iff in Hcol. destruct Hcol as (col0 & <- & Hcol0).
    destruct (columns_shape NaN (S K') I J a ltac:(lia) Hs) as [_ Hc].
    split.
    + rewrite Hlen. now apply (Hc row0).
    + apply Hf. now apply (columns_within (S K') I J a Hs Ha row0 Hrow0).
Qed.

Lemma along_axis1_within (f : list float -> list float) (K I J : nat)
  (a : array3) :
  (forall l, length (f l) = length l) ->
  (forall l, (forall x, In x l -> within lo hi x) ->
             forall z, In z (f l) -> within lo hi z) ->
  (1 <= I)%nat ->
  has_shape3 K I J a = true -> all_within lo hi a ->
  all_within lo hi (along_axis1 f a).
Proof.
  intros Hlen Hf HI Hs Ha lvl Hlvl. unfold along_axis1 in Hlvl.
  apply in_map_iff in Hlvl. destruct Hlvl as (lvl0 & <- & Hlvl0).
  assert (S0 : has_shape2 I J lvl0 = true)
    by (apply has_shape3_iff in Hs; now apply Hs).
  apply (transpose_within J I).
  - apply has_shape2_map with (J := I); [intros r Hr; now rewrite Hlen |].
    now apply transpose_shape.
  - intros r Hr. apply in_map_iff in Hr. destruct Hr as (r0 & <- & Hr0).
    apply Hf. now apply (transpose_within I J lvl0 S0 (Ha lvl0 Hlvl0)).
Qed.

Lemma along_axis2_within (f : list float -> list float) (a : array3) :
  (forall l, (forall x, In x l -> within lo hi x) ->
             forall z, In z (f l) -> within lo hi z) ->
  all_within lo hi a -> all_within lo hi (along_axis2 f a).
Proof.
  intros Hf Ha lvl Hlvl row Hrow. unfold along_axis2 in Hlvl.
  apply in_map_iff in Hlvl. destruct Hlvl as (lvl0 & <- & Hlvl0).
  apply in_map_iff in Hrow. destruct Hrow as (row0 & <- & Hrow0).
  apply Hf. now apply (Ha lvl0 Hlvl0).
Qed.

(** Over the exact values of the model the weights sum to one, and a
    field between [lo] and [hi] stays there.  In binary64 the weights sum
    to one up to rounding only, and so do the bounds: the lemma serves to
    exclude NaN and infinite cells from a smoothed field. *)
Lemma gaussian_filter_within (a : array3) (sigma : Q) (K I J : nat)
  (Hs : has_shape3 K I J a = true)
  (HI : (1 <= I)%nat) (HJ : (1 <= J)%nat)
  (Ha : all_within lo hi a) :
  all_within lo hi (gaussian_filter a sigma).
Proof.
  unfold gaussian_filter. destruct (Qlt_le_dec _ sigma); [| assumption].
  apply along_axis2_within; [apply gaussian_filter1d_within |].
  apply (along_axis1_within _ K I J);
    [apply length_gaussian_filter1d | apply gaussian_filter1d_within
    | assumption | now apply along_axis0_shape |].
  apply (along_axis0_within _ K I J);
    [apply length_gaussian_filter1d | apply gaussian_filter1d_within
    | assumption | assumption].
Qed.

End SmoothingRange.

Section SmoothingFinite.
Import NumPy SciPy Shape Range.

(** X20.  The notebook's call [gaussian_filter(_, sigma=1.0)] creates no
    NaN and no infinity: when every cell of a field of shape [(K, I, J)]
    with [I, J >= 1] is finite and of magnitude at most [10^6], every cell
    of the smoothed field is finite. *)
Theorem gaussian_filter_finite (a : array3) (K I J : nat)
  (Hs : has_shape3 K I J a = true)
  (HI : (1 <= I)%nat) (HJ : (1 <= J)%nat)
  (Ha : all_within (- 1000000) 1000000 a) :
  forall lvl, In lvl (gaussian_filter a 1) ->
  forall row, In row lvl ->
  forall x, In x row -> is_finite x = true.
Proof.
  intros lvl Hlvl row Hrow x Hx.
  now apply (gaussian_filter_within (- 1000000) 1000000 a 1 K I J
               Hs HI HJ Ha lvl Hlvl row Hrow x Hx).
Qed.

Lemma gaussian_filter_finite_witness :
  forallb (forallb (forallb is_finite)) (gaussian_filter Samples.field_b 1)
  = true.
Proof.
  assert (Ha : all_within (- 1000000) 1000000 Samples.field_b).
  { intros lvl Hl row Hr x Hx. unfold Samples.field_b in Hl.
    repeat (destruct Hl as [<- | Hl]; [destruct Hr as [<- | []];
      destruct Hx as [<- | []]; split; [reflexivity | simpl; lra] |]).
    destruct Hl. }
  pose proof (gaussian_filter_finite Samples.field_b 5 1 1
                eq_refl ltac:(lia) ltac:(lia) Ha) as H.
  apply forallb_forall. intros lvl Hlvl.
  apply forallb_forall. intros row Hrow.
  apply forallb_forall. intros x Hx.
  exact (H lvl Hlvl row Hrow x Hx).
Defined.

End SmoothingFinite.

(** ** Potential temperature *)

Section PotentialTemperature.
Import NumPy MetPy.

Lemma Rpower_one (y : R) : Rpower 1 y = 1.
Proof. unfold Rpower. now rewrite ln_1, Rmult_0_r, exp_0. Qed.

Lemma kappa_pos : 0 < kappa.
Proof. unfold kappa. lra. Qed.

Lemma div_by_smaller (t a b : R) : 0 < t -> 0 < a -> a <= b -> t / b <= t / a.
Proof.
  intros Ht Ha Hab. unfold Rdiv. apply Rmult_le_compat_l; [lra |].
  apply Rinv_le_contravar; assumption.
Qed.

Lemma exner_monotone (p p' : R) :
  0 < p -> p <= p' -> Rpower (p / P0) kappa <= Rpower (p' / P0) kappa.
Proof.
  intros Hp Hpp. pose proof kappa_pos as Hk.
  assert (H0 : 0 < P0) by (unfold P0; lra).
  apply Rle_Rpower_l; [lra |]. split.
  - now apply Rdiv_lt_0_compat.
  - unfold Rdiv. apply Rmult_le_compat_r; [| assumption].
    apply Rlt_le, Rinv_0_lt_compat. assumption.
Qed.

Lemma exner_reference : Rpower (P0 / P0) kappa = 1.
Proof.
  replace (P0 / P0) with 1 by (unfold P0; field). apply Rpower_one.
Qed.

(** X21.  The potential temperature of a positive temperature [t] at a
    positive pressure [p] (in hPa), [t / (p / 1000) ** kappa]: it is not
    NaN and not negative, it is [t] itself at 1000 hPa, not below [t] at
    lower pressures and not above it at higher ones; it does not increase
    when the pressure increases and does not decrease when the
    temperature increases. *)
Theorem potential_temperature_properties (p t : R)
  (Hp : 0 < p) (Ht : 0 < t) :
  is_nan (potential_temperature (Fin p) (Fin t)) = false /\
  ~ flt (potential_temperature (Fin p) (Fin t)) (Fin 0) /\
  (p = 1000 -> potential_temperature (Fin p) (Fin t) = Fin t) /\
  (p <= 1000 ->
   fleb (Fin t) (potential_temperature (Fin p) (Fin t)) = true) /\
  (1000 <= p ->
   fleb (potential_temperature (Fin p) (Fin t)) (Fin t) = true) /\
  (forall p' : R, p <= p' ->
     fleb (potential_temperature (Fin p') (Fin t))
          (potential_temperature (Fin p) (Fin t)) = true) /\
  (forall t' : R, t <= t' ->
     fleb (potential_temperature (Fin p) (Fin t))
          (potential_temperature (Fin p) (Fin t')) = true).
Proof.
  pose proof kappa_pos as Hk.
  assert (H0 : 0 < P0) by (unfold P0; lra).
  pose proof (Rpower_pos (p / P0) kappa) as Hx.
  pose proof exner_reference as H1.
  rewrite potential_temperature_pos by assumption.
  assert (Hth : 0 < t / Rpower (p / P0) kappa)
    by now apply Rdiv_lt_0_compat.
  split; [reflexivity |].
  split; [simpl; lra |].
  split; [| split; [| split; [| split]]].
  - intros ->. change 1000 with P0. rewrite H1. f_equal. field.
  - intros Hle. simpl. apply Rleb_true.
    pose proof (exner_monotone p P0 Hp Hle) as Hb. rewrite H1 in Hb.
    replace t with (t / 1) at 1 by field. now apply div_by_smaller.
  - intros Hge. simpl. apply Rleb_true.
    pose proof (exner_monotone P0 p H0 Hge) as Hb. rewrite H1 in Hb.
    replace t with (t / 1) at 2 by field. apply div_by_smaller; lra.
  - intros p' Hpp. rewrite potential_temperature_pos by lra.
    simpl. apply Rleb_true.
    apply div_by_smaller; [assumption | assumption |].
    now apply exner_monotone.
  - intros t' Htt. rewrite potential_temperature_pos by lra.
    simpl. apply Rleb_true.
    unfold Rdiv. apply Rmult_le_compat_r; [| assumption].
    now apply Rlt_le, Rinv_0_lt_compat.
Qed.

Lemma potential_temperature_properties_witness :
  is_nan (potential_temperature (Fin 500) (Fin 252)) = false /\
  fleb (Fin 252) (potential_temperature (Fin 500) (Fin 252)) = true.
Proof.
  destruct (potential_temperature_properties 500 252 ltac:(lra) ltac:(lra))
    as (Hn & _ & _ & Hle & _).
  split; [exact Hn | apply Hle; lra].
Defined.

End PotentialTemperature.

(** ** From radiance to emitted energy *)

Section EnergyOfRadiance.
Import NumPy Notebook.

(** X22.  The emitted energy computed from the water-vapour radiances,
    cell by cell (constants [fk1, fk2, bc2 > 0]): it is NaN exactly on the
    cells whose radiance is NaN, the negative zero or strictly between
    [-fk1] and [0], and it is never negative; at a radiance of exactly [0]
    the Planck temperature is [0] and the cell holds
    [5.67e-8 * ((0 - bc1) / bc2)**4]. *)
Theorem E_of_radiance (ds : Dataset) (i j : nat) (L : float)
  (fk1 fk2 bc1 bc2 : R)
  (HL : cell (Rad ds) i j = Some L)
  (E1 : planck_fk1 ds = Fin fk1) (E2 : planck_fk2 ds = Fin fk2)
  (E3 : planck_bc1 ds = Fin bc1) (E4 : planck_bc2 ds = Fin bc2)
  (H1 : 0 < fk1) (H2 : 0 < fk2) (H3 : 0 < bc2) :
  exists e : float,
    cell (E (wv_BT ds)) i j = Some e /\
    (is_nan e = true
     <-> (L = NaN \/ L = NZero \/ exists l, L = Fin l /\ - fk1 < l < 0)) /\
    ~ flt e (Fin 0) /\
    (L = Fin 0 ->
     e = fmul sb_constant
           (fpow (fdiv (fsub (Fin 0) (Fin bc1)) (Fin bc2)) 4)).
Proof.
  assert (Hb : bc2 <> 0) by lra.
  set (w := wv_BT_cell (Fin fk1) (Fin fk2) (Fin bc1) (Fin bc2) L).
  exists (fmul sb_constant (fpow w 4)).
  split; [| split; [| split]].
  - rewrite cell_E, cell_wv_BT, HL, E1, E2, E3, E4. reflexivity.
  - rewrite E_cell_nan. unfold w. rewrite wv_BT_cell_nan by assumption.
    now apply ir_BT_cell_nan_iff.
  - apply E_cell_not_negative.
  - intros EL. unfold w, wv_BT_cell. rewrite EL.
    now rewrite T_cell_zero.
Qed.

Lemma E_of_radiance_witness :
  exists e : float,
    cell (E (wv_BT Samples.ds0)) 0 1 = Some e /\
    ~ flt e (Fin 0) /\
    e = fmul sb_constant
          (fpow (fdiv (fsub (Fin 0) (Fin (1 / 2))) (Fin (99 / 100))) 4).
Proof.
  destruct (E_of_radiance Samples.ds0 0 1 (Fin 0) 2 3700 (1 / 2) (99 / 100)
              eq_refl eq_refl eq_refl eq_refl eq_refl
              ltac:(lra) ltac:(lra) ltac:(lra))
    as (e & Hc & _ & Hn & Hz).
  exists e. split; [exact Hc | split; [exact Hn | now apply Hz]].
Defined.

End EnergyOfRadiance.

(** ** The layer that brackets a level *)

Section BoundingLayer.
Import NumPy MetPy.

Lemma argmax_spec (sw : list bool) :
  existsb (fun x => x) sw = true ->
  (argmax sw < length sw)%nat /\
  nth (argmax sw) sw false = true /\
  forall j, (j < argmax sw)%nat -> nth j sw false = false.
Proof.
  induction sw as [| [|] sw IH]; intros H; [discriminate | |].
  - cbn. split; [lia |]. split; [reflexivity |]. intros j Hj. lia.
  - cbn [existsb orb] in H. cbn [argmax]. rewrite H.
    destruct (IH H) as (H1 & H2 & H3).
    split; [cbn [length]; lia |]. split; [exact H2 |].
    intros [| j] Hj; [reflexivity |]. apply H3. lia.
Qed.

Lemma length_switches (b : list bool) :
  length (switches b) = (length b - 1)%nat.
Proof.
  induction b as [| x [| y b'] IH]; try reflexivity.
  change (switches (x :: y :: b')) with (xorb x y :: switches (y :: b')).
  cbn [length] in *. rewrite IH. lia.
Qed.

Lemma nth_switches (b : list bool) (k : nat) :
  (S k < length b)%nat ->
  nth k (switches b) false = xorb (nth k b false) (nth (S k) b false).
Proof.
  revert k. induction b as [| x [| y b'] IH]; intros k Hk;
    try (cbn [length] in Hk; lia).
  change (switches (x :: y :: b')) with (xorb x y :: switches (y :: b')).
  destruct k as [| k']; [reflexivity |].
  cbn [nth]. rewrite IH by (cbn [length] in *; lia). reflexivity.
Qed.

(** X23.  On a column of two points or more, the search from below
    brackets a level by the lowest layer across which the profile passes
    it: when the search is good, the
    returned index [k] is at least 1 and inside the column, the
    comparison [arr <= value] differs between the points [k - 1] and
    [k], and it is the same at every point below [k]; the search is not
    good exactly when the comparison never changes along the column. *)
Theorem find_bounding_index_lowest (arr : list float) (value : float)
  (Hlen2 : (2 <= length arr)%nat) :
  (forall k : nat,
     find_bounding_index arr value = (k, true) ->
     (1 <= k < length arr)%nat /\
     fleb (nth (k - 1) arr NaN) value <> fleb (nth k arr NaN) value /\
     forall j, (j < k)%nat ->
               fleb (nth j arr NaN) value = fleb (nth 0 arr NaN) value) /\
  (snd (find_bounding_index arr value) = false ->
   fst (find_bounding_index arr value) = 0%nat /\
   forall j, (j < length arr)%nat ->
             fleb (nth j arr NaN) value = fleb (nth 0 arr NaN) value).
Proof.
  set (b := map (fun t => fleb t value) arr).
  assert (Hb : forall j, nth j b false = fleb (nth j arr NaN) value).
  { intros j. unfold b.
    change false with ((fun t => fleb t value) NaN). apply map_nth. }
  assert (Hlen : length b = length arr) by apply length_map.
  assert (Hsame : forall k, (k <= length (switches b))%nat ->
            (forall j, (j < k)%nat -> nth j (switches b) false = false) ->
            forall j, (j <= k)%nat ->
                      fleb (nth j arr NaN) value = fleb (nth 0 arr NaN) value).
  { intros k Hk Hno j. induction j as [| j IH]; intros Hj; [reflexivity |].
    rewrite <- IH by lia.
    pose proof (Hno j ltac:(lia)) as Hx.
    rewrite length_switches in Hk.
    rewrite nth_switches, !Hb in Hx by lia.
    destruct (fleb (nth j arr NaN) value), (fleb (nth (S j) arr NaN) value);
      simpl in Hx; congruence. }
  unfold find_bounding_index. fold b. cbn zeta. split.
  - intros k Hk.
    destruct (existsb (fun x => x) (switches b)) eqn:Eg;
      [| discriminate].
    injection Hk as <-.
    destruct (argmax_spec _ Eg) as (H1 & H2 & H3).
    pose proof H1 as H1'. rewrite length_switches in H1'.
    split; [lia |]. split.
    + rewrite nth_switches, !Hb in H2 by lia.
      replace (argmax (switches b) + 1 - 1)%nat with (argmax (switches b))
        by lia.
      replace (argmax (switches b) + 1)%nat with (S (argmax (switches b)))
        by lia.
      destruct (fleb (nth (argmax (switches b)) arr NaN) value),
               (fleb (nth (S (argmax (switches b))) arr NaN) value);
        simpl in H2; congruence.
    + intros j Hj. apply (Hsame (argmax (switches b))); [lia | exact H3 | lia].
  - cbn [snd fst]. intros Eg. rewrite Eg. split; [reflexivity |].
    intros j Hj. apply (Hsame (length (switches b))); [lia | |].
    + intros i Hi.
      destruct (nth i (switches b) false) eqn:En; [| reflexivity].
      assert (Hex : existsb (fun x => x) (switches b) = true).
      { apply existsb_exists. exists true. split; [| reflexivity].
        rewrite <- En. now apply nth_In. }
      congruence.
    + rewrite length_switches. lia.
Qed.

Lemma find_bounding_index_lowest_witness :
  find_bounding_index [Fin 290; Fin 300; Fin 320; Fin 305] (Fin 310)
  = (2%nat, true) /\
  fleb (nth (2 - 1) [Fin 290; Fin 300; Fin 320; Fin 305] NaN) (Fin 310)
  <> fleb (nth 2 [Fin 290; Fin 300; Fin 320; Fin 305] NaN) (Fin 310).
Proof.
  assert (E : find_bounding_index [Fin 290; Fin 300; Fin 320; Fin 305]
                (Fin 310) = (2%nat, true)).
  { unfold find_bounding_index. cbn [map fleb val].
    rewrite (Rleb_true 290 310), (Rleb_true 300 310), (Rleb_false 320 310),
      (Rleb_true 305 310) by lra.
    reflexivity. }
  split; [exact E |].
  assert (H4 : (2 <= length [Fin 290; Fin 300; Fin 320; Fin 305])%nat)
    by (simpl; lia).
  exact (proj1 (proj2 (proj1 (find_bounding_index_lowest _ _ H4) 2%nat E))).
Defined.

End BoundingLayer.
